(** * cylc: task instances, reference times, task messages, async cycler

  A shallow embedding of the scheduling core of the suite engine:
  - [Py]             : the few Python builtins the code relies on
                       ([int] on strings, [str] on integers, slices,
                       exceptions and [sys.exit]);
  - [async]          : lib/cylc/cycling/async.py;
  - [task_message]   : lib/cylc/task_message.py ([TaskMessage]: the job
                       status file, printing and sending);
  - [reference_time] : hour arithmetic on [YYYYMMDDHH] stamps;
  - [requisites]     : prerequisite and postrequisite sets;
  - [tasks]          : tasks.py ([task_base], [runahead_task_base], the
                       class table and the class templates);
  - [scaling_gen]    : dev/bin/scaling-gen.py.  *)

From Stdlib Require Import ZArith Ascii String List Bool Lia Sorted.
From Stdlib Require Import DecimalString DecimalZ DecimalPos DecimalN.
From stdpp Require Import base option list strings gmap.

Local Open Scope Z_scope.

(** ** Python builtins *)

Module Py.

(** Exceptions raised by the modelled code. *)
Inductive exn : Type :=
| ValueError
| IndexError
| TypeError
| AttributeError
| OverflowError
| BadStamp.

(** How a call ends: it returns a value, raises, or asks the interpreter
    to exit ([sys.exit(status)]). *)
Inductive outcome (A : Type) : Type :=
| Returned (a : A)
| Raised (e : exn)
| Exited (status : Z).
Arguments Returned {A} a.
Arguments Raised {A} e.
Arguments Exited {A} status.

Definition bind {A B} (m : outcome A) (k : A -> outcome B) : outcome B :=
  match m with
  | Returned a => k a
  | Raised e => Raised e
  | Exited n => Exited n
  end.

#[global] Instance outcome_ret : MRet outcome := @Returned.
#[global] Instance outcome_bind : MBind outcome :=
  fun A B k m => bind m k.
#[global] Instance outcome_fmap : FMap outcome :=
  fun A B f m => bind m (fun a => Returned (f a)).

Definition returns {A} (m : outcome A) : Prop :=
  match m with Returned _ => True | _ => False end.

(** [s.lstrip()], [s.rstrip()] and [s.strip()] on ASCII whitespace. *)
Fixpoint lstrip (s : string) : string :=
  match s with
  | String c r => if Ascii.is_space c then lstrip r else s
  | EmptyString => EmptyString
  end.

Fixpoint rstrip (s : string) : string :=
  match s with
  | String c r =>
      match rstrip r with
      | EmptyString => if Ascii.is_space c then EmptyString
                       else String c EmptyString
      | r' => String c r'
      end
  | EmptyString => EmptyString
  end.

Definition strip (s : string) : string := rstrip (lstrip s).

(** [int(s)] for a string [s], base 10: surrounding whitespace is
    dropped, one sign is allowed, at least one digit is required.
    [None] stands for the [ValueError] of an invalid literal. *)
Definition int_of_str (s : string) : option Z :=
  match strip s with
  | String c r =>
      if decide (c = "+"%char) then Z.of_uint <$> NilZero.uint_of_string r
      else if decide (c = "-"%char)
           then (fun u => - Z.of_uint u) <$> NilZero.uint_of_string r
           else Z.of_uint <$> NilZero.uint_of_string (String c r)
  | EmptyString => None
  end.

(** [str(n)] for an integer [n]. *)
Definition str (n : Z) : string := NilZero.string_of_int (Z.to_int n).

(** The argument of [int(...)]: already an integer, or a string. *)
Inductive int_arg : Type :=
| of_int (n : Z)
| of_str (s : string).

Definition int (a : int_arg) : outcome Z :=
  match a with
  | of_int n => Returned n
  | of_str s =>
      match int_of_str s with
      | Some n => Returned n
      | None => Raised ValueError
      end
  end.

(** The slice [s[i:j]] for [0 <= i <= j]. *)
Definition slice (i j : nat) (s : string) : string :=
  String.substring i (j - i) s.

(** [s[i:]] for [0 <= i]. *)
Definition slice_from (i : nat) (s : string) : string :=
  String.substring i (String.length s - i) s.

(** [s.startswith(p)]. *)
Definition startswith (s p : string) : bool := String.prefix p s.

(** The newline character and the one-character string holding it. *)
Definition newline : ascii := "010"%char.
Definition nl : string := String newline EmptyString.

(** Iterating over a file opened for reading yields its lines, each with
    its terminating newline; only the last line may lack one. *)
Fixpoint readlines (s : string) : list string :=
  match s with
  | EmptyString => []
  | String c r =>
      if decide (c = newline) then String c EmptyString :: readlines r
      else match readlines r with
           | [] => [String c EmptyString]
           | l :: ls => String c l :: ls
           end
  end.

(** Writing a sequence of strings one after the other. *)
Definition concat (ls : list string) : string :=
  foldr String.append EmptyString ls.

(** [s.endswith(p)]. *)
Definition endswith (s p : string) : bool :=
  (String.length p <=? String.length s)%nat
  && String.eqb
       (String.substring (String.length s - String.length p)
          (String.length p) s) p.

Fixpoint has_newline (s : string) : bool :=
  match s with
  | String c r => bool_decide (c = newline) || has_newline r
  | EmptyString => false
  end.

(** One character of [s.upper()]: the ASCII letters a..z are raised. *)
Definition upper_char (c : ascii) : ascii :=
  let n := nat_of_ascii c in
  if ((97 <=? n) && (n <=? 122))%nat then ascii_of_nat (n - 32) else c.

Fixpoint upper (s : string) : string :=
  match s with
  | String c r => String (upper_char c) (upper r)
  | EmptyString => EmptyString
  end.

(** Canonical decimal literals contain no whitespace. *)
Fixpoint no_space (s : string) : bool :=
  match s with
  | String c r => negb (Ascii.is_space c) && no_space r
  | EmptyString => true
  end.

Fixpoint all_digits (s : string) : bool :=
  match s with
  | String c r =>
      match Ascii.is_nat c with Some _ => all_digits r | None => false end
  | EmptyString => true
  end.

(** A text is terminated when it is empty or ends with a newline. *)
Fixpoint terminated (s : string) : bool :=
  match s with
  | EmptyString => true
  | String c r =>
      match r with
      | EmptyString => bool_decide (c = newline)
      | _ => terminated r
      end
  end.

(** A complete line: some text without a newline, then the newline. *)
Definition complete (l : string) : Prop :=
  exists body, l = body +:+ nl /\ has_newline body = false.

(** [os.path.join(a, b)] for a relative [b]. *)
Definition path_join (a b : string) : string :=
  if decide (a = EmptyString) then b
  else if endswith a "/" then a +:+ b
  else a +:+ "/" +:+ b.

End Py.

(** ** lib/cylc/cycling/async.py *)

Module async.

Import Py.

(** class attribute [is_async = True] *)
Definition is_async : bool := true.

(** [offset(cls, tag, n)]: [str(int(tag)-int(n))] *)
Definition offset (tag : string) (n : int_arg) : outcome string :=
  t ← int (of_str tag);
  k ← int n;
  mret (str (t - k)).

(** [__init__]: asynchronous tasks have no runahead limit. *)
Definition default_runahead_limit : option Z := None.

Definition get_def_runahead : option Z := default_runahead_limit.

(** [next(self, tag)]: [str(int(tag) + 1)] *)
Definition next (tag : string) : outcome string :=
  t ← int (of_str tag);
  mret (str (t + 1)).

Definition initial_adjust_up (tag : string) : string := tag.

Definition valid (tag : string) : bool := true.

End async.

(** ** lib/cylc/task_message.py: the job status file *)

Module task_message.

Import Py.

Definition CYLC_JOB_PID : string := "CYLC_JOB_PID".
Definition CYLC_JOB_INIT_TIME : string := "CYLC_JOB_INIT_TIME".
Definition CYLC_JOB_EXIT : string := "CYLC_JOB_EXIT".
Definition CYLC_JOB_EXIT_TIME : string := "CYLC_JOB_EXIT_TIME".
Definition CYLC_MESSAGE : string := "CYLC_MESSAGE".

Definition ABORT_MESSAGE_PREFIX : string := "Task job script aborted with ".
Definition FAIL_MESSAGE_PREFIX : string := "Task job script received signal ".
Definition VACATION_MESSAGE_PREFIX : string :=
  "Task job script vacated by signal ".

Definition NORMAL : string := "NORMAL".
Definition WARNING : string := "WARNING".
Definition CRITICAL : string := "CRITICAL".
Definition CUSTOM : string := "CUSTOM".
Definition SEVERITIES : list string := [NORMAL; WARNING; CRITICAL; CUSTOM].

(** What [_update_job_status_file] reads of a [TaskMessage] object. *)
Record TaskMessage : Type := {
  severity : string;
  true_event_time : string
}.

(** [__init__(severity)]: an illegal severity raises [ValueError]; the
    event time is the wall clock reading [now]. *)
Definition init (severity now : string) : outcome TaskMessage :=
  if decide (severity ∈ SEVERITIES)
  then Returned {| severity := severity; true_event_time := now |}
  else Raised ValueError.

(** The part of the operating system the method talks to: the environment,
    the files by path, the paths that cannot be opened for writing, and the
    parent process id. *)
Record os_state : Type := {
  environ : gmap string string;
  files : gmap string string;
  denied : gset string;
  ppid : Z
}.

Definition set_file (path content : string) (os : os_state) : os_state :=
  {| environ := environ os;
     files := <[path := content]> (files os);
     denied := denied os;
     ppid := ppid os |}.

(** The content a file has when opened: a file opened for append is
    created empty when it does not exist. *)
Definition content_of (os : os_state) (path : string) : string :=
  default EmptyString (files os !! path).

(** ["%s=%s\n" % (key, value)] *)
Definition key_value (key value : string) : string :=
  key +:+ "=" +:+ value +:+ nl.

(** ["%s=%s|%s|%s\n" % (CYLC_MESSAGE, time, severity, message)] *)
Definition message_record (self : TaskMessage) (message : string) : string :=
  CYLC_MESSAGE +:+ "=" +:+ true_event_time self +:+ "|" +:+ severity self
    +:+ "|" +:+ message +:+ nl.

(** The lines the vacation branch keeps. *)
Definition kept (line : string) : bool := negb (startswith line "CYLC_JOB_").

(** The messages the method handles by appending to the file: every
    message but one that reaches the vacation branch. *)
Definition appending (started succeeded message : string) : Prop :=
  message = started \/ message = succeeded
  \/ startswith message VACATION_MESSAGE_PREFIX = false.



Section update_job_status_file.

(** [cylc.task_outputs] is not among the sources: its two constants are
    parameters of the model. *)
Variables TASK_OUTPUT_STARTED TASK_OUTPUT_SUCCEEDED : string.

(** The body of the loop over [messages]: the content of the status file
    after [message] has been handled.  Writes through the open handle reach
    the file before it is read again (the vacation branch closes the handle
    first), so they are applied to the content directly. *)
Definition write_message (self : TaskMessage) (job_id : Z)
    (content message : string) : string :=
  if decide (message = TASK_OUTPUT_STARTED) then
    content
      +:+ (if decide (1 < job_id) then key_value CYLC_JOB_PID (str job_id)
           else EmptyString)
      +:+ key_value CYLC_JOB_INIT_TIME (true_event_time self)
  else if decide (message = TASK_OUTPUT_SUCCEEDED) then
    content
      +:+ (key_value CYLC_JOB_EXIT (upper TASK_OUTPUT_SUCCEEDED)
           +:+ key_value CYLC_JOB_EXIT_TIME (true_event_time self))
  else if startswith message FAIL_MESSAGE_PREFIX then
    content
      +:+ (key_value CYLC_JOB_EXIT
             (slice_from (String.length FAIL_MESSAGE_PREFIX) message)
           +:+ key_value CYLC_JOB_EXIT_TIME (true_event_time self))
  else if startswith message ABORT_MESSAGE_PREFIX then
    content
      +:+ (key_value CYLC_JOB_EXIT
             (slice_from (String.length ABORT_MESSAGE_PREFIX) message)
           +:+ key_value CYLC_JOB_EXIT_TIME (true_event_time self))
  else if startswith message VACATION_MESSAGE_PREFIX then
    (* Job vacated, remove entries related to current job *)
    concat (filter (fun line => kept line = true) (readlines content))
      +:+ message_record self message
  else
    content +:+ message_record self message.

(** [_update_job_status_file(self, messages)]: nothing happens when
    [CYLC_TASK_LOG_ROOT] is unset or empty, or when the status file cannot
    be opened for append. *)
Definition _update_job_status_file (self : TaskMessage)
    (messages : list string) (os : os_state) : os_state :=
  match environ os !! "CYLC_TASK_LOG_ROOT" with
  | None => os
  | Some job_log_name =>
      if decide (job_log_name = EmptyString) then os
      else
        let path := job_log_name +:+ ".status" in
        if decide (path ∈ denied os) then os
        else set_file path
               (fold_left (write_message self (ppid os)) messages
                  (content_of os path))
               os
  end.

End update_job_status_file.

(** A job whose status file holds a process id and one message, and the
    messenger of a warning. *)
Definition sample_os : os_state :=
  {| environ := {[ "CYLC_TASK_LOG_ROOT" := "/run/job" ]};
     files := {[ "/run/job.status" :=
                  "CYLC_JOB_PID=4242" +:+ nl +:+ "CYLC_MESSAGE=t0|NORMAL|hello"
                    +:+ nl ]};
     denied := ∅;
     ppid := 4242 |}.

Definition sample_self : TaskMessage :=
  {| severity := "WARNING"; true_event_time := "t1" |}.

(** *** Sending *)

Definition MSG_MAX_TRIES : Z := 7.

(** The two streams [_print_messages] chooses between. *)
Inductive stream : Type := stdout | stderr.

(** What a call of [client.put_message] does: it returns, raises a
    [ClientError] that is no [ClientInfoError], raises a [ClientInfoError]
    (a subclass of [ClientError]), or raises something else, which the
    method does not catch. *)
Inductive reply : Type :=
| Delivered
| ClientError
| ClientInfoError
| Fault (name : string).

(** [isinstance(exc, ClientInfoError)] *)
Definition is_info (exc : reply) : bool :=
  match exc with ClientInfoError => true | _ => false end.

(** What leaves a method that does not return: the [ValueError] of [int]
    or [float] on a malformed setting, the [KeyError] of a missing
    variable, the error of [sleep] on an interval it refuses, or what the
    client raised. *)
Inductive failure : Type :=
| value_error
| key_error (key : string)
| sleep_error
| client_fault (name : string).

Inductive ending : Type :=
| Done
| Failed (e : failure).

(** What [load_contact_file] does: it returns the contact data, or raises
    one of the three exceptions [send] catches. *)
Inductive contact : Type :=
| Loaded (data : gmap string string)
| Unavailable.

(** The object with the attributes [send] uses: [env_map] is the copy of
    the environment taken by [__init__], [suite] and [task_id] were looked
    up in it then. *)
Record messenger : Type := {
  message_of : TaskMessage;
  env_map : gmap string string;
  suite : option string;
  task_id : option string
}.

Definition with_env_map (env : gmap string string) (self : messenger)
    : messenger :=
  {| message_of := message_of self;
     env_map := env;
     suite := suite self;
     task_id := task_id self |}.

Section sending.

(** Floating point numbers are not modelled: their type, [float] on a
    string ([None] for its [ValueError]), the two default values and the
    intervals [sleep] accepts are parameters. *)
Variable float_value : Type.
Variable float : string -> option float_value.
Variables MSG_RETRY_INTVL MSG_TIMEOUT : float_value.
Variable sleeps : float_value -> bool.

(** The keys of [SuiteSrvFilesManager], [cylc.flags.verbose] and the two
    constants of [cylc.task_outputs] are not among the sources either. *)
Variables KEY_NAME KEY_OWNER KEY_HOST KEY_DIR_ON_SUITE_HOST : string.
Variables KEY_TASK_MSG_RETRY_INTVL KEY_TASK_MSG_MAX_TRIES : string.
Variable KEY_TASK_MSG_TIMEOUT : string.
Variable verbose : bool.
Variables TASK_OUTPUT_STARTED TASK_OUTPUT_SUCCEEDED : string.

(** The answer of the suite to each call of [put_message], the calls
    counted from 0. *)
Variable net : nat -> reply.

(** What the methods do to the outside, in order.  The lines
    [_send_by_remote_port] writes to the standard error hold clock
    readings and the text of an exception: each kind of line is an effect
    of its own.  The traceback that [cylc.flags.debug] asks for is not
    recorded. *)
Inductive effect : Type :=
| write (handle : stream) (text : string)
| flush (handle : stream)
| put_message (task_id : option string) (severity message : string)
| try_failed (i max_tries : Z)
| send_failed
| retry_in (retry_intvl timeout : float_value)
| sleep (retry_intvl : float_value)
| reset_client
| try_succeeded (i max_tries : Z)
| argv_append (arg : string)
| remrun (env : gmap string string) (path : list string).

(** The outside: the operating system of the status file, the number of
    calls of [put_message] made so far, and the effects so far. *)
Record world : Type := {
  os : os_state;
  calls : nat;
  out : list effect
}.

Definition emit (e : effect) (w : world) : world :=
  {| os := os w; calls := calls w; out := out w ++ [e] |}.

(** [__init__(severity)]: [environ] is [os.environ], [now] the reading of
    the clock. *)
Definition new (severity now : string) (environ : gmap string string)
    : outcome messenger :=
  m ← init severity now;
  mret {| message_of := m;
          env_map := environ;
          suite := environ !! KEY_NAME;
          task_id := environ !! "CYLC_TASK_ID" |}.

(** ['%s %s - %s\n' % (self.true_event_time, self.severity, message)] *)
Definition print_line (self : TaskMessage) (message : string) : string :=
  true_event_time self +:+ " " +:+ severity self +:+ " - " +:+ message
    +:+ nl.

Definition handle_of (self : TaskMessage) : stream :=
  if decide (severity self ∈ [NORMAL; CUSTOM]) then stdout else stderr.

Definition _print_messages (self : TaskMessage) (messages : list string)
    (w : world) : world :=
  let handle := handle_of self in
  emit (flush handle)
    (fold_left (fun w message => emit (write handle (print_line self message)) w)
       messages w).

(** The loop over [messages] inside the [try]: it stops at the first call
    that raises. *)
Fixpoint put_messages (self : messenger) (messages : list string)
    (w : world) : reply * world :=
  match messages with
  | [] => (Delivered, w)
  | message :: rest =>
      let w' :=
        {| os := os w;
           calls := S (calls w);
           out := out w ++ [put_message (task_id self)
                              (severity (message_of self)) message] |} in
      match net (calls w) with
      | Delivered => put_messages self rest w'
      | r => (r, w')
      end
  end.

(** The loop [for i in range(1, max_tries + 1)], over what is left of the
    range. *)
Fixpoint tries (self : messenger) (messages : list string)
    (retry_intvl timeout : float_value) (max_tries : Z) (range : list Z)
    (w : world) : ending * world :=
  match range with
  | [] => (Done, w)
  | i :: range' =>
      let '(r, w1) := put_messages self messages w in
      match r with
      | Delivered =>
          (Done, if 1 <? i then emit (try_succeeded i max_tries) w1 else w1)
      | Fault name => (Failed (client_fault name), w1)
      | exc =>
          let w2 := emit (try_failed i max_tries) w1 in
          if (max_tries <=? i) || is_info exc
          then tries self messages retry_intvl timeout max_tries range'
                 (emit send_failed w2)
          else
            let w3 := emit (retry_in retry_intvl timeout) w2 in
            if sleeps retry_intvl
            then tries self messages retry_intvl timeout max_tries range'
                   (emit reset_client (emit (sleep retry_intvl) w3))
            else (Failed sleep_error, w3)
      end
  end.

(** [convert(self.env_map.get(key, default))] *)
Definition setting {A} (convert : string -> option A) (default : A)
    (value : option string) : option A :=
  match value with
  | Some s => convert s
  | None => Some default
  end.

Definition _send_by_remote_port (self : messenger) (messages : list string)
    (w : world) : ending * world :=
  match setting float MSG_RETRY_INTVL
          (env_map self !! KEY_TASK_MSG_RETRY_INTVL) with
  | None => (Failed value_error, w)
  | Some retry_intvl =>
      match setting int_of_str MSG_MAX_TRIES
              (env_map self !! KEY_TASK_MSG_MAX_TRIES) with
      | None => (Failed value_error, w)
      | Some max_tries =>
          match setting float MSG_TIMEOUT
                  (env_map self !! KEY_TASK_MSG_TIMEOUT) with
          | None => (Failed value_error, w)
          | Some timeout =>
              tries self messages retry_intvl timeout max_tries
                (seqZ 1 max_tries) w
          end
      end
  end.

(** The variables handed to the command that is invoked again on the suite
    host. *)
Definition passed_on : list string :=
  [KEY_NAME; KEY_DIR_ON_SUITE_HOST; "CYLC_TASK_ID"; "CYLC_UTC";
   "CYLC_VERBOSE"].

Definition _send_by_ssh (self : messenger) (w : world) : ending * world :=
  match env_map self !! KEY_OWNER with
  | None => (Failed (key_error KEY_OWNER), w)
  | Some owner =>
      let w1 := emit (argv_append ("--user=" +:+ owner)) w in
      match env_map self !! KEY_HOST with
      | None => (Failed (key_error KEY_HOST), w1)
      | Some host =>
          let w2 := emit (argv_append ("--host=" +:+ host)) w1 in
          let w3 := if verbose then emit (argv_append "-v") w2 else w2 in
          let w4 :=
            if decide (env_map self !! "CYLC_TASK_SSH_LOGIN_SHELL"
                       = Some "False")
            then emit (argv_append "--no-login") w3
            else emit (argv_append "--login") w3 in
          let env :=
            fold_left
              (fun env var =>
                 match env_map self !! var with
                 | Some value => <[var := value]> env
                 | None => env
                 end)
              passed_on (∅ : gmap string string) in
          match env_map self !! "CYLC_DIR_ON_SUITE_HOST" with
          | None => (Failed (key_error "CYLC_DIR_ON_SUITE_HOST"), w4)
          | Some dir => (Done, emit (remrun env [path_join dir "bin"]) w4)
          end
      end
  end.

(** [send(self, messages)]: the object after the call, how the call ends,
    and the outside after it. *)
Definition send (self : messenger) (messages : list string)
    (contact_file : contact) (w : world) : messenger * (ending * world) :=
  let w1 := _print_messages (message_of self) messages w in
  let w2 :=
    {| os := _update_job_status_file TASK_OUTPUT_STARTED
               TASK_OUTPUT_SUCCEEDED (message_of self) messages (os w1);
       calls := calls w1;
       out := out w1 |} in
  let messages :=
    map (fun msg => msg +:+ " at " +:+ true_event_time (message_of self))
      messages in
  match contact_file with
  | Unavailable => (self, (Done, w2))
  | Loaded data =>
      let self := with_env_map (data ∪ env_map self) self in
      if decide (env_map self !! "CYLC_TASK_COMMS_METHOD" = Some "ssh")
      then (self, _send_by_ssh self w2)
      else (self, _send_by_remote_port self messages w2)
  end.

(** The messages put, in order, and the number of sleeps, among effects. *)
Definition puts (es : list effect) : list string :=
  omap (fun e => match e with put_message _ _ m => Some m | _ => None end) es.

Definition is_sleep (e : effect) : bool :=
  match e with sleep _ => true | _ => false end.

Definition sleep_count (es : list effect) : nat :=
  length (List.filter is_sleep es).

(** A run of the loop over the tries, seen from afar: the status file is
    left alone, and the messages put are one prefix of [messages] for each
    try made; a sleep is counted only against a try that is not the last
    one. *)
Definition in_rounds (messages : list string) (max_tries : Z)
    (range : list Z) (w w' : world) : Prop :=
  os w' = os w
  /\ exists (added : list effect) (ks : list nat),
       out w' = out w ++ added
       /\ calls w' = (calls w + length (puts added))%nat
       /\ puts added = ks ≫= (fun k => take k messages)
       /\ Forall (fun k => (k <= length messages)%nat) ks
       /\ (length ks <= length range)%nat
       /\ (sleep_count added
           <= length (filter (fun i : Z => (i < max_tries)%Z) range))%nat.

End sending.

Arguments write {float_value} handle text.
Arguments flush {float_value} handle.
Arguments put_message {float_value} task_id severity message.
Arguments try_failed {float_value} i max_tries.
Arguments send_failed {float_value}.
Arguments retry_in {float_value} retry_intvl timeout.
Arguments sleep {float_value} retry_intvl.
Arguments reset_client {float_value}.
Arguments try_succeeded {float_value} i max_tries.
Arguments argv_append {float_value} arg.
Arguments remrun {float_value} env path.
Arguments os {float_value} w.
Arguments calls {float_value} w.
Arguments out {float_value} w.
Arguments emit {float_value} e w.
Arguments _print_messages {float_value} self messages w.
Arguments put_messages {float_value} net self messages w.
Arguments tries {float_value} sleeps net self messages retry_intvl timeout
  max_tries range w.
Arguments puts {float_value} es.
Arguments is_sleep {float_value} e.
Arguments sleep_count {float_value} es.
Arguments in_rounds {float_value} messages max_tries range w w'.

(** An instance for the examples: the keys as the suite service files
    manager names them, whole seconds for the floating point numbers, a
    messenger that is allowed three tries, and a quiet outside. *)
Definition sample_float (s : string) : option Z := int_of_str s.

Definition sample_port (net : nat -> reply) (self : messenger)
    (messages : list string) (w : world Z) : ending * world Z :=
  _send_by_remote_port Z sample_float 5 30 (fun z => 0 <=? z)
    "CYLC_TASK_MSG_RETRY_INTVL" "CYLC_TASK_MSG_MAX_TRIES"
    "CYLC_TASK_MSG_TIMEOUT" net self messages w.

Definition sample_messenger : messenger :=
  {| message_of := sample_self;
     env_map := {[ "CYLC_TASK_MSG_MAX_TRIES" := "3" ]};
     suite := Some "suite";
     task_id := Some "t.1" |}.

Definition sample_world : world Z :=
  {| os := sample_os; calls := 0; out := [] |}.

End task_message.

(** ** Reference-time arithmetic *)

Module reference_time.

Import Py.

(** Modelled from the spec: the module [reference_time] (its functions
    [increment] and [decrement]) is not among the sources.  A stamp is the
    10-character decimal [YYYYMMDDHH]; arithmetic treats it as a calendar
    timestamp at hour granularity, with day and leap rollover of the
    proleptic Gregorian calendar; a malformed stamp fails with [BadStamp].
    A result outside the years 0000..9999 is no stamp and is reported as
    [OverflowError]. *)
Record stamp : Type := {
  year : Z;
  month : Z;
  day : Z;
  hour : Z
}.

Definition is_leap (y : Z) : bool :=
  (y mod 4 =? 0) && (negb (y mod 100 =? 0) || (y mod 400 =? 0)).

Definition days_in_month (y m : Z) : Z :=
  if m =? 2 then (if is_leap y then 29 else 28)
  else if (m =? 4) || (m =? 6) || (m =? 9) || (m =? 11) then 30
  else 31.

Definition valid (c : stamp) : bool :=
  (0 <=? year c) && (year c <=? 9999)
  && (1 <=? month c) && (month c <=? 12)
  && (1 <=? day c) && (day c <=? days_in_month (year c) (month c))
  && (0 <=? hour c) && (hour c <=? 23).

Definition digit_value (c : ascii) : Z :=
  match Ascii.is_nat c with
  | Some d => Z.of_nat d
  | None => 0
  end.

(** The number a string of decimal digits denotes. *)
Definition digits (s : string) : Z :=
  fold_left (fun acc c => 10 * acc + digit_value c)
    (list_ascii_of_string s) 0.

Definition digit_char (d : Z) : ascii :=
  match d with
  | 0 => "0" | 1 => "1" | 2 => "2" | 3 => "3" | 4 => "4"
  | 5 => "5" | 6 => "6" | 7 => "7" | 8 => "8" | _ => "9"
  end%char.

(** The [w] lowest decimal digits of [n], lowest first. *)
Fixpoint low_digits (w : nat) (n : Z) : list ascii :=
  match w with
  | O => []
  | S w' => digit_char (n mod 10) :: low_digits w' (n / 10)
  end.

(** [n] written with exactly [w] digits, zero padded. *)
Definition zfill (w : nat) (n : Z) : string :=
  string_of_list_ascii (rev (low_digits w n)).

Definition parse (s : string) : option stamp :=
  if (String.length s =? 10)%nat && all_digits s then
    let c := {| year := digits (slice 0 4 s);
                month := digits (slice 4 6 s);
                day := digits (slice 6 8 s);
                hour := digits (slice 8 10 s) |} in
    if valid c then Some c else None
  else None.

Definition format (c : stamp) : string :=
  zfill 4 (year c) +:+ zfill 2 (month c) +:+ zfill 2 (day c)
    +:+ zfill 2 (hour c).

Definition next_day (c : stamp) : stamp :=
  if day c <? days_in_month (year c) (month c) then
    {| year := year c; month := month c; day := day c + 1; hour := hour c |}
  else if month c <? 12 then
    {| year := year c; month := month c + 1; day := 1; hour := hour c |}
  else
    {| year := year c + 1; month := 1; day := 1; hour := hour c |}.

Definition prev_day (c : stamp) : stamp :=
  if 1 <? day c then
    {| year := year c; month := month c; day := day c - 1; hour := hour c |}
  else if 1 <? month c then
    {| year := year c; month := month c - 1;
       day := days_in_month (year c) (month c - 1); hour := hour c |}
  else
    {| year := year c - 1; month := 12; day := 31; hour := hour c |}.

(** [n] hours later (earlier when [n] is negative). *)
Definition shift (c : stamp) (n : Z) : stamp :=
  let total := hour c + n in
  let c' := {| year := year c; month := month c; day := day c;
               hour := total mod 24 |} in
  let days := total / 24 in
  if 0 <=? days then Nat.iter (Z.to_nat days) next_day c'
  else Nat.iter (Z.to_nat (- days)) prev_day c'.

Definition shifted (rt : string) (n : Z) : outcome string :=
  match parse rt with
  | None => Raised BadStamp
  | Some c =>
      let c' := shift c n in
      if valid c' then Returned (format c') else Raised OverflowError
  end.

(** [increment(stamp, hours)] *)
Definition increment (rt : string) (hours : Z) : outcome string :=
  shifted rt hours.

(** [decrement(stamp, hours)] *)
Definition decrement (rt : string) (hours : Z) : outcome string :=
  shifted rt (- hours).

(** A decimal digit. *)
Definition is_digit (c : ascii) : Prop := is_Some (Ascii.is_nat c).

(** The value of a digit list, lowest digit first. *)
Definition low_value (r : list ascii) : Z :=
  foldr (fun c acc => 10 * acc + digit_value c) 0 r.

(** A well-formed stamp is one that parses. *)
Definition well_formed (rt : string) : Prop := is_Some (parse rt).

End reference_time.

(** ** Requisite sets *)

Module requisites.

(** Modelled from the spec: the module [requisites] (the classes
    [requisites], [timed_requisites] and [fuzzy_requisites]) is not among
    the sources.  A requisite is a text token with a satisfied flag, and
    within one set tokens are unique: a set is a finite map from tokens to
    flags.  It is built from an owner label and an initial sequence of
    tokens, all unsatisfied.  The minute offsets of the timed variant are
    informational and do not affect satisfaction: they are not
    represented. *)
Inductive variant : Type := exact | timed | fuzzy.

Record t : Type := {
  owner : string;
  kind : variant;
  flags : gmap string bool
}.

Definition make (k : variant) (task_name : string) (tokens : list string) : t :=
  {| owner := task_name;
     kind := k;
     flags := list_to_map ((fun tk => (tk, false)) <$> tokens) |}.

Definition with_flags (r : t) (m : gmap string bool) : t :=
  {| owner := owner r; kind := kind r; flags := m |}.

(** [exists(token)] *)
Definition requisite_exists (r : t) (tk : string) : bool :=
  bool_decide (is_Some (flags r !! tk)).

(** [satisfied(token)] *)
Definition is_satisfied (r : t) (tk : string) : bool :=
  bool_decide (flags r !! tk = Some true).

(** [set_satisfied(token)] *)
Definition set_satisfied (r : t) (tk : string) : t :=
  with_flags r (<[tk := true]> (flags r)).

(** [set_all_satisfied()] *)
Definition set_all_satisfied (r : t) : t :=
  with_flags r ((fun _ => true) <$> flags r).

(** [all_satisfied()]: the conjunction of the flags. *)
Definition all_satisfied (r : t) : bool :=
  bool_decide (map_Forall (fun _ b => b = true) (flags r)).

(** the snapshot list *)
Definition get_requisites (r : t) : list (string * bool) :=
  map_to_list (flags r).

Definition get_list (r : t) : list string := (get_requisites r).*1.

(** The tokens of a set that are satisfied. *)
Definition satisfied_tokens (r : t) : list string :=
  (filter (fun p => p.2 = true) (get_requisites r)).*1.

(** The greatest string of a list, in lexicographic order. *)
Definition greatest (l : list string) : option string :=
  foldr (fun s acc =>
           match acc with
           | Some m => if String.leb s m then Some m else Some s
           | None => Some s
           end) None l.

Section matching.

(** The pattern language of fuzzy requisites (the word file, a glob with
    a range, the word ready) is a parameter:
    [fuzzy_matches pattern candidate]. *)
Variable fuzzy_matches : string -> string -> bool.

(** One of my prerequisites, seen against the tokens [offered] by another
    set, put into the set [acc] being rebuilt.  A satisfied one stays as it
    is; an exact or timed one is marked when its token is offered; an
    unsharpened fuzzy one is rewritten to the greatest matching token and
    marked. *)
Definition satisfy_one (k : variant) (offered : list string)
    (q : string * bool) (acc : gmap string bool) : gmap string bool :=
  if q.2 then <[q.1 := true]> acc
  else match k with
       | fuzzy =>
           match greatest (filter (fun c => fuzzy_matches q.1 c = true)
                             offered) with
           | Some c => <[c := true]> acc
           | None => <[q.1 := false]> acc
           end
       | _ => <[q.1 := bool_decide (q.1 ∈ offered)]> acc
       end.

(** [satisfy_me(other)]: only the satisfied postrequisites of [other]
    count. *)
Definition satisfy_me (mine other : t) : t :=
  with_flags mine
    (foldr (satisfy_one (kind mine) (satisfied_tokens other)) ∅
       (get_requisites mine)).

(** [will_satisfy_me(other)]: as [satisfy_me], counting every postrequisite
    of [other], satisfied or not yet. *)
Definition will_satisfy_me (mine other : t) : t :=
  with_flags mine
    (foldr (satisfy_one (kind mine) (get_list other)) ∅
       (get_requisites mine)).

End matching.

(** A set as a class template builds it: not empty, nothing satisfied. *)
Definition fresh (r : t) : Prop :=
  flags r <> ∅ /\ map_Forall (fun _ b => b = false) (flags r).

End requisites.

(** ** tasks.py *)

Module tasks.

Import Py.

(** The task classes of the file. *)
Inductive task_class : Type :=
| downloader
| oper_to_topnet
| nzlam
| nzlam_post
| globalprep
| globalwave
| nzwave
| ricom
| mos
| nztide
| topnet
| nwpglobal.

#[global] Instance task_class_eq_dec : EqDecision task_class.
Proof. solve_decision. Defined.

(** class attribute [name] *)
Definition class_name (c : task_class) : string :=
  match c with
  | downloader => "downloader"
  | oper_to_topnet => "oper_to_topnet"
  | nzlam => "nzlam"
  | nzlam_post => "nzlam_post"
  | globalprep => "globalprep"
  | globalwave => "globalwave"
  | nzwave => "nzwave"
  | ricom => "ricom"
  | mos => "mos"
  | nztide => "nztide"
  | topnet => "topnet"
  | nwpglobal => "nwpglobal"
  end.

(** The class each one derives from. *)
Inductive base_class : Type := task_base | runahead_task_base.

Definition base_of (c : task_class) : base_class :=
  match c with
  | downloader | oper_to_topnet | nztide => runahead_task_base
  | _ => task_base
  end.

(** class attribute [valid_hours], as the class statement declares it *)
Definition declared_valid_hours (c : task_class) : list Z :=
  match c with
  | downloader | nzlam | nzlam_post | nzwave | mos => [0; 6; 12; 18]
  | oper_to_topnet | ricom | nztide => [6; 18]
  | globalprep | globalwave | nwpglobal => [0]
  | topnet => seqZ 0 24
  end.

Inductive task_state : Type := waiting | running | finished.

#[global] Instance task_state_eq_dec : EqDecision task_state.
Proof. solve_decision. Defined.

Definition state_text (s : task_state) : string :=
  match s with
  | waiting => "waiting"
  | running => "running"
  | finished => "finished"
  end.

(** The attributes of a task object.  [mode_stamp] is the reference time
    the two mode patterns of a [topnet] object were compiled with. *)
Record task : Type := {
  cls : task_class;
  ref_time : string;
  state : task_state;
  prerequisites : requisites.t;
  postrequisites : requisites.t;
  latest_message : string;
  abdicated : bool;
  mode_stamp : string
}.

Definition name (self : task) : string := class_name (cls self).

Definition with_state (self : task) (s : task_state) : task :=
  {| cls := cls self; ref_time := ref_time self; state := s;
     prerequisites := prerequisites self;
     postrequisites := postrequisites self;
     latest_message := latest_message self; abdicated := abdicated self;
     mode_stamp := mode_stamp self |}.

Definition with_prerequisites (self : task) (r : requisites.t) : task :=
  {| cls := cls self; ref_time := ref_time self; state := state self;
     prerequisites := r;
     postrequisites := postrequisites self;
     latest_message := latest_message self; abdicated := abdicated self;
     mode_stamp := mode_stamp self |}.

Definition with_postrequisites (self : task) (r : requisites.t) : task :=
  {| cls := cls self; ref_time := ref_time self; state := state self;
     prerequisites := prerequisites self;
     postrequisites := r;
     latest_message := latest_message self; abdicated := abdicated self;
     mode_stamp := mode_stamp self |}.

Definition with_latest_message (self : task) (m : string) : task :=
  {| cls := cls self; ref_time := ref_time self; state := state self;
     prerequisites := prerequisites self;
     postrequisites := postrequisites self;
     latest_message := m; abdicated := abdicated self;
     mode_stamp := mode_stamp self |}.

Definition with_abdicated (self : task) (b : bool) : task :=
  {| cls := cls self; ref_time := ref_time self; state := state self;
     prerequisites := prerequisites self;
     postrequisites := postrequisites self;
     latest_message := latest_message self; abdicated := b;
     mode_stamp := mode_stamp self |}.

(** What a task does to the outside: calls on its logger and shell
    commands handed to [os.system]. *)
Inductive level : Type := DEBUG | INFO | WARNING | CRITICAL.

Inductive event : Type :=
| Log (lvl : level) (logger : string) (text : string)
| System (command : string).

(** The state shared by all task objects: the class attributes
    [task_base.processing_required], [topnet.catchup_mode] and each class's
    [valid_hours] list, and the events so far, oldest first. *)
Record world : Type := {
  processing_required : bool;
  catchup_mode : bool;
  valid_hours : task_class -> list Z;
  trace : list event
}.

Definition initial_world : world :=
  {| processing_required := false;
     catchup_mode := true;
     valid_hours := declared_valid_hours;
     trace := [] |}.

Definition emit (e : event) (w : world) : world :=
  {| processing_required := processing_required w;
     catchup_mode := catchup_mode w;
     valid_hours := valid_hours w;
     trace := trace w ++ [e] |}.

Definition set_processing_required (b : bool) (w : world) : world :=
  {| processing_required := b;
     catchup_mode := catchup_mode w;
     valid_hours := valid_hours w;
     trace := trace w |}.

Definition set_catchup_mode (b : bool) (w : world) : world :=
  {| processing_required := processing_required w;
     catchup_mode := b;
     valid_hours := valid_hours w;
     trace := trace w |}.

Definition set_valid_hours (c : task_class) (l : list Z) (w : world) : world :=
  {| processing_required := processing_required w;
     catchup_mode := catchup_mode w;
     valid_hours := fun c' => if decide (c' = c) then l else valid_hours w c';
     trace := trace w |}.

(** [self.log.<lvl>(text)], the logger being ["main." + self.name]. *)
Definition log (lvl : level) (self : task) (text : string) (w : world) : world :=
  emit (Log lvl ("main." +:+ name self) text) w.

(** The shell commands of a trace. *)
Definition launches (l : list event) : list string :=
  omap (fun e => match e with System c => Some c | Log _ _ _ => None end) l.

(** A method call leaves the object and the shared state changed, and
    returns, raises or exits. *)
Record after (A : Type) : Type := After {
  self_of : task;
  world_of : world;
  result_of : outcome A
}.
Arguments After {A} _ _ _.
Arguments self_of {A} _.
Arguments world_of {A} _.
Arguments result_of {A} _.

Definition identity (self : task) : string :=
  name self +:+ "%" +:+ ref_time self.

Definition display (self : task) : string :=
  name self +:+ "(" +:+ ref_time self +:+ ")".

Definition get_state (self : task) : string :=
  name self +:+ ": " +:+ state_text (state self).

(** [task_base.__init__(self, ref_time, initial_state)], called after the
    derived class has set [ref_time], [prerequisites] and [postrequisites]
    on [self].  [None] and the empty string are the false values of
    [initial_state]. *)
Definition task_base_init (self : task) (initial_state : option string)
    (w : world) : after unit :=
  let w := set_processing_required true w in
  let self := with_abdicated (with_latest_message self "") false in
  match initial_state with
  | None => After (with_state self waiting) w (Returned ())
  | Some s =>
      if decide (s = "") then After (with_state self waiting) w (Returned ())
      else if decide (s = "waiting") then
        After (with_state self waiting) w (Returned ())
      else if decide (s = "finished") then
        let self :=
          with_postrequisites self
            (requisites.set_all_satisfied (postrequisites self)) in
        let w := log WARNING self
                   (identity self +:+ " starting in FINISHED state") w in
        After (with_state self finished) w (Returned ())
      else if decide (s = "ready") then
        (* waiting, but ready to go *)
        let self := with_state self waiting in
        let w := log WARNING self
                   (identity self +:+ " starting in READY state") w in
        After (with_prerequisites self
                 (requisites.set_all_satisfied (prerequisites self)))
          w (Returned ())
      else
        After self
          (log CRITICAL self ("unknown initial task state: " +:+ s) w)
          (Exited 1)
  end.

(** [runahead_task_base]: [self.MAX_FINISHED = 4], assigned once in
    [__init__]. *)
Definition MAX_FINISHED : Z := 4.

Definition runahead_task_base_init (self : task)
    (initial_state : option string) (w : world) : after unit :=
  let r := task_base_init self initial_state w in
  match result_of r with
  | Returned _ =>
      After (self_of r)
        (log INFO (self_of r)
           (identity (self_of r) +:+ " max runahead: " +:+ str MAX_FINISHED
              +:+ " tasks") (world_of r))
        (Returned ())
  | _ => r
  end.

(** The initialiser an object of class [cls self] runs last. *)
Definition init (self : task) (initial_state : option string) (w : world)
    : after unit :=
  match base_of (cls self) with
  | task_base => task_base_init self initial_state w
  | runahead_task_base => runahead_task_base_init self initial_state w
  end.

(** [nearest_ref_time(self, rt)] for an object of class [c]: the next time
    >= rt for which the task is valid.  [foo] is the class's own list, so
    the [append] changes the class attribute.  When no hour of [foo] is
    late enough [incr] is still [None], which is no number of hours to
    increment by. *)
Definition nearest_ref_time (c : task_class) (rt : string) (w : world)
    : world * outcome string :=
  match int (of_str (slice 8 10 rt)) with
  | Returned rh =>
      match valid_hours w c with
      | [] => (w, Raised IndexError)
      | first_vh :: _ =>
          let extra_vh := 24 + first_vh in
          let foo := valid_hours w c ++ [extra_vh] in
          (set_valid_hours c foo w,
           match List.find (fun vh => rh <=? vh) foo with
           | Some vh => reference_time.increment rt (vh - rh)
           | None => Raised TypeError
           end)
      end
  | Raised e => (w, Raised e)
  | Exited n => (w, Exited n)
  end.

(** [l.index(x)] *)
Fixpoint index (x : Z) (l : list Z) : option nat :=
  match l with
  | [] => None
  | y :: r => if decide (y = x) then Some O else S <$> index x r
  end.

(** [l[i]] *)
Definition item (l : list Z) (i : nat) : outcome Z :=
  match l !! i with
  | Some x => Returned x
  | None => Raised IndexError
  end.

(** [next_ref_time(self)]: the next time the task is valid at. *)
Definition next_ref_time (self : task) (w : world) : outcome string :=
  let vhs := valid_hours w (cls self) in
  let n_times := length vhs in
  increment ←
    (if decide (n_times = 1%nat) then Returned 24
     else
       rh ← int (of_str (slice 8 10 (ref_time self)));
       match index rh vhs with
       | None => Raised ValueError
       | Some i_now =>
           if decide (i_now < n_times - 1)%nat then
             a ← item vhs (i_now + 1);
             b ← item vhs i_now;
             mret (a - b)
           else
             a ← item vhs 0;
             b ← item vhs i_now;
             mret (a + 24 - b)
       end);
  reference_time.increment (ref_time self) increment.

(** The loop at the head of [run_if_ready]: the first unfinished object of
    the same name with an earlier reference time, if any. *)
Fixpoint blocked_by (self : task) (tasks : list task) : outcome (option task) :=
  match tasks with
  | [] => Returned None
  | task :: rest =>
      if decide (name task = name self) then
        if decide (state task <> finished) then
          a ← int (of_str (ref_time task));
          b ← int (of_str (ref_time self));
          if a <? b then Returned (Some task) else blocked_by self rest
        else blocked_by self rest
      else blocked_by self rest
  end.

(** The truth value of [dummy_clock_rate]. *)
Definition truthy (rate : option Z) : bool :=
  match rate with
  | Some n => negb (n =? 0)
  | None => false
  end.

Definition str_rate (rate : option Z) : string :=
  match rate with
  | Some n => str n
  | None => "None"
  end.

Definition dummy_command (self : task) (rate : option Z) : string :=
  "./task_dummy.py " +:+ name self +:+ " " +:+ ref_time self +:+ " "
    +:+ str_rate rate +:+ " &".

(** [task_base.run_external_dummy] *)
Definition task_base_run_external_dummy (self : task) (rate : option Z)
    (w : world) : after unit :=
  let w := log INFO self ("launching external dummy for " +:+ ref_time self) w in
  let w := emit (System (dummy_command self rate)) w in
  After (with_state self running) w (Returned ()).

(** [topnet.fuzzy_file_re] matched against [s]: the pattern is the word
    file, a space, a group of any characters, a space and the word ready,
    anchored at both ends; the result is the text of the group.  The dot
    matches no newline and the dollar also matches before one final
    newline. *)
Definition fuzzy_file_name (s : string) : option string :=
  let body :=
    if endswith s nl then String.substring 0 (String.length s - 1) s else s in
  if startswith body "file " && endswith body " ready"
     && (11 <=? String.length body)%nat && negb (has_newline body)
  then Some (String.substring 5 (String.length body - 11) body)
  else None.

(** [topnet.run_external_dummy]: the file name is taken from the first
    prerequisite. *)
Definition topnet_run_external_dummy (self : task) (rate : option Z)
    (w : world) : after unit :=
  match requisites.get_list (prerequisites self) with
  | [] => After self w (Raised IndexError)
  | prereq :: _ =>
      match fuzzy_file_name prereq with
      | None => After self w (Raised AttributeError)
      | Some file =>
          let w := log INFO self
                     ("launching external dummy for " +:+ ref_time self
                        +:+ " (off " +:+ file +:+ ")") w in
          let w := emit (System (dummy_command self rate)) w in
          After (with_state self running) w (Returned ())
      end
  end.

Definition run_external_dummy (self : task) (rate : option Z) (w : world)
    : after unit :=
  match cls self with
  | topnet => topnet_run_external_dummy self rate w
  | _ => task_base_run_external_dummy self rate w
  end.

(** [task_base.run_external_task]; no class of the file overrides it. *)
Definition run_external_task (self : task) (w : world) : after unit :=
  After self (log CRITICAL self "task base class run() should not be called" w)
    (Returned ()).

(** [task_base.run_if_ready(self, tasks, dummy_clock_rate)] *)
Definition task_base_run_if_ready (self : task) (tasks : list task)
    (dummy_clock_rate : option Z) (w : world) : after unit :=
  match blocked_by self tasks with
  | Returned (Some task) =>
      After self
        (log DEBUG self (identity self +:+ " blocked by " +:+ identity task) w)
        (Returned ())
  | Returned None =>
      match state self with
      | finished => After self w (Returned ())
      | running => After self w (Returned ())
      | waiting =>
          if requisites.all_satisfied (prerequisites self) then
            if truthy dummy_clock_rate
            then run_external_dummy self dummy_clock_rate w
            else run_external_task self w
          else After self w (Returned ())
      end
  | Raised e => After self w (Raised e)
  | Exited n => After self w (Exited n)
  end.

(** The reference times of the finished objects of my class. *)
Definition old_and_finished (self : task) (tasks : list task) : list string :=
  map ref_time
    (filter (fun task => name task = name self /\ state task = finished) tasks).

(** [runahead_task_base.run_if_ready]: don't run if too many previous
    finished instances exist. *)
Definition runahead_task_base_run_if_ready (self : task) (tasks : list task)
    (dummy_clock_rate : option Z) (w : world) : after unit :=
  let delay :=
    if decide (state self = waiting)
    then bool_decide (MAX_FINISHED <= Z.of_nat (length (old_and_finished self tasks)))
    else false in
  if delay then After self w (Returned ())
  else task_base_run_if_ready self tasks dummy_clock_rate w.

Definition run_if_ready (self : task) (tasks : list task)
    (dummy_clock_rate : option Z) (w : world) : after unit :=
  match base_of (cls self) with
  | task_base => task_base_run_if_ready self tasks dummy_clock_rate w
  | runahead_task_base =>
      runahead_task_base_run_if_ready self tasks dummy_clock_rate w
  end.

Definition set_finished (self : task) : task := with_state self finished.

(** [abdicate(self)] *)
Definition abdicate (self : task) : task * bool :=
  if bool_decide (state self = finished) && negb (abdicated self)
  then (with_abdicated self true, true)
  else (self, false).

Definition is_complete (self : task) : bool :=
  requisites.all_satisfied (postrequisites self).

Definition is_running (self : task) : bool :=
  bool_decide (state self = running).

Definition is_finished (self : task) : bool :=
  bool_decide (state self = finished).

Definition get_postrequisites (self : task) : list (string * bool) :=
  requisites.get_requisites (postrequisites self).

Definition get_postrequisite_list (self : task) : list string :=
  requisites.get_list (postrequisites self).

Definition get_latest_message (self : task) : string := latest_message self.

Definition get_valid_hours (self : task) (w : world) : list Z :=
  valid_hours w (cls self).

(** The postrequisites after a message: the one it names is marked. *)
Definition received (post : requisites.t) (message : string) : requisites.t :=
  if requisites.requisite_exists post message
  then requisites.set_satisfied post message
  else post.

(** [task_base.incoming(self, priority, message)] *)
Definition task_base_incoming (self : task) (priority message : string)
    (w : world) : task * world :=
  let w := set_processing_required true w in
  let self := with_latest_message self message in
  let w :=
    if decide (state self <> running)
    then log WARNING self ("MESSAGE FROM NON-RUNNING TASK: " +:+ message) w
    else w in
  let w :=
    if requisites.requisite_exists (postrequisites self) message then
      (* an expected postrequisite from a running task *)
      let w :=
        if requisites.is_satisfied (postrequisites self) message
        then log WARNING self ("POSTREQUISITE ALREADY SATISFIED: " +:+ message) w
        else w in
      log INFO self message w
    else
      (* a non-postrequisite message, e.g. progress report *)
      if decide (priority = "NORMAL") then log INFO self message w
      else if decide (priority = "WARNING") then log WARNING self message w
      else if decide (priority = "CRITICAL") then log CRITICAL self message w
      else log WARNING self message w in
  let self := with_postrequisites self (received (postrequisites self) message) in
  if requisites.all_satisfied (postrequisites self)
  then (set_finished self, w)
  else (self, w).

(** Does [s] start with [p] somewhere on its first line? *)
Fixpoint occurs_on_first_line (p s : string) : bool :=
  startswith s p
  || match s with
     | String c r =>
         if decide (c = newline) then false else occurs_on_first_line p r
     | EmptyString => false
     end.

(** The mode patterns of [topnet]: [tag] at the start of the message, then
    any characters of the same line, then ["for " + stamp]; matched with
    [match], for a stamp of decimal digits. *)
Definition mode_match (tag stamp message : string) : bool :=
  startswith message tag
  && occurs_on_first_line ("for " +:+ stamp)
       (slice_from (String.length tag) message).

(** [topnet.incoming]: the base class handles the message, then the
    catchup mode messages are intercepted. *)
Definition topnet_incoming (self : task) (priority message : string)
    (w : world) : task * world :=
  let '(self, w) := task_base_incoming self priority message w in
  if negb (catchup_mode w) && mode_match "CATCHUP:" (mode_stamp self) message
  then (self, log WARNING self "beginning CATCHUP operation"
                (set_catchup_mode true w))
  else if catchup_mode w && mode_match "UPTODATE:" (mode_stamp self) message
  then (self, log INFO self "beginning UPTODATE operation"
                (set_catchup_mode false w))
  else (self, w).

Definition incoming (self : task) (priority message : string) (w : world)
    : task * world :=
  match cls self with
  | topnet => topnet_incoming self priority message w
  | _ => task_base_incoming self priority message w
  end.

Section pool.

Variable fuzzy_matches : string -> string -> bool.

(** [get_satisfaction(self, tasks)] *)
Definition get_satisfaction (self : task) (tasks : list task) : task :=
  with_prerequisites self
    (fold_left
       (fun pre task =>
          requisites.satisfy_me fuzzy_matches pre (postrequisites task))
       tasks (prerequisites self)).

(** [will_get_satisfaction(self, tasks)]: works on a copy. *)
Definition will_get_satisfaction (self : task) (tasks : list task) : bool :=
  requisites.all_satisfied
    (fold_left
       (fun pre task =>
          requisites.will_satisfy_me fuzzy_matches pre (postrequisites task))
       tasks (prerequisites self)).

(** The calls the scheduler makes on a task object. *)
Inductive call : Type :=
| call_get_satisfaction (tasks : list task)
| call_will_get_satisfaction (tasks : list task)
| call_run_if_ready (tasks : list task) (dummy_clock_rate : option Z)
| call_abdicate
| call_incoming (priority message : string)
| call_set_finished
| call_nearest_ref_time (rt : string)
| call_next_ref_time
| call_identity
| call_display
| call_get_state
| call_is_complete
| call_is_running
| call_is_finished
| call_get_latest_message.

(** What a call hands back. *)
Inductive value : Type :=
| VNone
| VBool (b : bool)
| VStr (s : string).

Definition invoke (c : call) (self : task) (w : world) : after value :=
  match c with
  | call_get_satisfaction tasks =>
      After (get_satisfaction self tasks) w (Returned VNone)
  | call_will_get_satisfaction tasks =>
      After self w (Returned (VBool (will_get_satisfaction self tasks)))
  | call_run_if_ready tasks rate =>
      let r := run_if_ready self tasks rate w in
      After (self_of r) (world_of r) ((fun _ => VNone) <$> result_of r)
  | call_abdicate =>
      let '(self, b) := abdicate self in After self w (Returned (VBool b))
  | call_incoming priority message =>
      let '(self, w) := incoming self priority message w in
      After self w (Returned VNone)
  | call_set_finished => After (set_finished self) w (Returned VNone)
  | call_nearest_ref_time rt =>
      let '(w, r) := nearest_ref_time (cls self) rt w in
      After self w (VStr <$> r)
  | call_next_ref_time => After self w (VStr <$> next_ref_time self w)
  | call_identity => After self w (Returned (VStr (identity self)))
  | call_display => After self w (Returned (VStr (display self)))
  | call_get_state => After self w (Returned (VStr (get_state self)))
  | call_is_complete => After self w (Returned (VBool (is_complete self)))
  | call_is_running => After self w (Returned (VBool (is_running self)))
  | call_is_finished => After self w (Returned (VBool (is_finished self)))
  | call_get_latest_message =>
      After self w (Returned (VStr (get_latest_message self)))
  end.

(** A sequence of calls on one object, with what each handed back. *)
Fixpoint invoke_all (cs : list call) (self : task) (w : world)
    : task * world * list (outcome value) :=
  match cs with
  | [] => (self, w, [])
  | c :: rest =>
      let r := invoke c self w in
      let '(self', w', outs) := invoke_all rest (self_of r) (world_of r) in
      (self', w', result_of r :: outs)
  end.

(** How many of the calls [cs], made in this order on [self], were calls
    of [abdicate] that returned [True]. *)
Fixpoint abdications (cs : list call) (self : task) (w : world) : nat :=
  match cs with
  | [] => O
  | c :: rest =>
      let r := invoke c self w in
      (match c, result_of r with
       | call_abdicate, Returned (VBool true) => 1
       | _, _ => 0
       end
       + abdications rest (self_of r) (world_of r))%nat
  end.

(** The task objects the scheduler can hold: an object is initialised on
    top of the fresh postrequisites its class template built, and changes
    through the calls made on it.  [set_finished] is the step [incoming]
    takes; the scheduler does not call it by itself. *)
Inductive reachable : task -> Prop :=
| reachable_init (self : task) (initial_state : option string) (w : world) :
    requisites.fresh (postrequisites self) ->
    result_of (init self initial_state w) = Returned () ->
    reachable (self_of (init self initial_state w))
| reachable_call (self : task) (c : call) (w : world) :
    reachable self ->
    c <> call_set_finished ->
    reachable (self_of (invoke c self w)).

End pool.

(** The object [incoming] leaves behind, read off its body: the message
    is recorded, the postrequisite it names is marked, and the object is
    finished when nothing is left to satisfy. *)
Definition incoming_object (self : task) (message : string) : task :=
  let post := received (postrequisites self) message in
  let self' := with_postrequisites (with_latest_message self message) post in
  if requisites.all_satisfied post then set_finished self' else self'.

(** The warning a receiver that is not running adds to the log. *)
Definition not_running_warning (self : task) (s : task_state)
    (message : string) : list event :=
  if decide (s = running) then []
  else [Log WARNING ("main." +:+ name self)
          ("MESSAGE FROM NON-RUNNING TASK: " +:+ message)].

(** What [task_base.incoming] logs after that warning. *)
Definition incoming_report (self : task) (priority message : string)
    : list event :=
  let logger := "main." +:+ name self in
  if requisites.requisite_exists (postrequisites self) message then
    (if requisites.is_satisfied (postrequisites self) message
     then [Log WARNING logger ("POSTREQUISITE ALREADY SATISFIED: " +:+ message)]
     else [])
    ++ [Log INFO logger message]
  else if decide (priority = "NORMAL") then [Log INFO logger message]
  else if decide (priority = "WARNING") then [Log WARNING logger message]
  else if decide (priority = "CRITICAL") then [Log CRITICAL logger message]
  else [Log WARNING logger message].

(** What [topnet.incoming] adds to the log, and the catchup mode it
    leaves. *)
Definition mode_report (self : task) (message : string) (mode : bool)
    : list event * bool :=
  match cls self with
  | topnet =>
      if negb mode && mode_match "CATCHUP:" (mode_stamp self) message
      then ([Log WARNING ("main." +:+ name self) "beginning CATCHUP operation"],
            true)
      else if mode && mode_match "UPTODATE:" (mode_stamp self) message
      then ([Log INFO ("main." +:+ name self) "beginning UPTODATE operation"],
            false)
      else ([], mode)
  | _ => ([], mode)
  end.

(** [state = finished] iff [postrequisites.all_satisfied()] *)
Definition consistent (self : task) : Prop :=
  state self = finished
  <-> requisites.all_satisfied (postrequisites self) = true.

(** [abdicated] implies [state = finished] *)
Definition abdicated_finished (self : task) : Prop :=
  abdicated self = true -> state self = finished.

(** The initial states [__init__] accepts. *)
Definition accepted (initial_state : option string) : Prop :=
  match initial_state with
  | None => True
  | Some s => s = "" \/ s = "waiting" \/ s = "ready" \/ s = "finished"
  end.

(** The number of finished objects of the class of [self] in the pool. *)
Definition finished_count (self : task) (tasks : list task) : Z :=
  Z.of_nat
    (length
       (filter (fun task => name task = name self /\ state task = finished)
          tasks)).

(** What is left of a class's [valid_hours] after [k] calls of
    [nearest_ref_time]. *)
Definition grown_valid_hours (c : task_class) (k : nat) : list Z :=
  declared_valid_hours c
    ++ replicate k (24 + default 0 (head (declared_valid_hours c))).

(** The shared states in which every class list is the declared one,
    grown by earlier calls. *)
Definition hours_grown (w : world) : Prop :=
  forall c, exists k, valid_hours w c = grown_valid_hours c k.

(** A [downloader] object as its own [__init__] leaves it, before the
    base class is initialised. *)
Definition sample_downloader (rt : string) : task :=
  {| cls := downloader;
     ref_time := rt;
     state := waiting;
     prerequisites := requisites.make requisites.exact "downloader" [];
     postrequisites :=
       requisites.make requisites.timed "downloader"
         ["downloader started for " +:+ rt;
          "downloader finished for " +:+ rt];
     latest_message := "";
     abdicated := false;
     mode_stamp := "" |}.

(** A [topnet] object whose prerequisite has been sharpened and
    satisfied. *)
Definition sample_topnet (rt : string) : task :=
  {| cls := topnet;
     ref_time := rt;
     state := waiting;
     prerequisites :=
       requisites.set_all_satisfied
         (requisites.make requisites.fuzzy "topnet"
            ["file tn_2010123118.nc ready"]);
     postrequisites :=
       requisites.make requisites.timed "topnet"
         ["topnet started for " +:+ rt; "topnet finished for " +:+ rt];
     latest_message := "";
     abdicated := false;
     mode_stamp := rt |}.

Definition sample_nzlam (rt : string) (s : task_state) : task :=
  {| cls := nzlam;
     ref_time := rt;
     state := s;
     prerequisites :=
       requisites.make requisites.exact "nzlam"
         ["file obstore_" +:+ rt +:+ ".um ready"];
     postrequisites :=
       requisites.make requisites.timed "nzlam"
         ["nzlam started for " +:+ rt; "nzlam finished for " +:+ rt];
     latest_message := "";
     abdicated := false;
     mode_stamp := "" |}.

(** *** The class templates *)

(** The tokens a class's [__init__] builds its postrequisites from, at
    reference time [ref_time]; [lbc_06] and [lbc_12] are the times 6 and 12
    hours earlier.  [None] when no branch of the class assigns the
    attribute.  The minute offsets of the timed requisites are left out. *)
Definition class_postrequisites (c : task_class)
    (ref_time lbc_06 lbc_12 : string) : option (list string) :=
  let name := class_name c in
  let hour := slice 8 10 ref_time in
  match c with
  | downloader =>
      let assigned :=
        if decide (hour = "00") then
          Some [name +:+ " started for " +:+ ref_time;
                "file obstore_" +:+ ref_time +:+ ".um ready";
                "file bgerr" +:+ ref_time +:+ ".um ready";
                "file lbc_" +:+ lbc_12 +:+ ".um ready";
                "file 10mwind_" +:+ ref_time +:+ ".um ready";
                "file seaice_" +:+ ref_time +:+ ".um ready";
                "file dump_" +:+ ref_time +:+ ".um ready";
                name +:+ " finished for " +:+ ref_time]
        else if decide (hour = "12") then
          Some [name +:+ " started for " +:+ ref_time;
                "file obstore_" +:+ ref_time +:+ ".um ready";
                "file bgerr" +:+ ref_time +:+ ".um ready";
                "file lbc_" +:+ lbc_12 +:+ ".um ready";
                name +:+ " finished for " +:+ ref_time]
        else None in
      if decide (hour = "06" \/ hour = "18") then
        Some [name +:+ " started for " +:+ ref_time;
              "file lbc_" +:+ lbc_06 +:+ ".um ready";
              "file obstore_" +:+ ref_time +:+ ".um ready";
              "file bgerr" +:+ ref_time +:+ ".um ready";
              name +:+ " finished for " +:+ ref_time]
      else assigned
  | oper_to_topnet =>
      Some [name +:+ " started for " +:+ ref_time;
            "file tn_" +:+ ref_time +:+ ".nc ready";
            name +:+ " finished for " +:+ ref_time]
  | nzlam =>
      if decide (hour = "00" \/ hour = "12") then
        Some [name +:+ " started for " +:+ ref_time;
              "file sls_" +:+ ref_time +:+ ".um ready";
              name +:+ " finished for " +:+ ref_time]
      else if decide (hour = "06" \/ hour = "18") then
        Some [name +:+ " started for " +:+ ref_time;
              "file tn_" +:+ ref_time +:+ ".um ready";
              "file sls_" +:+ ref_time +:+ ".um ready";
              "file met_" +:+ ref_time +:+ ".um ready";
              name +:+ " finished for " +:+ ref_time]
      else None
  | nzlam_post =>
      if decide (hour = "00" \/ hour = "12") then
        Some [name +:+ " started for " +:+ ref_time;
              "file sls_" +:+ ref_time +:+ ".nc ready";
              name +:+ " finished for " +:+ ref_time]
      else if decide (hour = "06" \/ hour = "18") then
        Some [name +:+ " started for " +:+ ref_time;
              "file sls_" +:+ ref_time +:+ ".nc ready";
              "file tn_" +:+ ref_time +:+ ".nc ready";
              "file met_" +:+ ref_time +:+ ".nc ready";
              name +:+ " finished for " +:+ ref_time]
      else None
  | globalprep =>
      Some [name +:+ " started for " +:+ ref_time;
            "file 10mwind_" +:+ ref_time +:+ ".nc ready";
            "file seaice_" +:+ ref_time +:+ ".nc ready";
            name +:+ " finished for " +:+ ref_time]
  | globalwave =>
      Some [name +:+ " started for " +:+ ref_time;
            "file globalwave_" +:+ ref_time +:+ ".nc ready";
            name +:+ " finished for " +:+ ref_time]
  | nzwave =>
      Some [name +:+ " started for " +:+ ref_time;
            "file nzwave_" +:+ ref_time +:+ ".nc ready";
            name +:+ " finished for " +:+ ref_time]
  | ricom =>
      Some [name +:+ " started for " +:+ ref_time;
            "file ricom_" +:+ ref_time +:+ ".nc ready";
            name +:+ " finished for " +:+ ref_time]
  | mos =>
      Some [name +:+ " started for " +:+ ref_time;
            "file mos_" +:+ ref_time +:+ ".nc ready";
            name +:+ " finished for " +:+ ref_time]
  | nztide =>
      Some [name +:+ " started for " +:+ ref_time;
            "file nztide_" +:+ ref_time +:+ ".nc ready";
            name +:+ " finished for " +:+ ref_time]
  | topnet =>
      Some ["streamflow extraction started for " +:+ ref_time;
            "got streamflow data for " +:+ ref_time;
            "streamflow extraction finished for " +:+ ref_time;
            name +:+ " started for " +:+ ref_time;
            "file topnet_" +:+ ref_time +:+ ".nc ready";
            name +:+ " finished for " +:+ ref_time]
  | nwpglobal =>
      Some [name +:+ " started for " +:+ ref_time;
            "file 10mwind_" +:+ ref_time +:+ ".nc ready";
            name +:+ " finished for " +:+ ref_time]
  end.

(** The tokens of the prerequisites; [nzlam_cutoff] is the time [topnet]
    looks back to. *)
Definition class_prerequisites (c : task_class)
    (ref_time lbc_06 lbc_12 nzlam_cutoff : string) : option (list string) :=
  let hour := slice 8 10 ref_time in
  match c with
  | downloader | oper_to_topnet | nztide =>
      (* no prerequisites: this is The Initial Task *)
      Some []
  | nzlam =>
      if decide (hour = "00" \/ hour = "12") then
        Some ["file obstore_" +:+ ref_time +:+ ".um ready";
              "file bgerr" +:+ ref_time +:+ ".um ready";
              "file lbc_" +:+ lbc_12 +:+ ".um ready"]
      else if decide (hour = "06" \/ hour = "18") then
        Some ["file obstore_" +:+ ref_time +:+ ".um ready";
              "file bgerr" +:+ ref_time +:+ ".um ready";
              "file lbc_" +:+ lbc_06 +:+ ".um ready"]
      else None
  | nzlam_post =>
      if decide (hour = "00" \/ hour = "12") then
        Some ["file sls_" +:+ ref_time +:+ ".um ready"]
      else if decide (hour = "06" \/ hour = "18") then
        Some ["file tn_" +:+ ref_time +:+ ".um ready";
              "file sls_" +:+ ref_time +:+ ".um ready";
              "file met_" +:+ ref_time +:+ ".um ready"]
      else None
  | globalprep =>
      Some ["file 10mwind_" +:+ ref_time +:+ ".um ready";
            "file seaice_" +:+ ref_time +:+ ".um ready"]
  | globalwave =>
      Some ["file 10mwind_" +:+ ref_time +:+ ".nc ready";
            "file seaice_" +:+ ref_time +:+ ".nc ready"]
  | nzwave | ricom =>
      Some ["file sls_" +:+ ref_time +:+ ".nc ready"]
  | mos =>
      if decide (hour = "06" \/ hour = "18") then
        Some ["file met_" +:+ ref_time +:+ ".nc ready"]
      else Some []
  | topnet =>
      Some ["file tn_" +:+ nzlam_cutoff +:+ ".nc ready"]
  | nwpglobal =>
      Some ["file 10mwind_" +:+ ref_time +:+ ".um ready"]
  end.

(** The kind of set the prerequisites are: [fuzzy_requisites] for
    [topnet], [requisites] for the others. *)
Definition prerequisite_kind (c : task_class) : requisites.variant :=
  match c with
  | topnet => requisites.fuzzy
  | _ => requisites.exact
  end.

(** The attributes a class's [__init__] has assigned when it calls the
    initialiser of its base class. *)
Record draft : Type := {
  draft_prerequisites : option requisites.t;
  draft_postrequisites : option requisites.t
}.

Definition make_draft (c : task_class)
    (ref_time lbc_06 lbc_12 nzlam_cutoff : string) : draft :=
  {| draft_prerequisites :=
       requisites.make (prerequisite_kind c) (class_name c)
         <$> class_prerequisites c ref_time lbc_06 lbc_12 nzlam_cutoff;
     draft_postrequisites :=
       requisites.make requisites.timed (class_name c)
         <$> class_postrequisites c ref_time lbc_06 lbc_12 |}.

(** The times a class computes with [reference_time.decrement] on the way:
    [downloader] and [nzlam] both of [lbc_06] and [lbc_12], whatever the
    hour; [topnet] its cutoff, 11 hours back in catchup mode and 23
    otherwise. *)
Definition requisites_of (c : task_class) (ref_time : string) (w : world)
    : outcome draft :=
  match c with
  | downloader | nzlam =>
      lbc_06 ← reference_time.decrement ref_time 6;
      lbc_12 ← reference_time.decrement ref_time 12;
      mret (make_draft c ref_time lbc_06 lbc_12 "")
  | topnet =>
      nzlam_cutoff ←
        reference_time.decrement ref_time (if catchup_mode w then 11 else 23);
      mret (make_draft c ref_time "" "" nzlam_cutoff)
  | _ => mret (make_draft c ref_time "" "" "")
  end.

(** How the construction of an object ends: the initialiser of the base
    class ran on an object that has its requisites; or the class left an
    attribute unassigned, and what becomes of such an object is not
    modelled; or an exception or an exit came first. *)
Inductive construction : Type :=
| Built (r : after unit)
| Lacking (d : draft) (w : world)
| Raised_early (e : exn) (w : world)
| Exited_early (status : Z) (w : world).

(** [c(ref_time, initial_state)]: the reference time is adjusted to the
    next valid one, the requisites are built for it, and the base class is
    initialised.  The two mode patterns of [topnet] are compiled with the
    reference time as given. *)
Definition new (c : task_class) (ref_time : string)
    (initial_state : option string) (w : world) : construction :=
  let '(w, r) := nearest_ref_time c ref_time w in
  match r with
  | Returned adjusted =>
      match requisites_of c adjusted w with
      | Returned d =>
          match draft_prerequisites d, draft_postrequisites d with
          | Some pre, Some post =>
              Built
                (init
                   {| cls := c;
                      ref_time := adjusted;
                      state := waiting;
                      prerequisites := pre;
                      postrequisites := post;
                      latest_message := "";
                      abdicated := false;
                      mode_stamp :=
                        match c with topnet => ref_time | _ => "" end |}
                   initial_state w)
          | _, _ => Lacking d w
          end
      | Raised e => Raised_early e w
      | Exited n => Exited_early n w
      end
  | Raised e => Raised_early e w
  | Exited n => Exited_early n w
  end.

(** The classes that run at the hour [h] of the day. *)
Definition runs_at (c : task_class) (h : Z) : Prop :=
  h ∈ declared_valid_hours c.

(** The object [downloader("2011010103")] as the constructor hands it out:
    its reference time is moved on to 06. *)
Definition sample_built : after unit :=
  match new downloader "2011010103" None initial_world with
  | Built r => r
  | _ => After (sample_downloader "") initial_world (Raised TypeError)
  end.

(** The scheduler hands the messages of a job, each with its priority, to
    [incoming], one after the other. *)
Definition incoming_all (messages : list (string * string)) (self : task)
    (w : world) : task * world :=
  fold_left (fun sw pm => incoming sw.1 pm.1 pm.2 sw.2) messages (self, w).

End tasks.

(** ** dev/bin/scaling-gen.py *)

Module scaling_gen.

Import Py.

(** [range(start, stop, step)] for a positive [step]. *)
Definition range (start stop step : Z) : list Z :=
  (fun k => start + step * k) <$> seqZ 0 ((stop - start + step - 1) / step).

(** What the script does to the outside, in order. *)
Inductive effect : Type :=
| print (line : string)
| system (command : string)
| mkdir_p (dir : string)
| write_file (path content : string).

(** How the script ends: it runs to its end, calls [sys.exit], or an
    exception of the file system leaves it. *)
Inductive ending : Type :=
| Finished
| Exit (status : Z)
| Uncaught.




(** The names written after [sequential =]. *)
Definition sequential (n : Z) : list string :=
  (fun i => "T" +:+ str i +:+ ", ") <$> range 1 (n + 1) 1.

(** The two dependencies each turn of the last loop writes, as pairs of a
    task number and the number of a task that follows it. *)
Definition edges (n : Z) : list (Z * Z) :=
  range 2 (n + 1) 2 ≫= fun i => [(i / 2, i); (i / 2, i + 1)].




(** The numbers of the tasks that follow another one in the graph. *)
Definition followers (n : Z) : list Z := (edges n).*2.

End scaling_gen.

(** * Properties *)

(** ** Python builtins *)

Module Py_facts.

Import Py.

Lemma lstrip_no_space s : no_space s = true -> lstrip s = s.
Proof.
  destruct s as [|c r]; simpl; [done|].
  intros [Hc _]%andb_true_iff. by destruct (Ascii.is_space c).
Qed.

Lemma rstrip_no_space s : no_space s = true -> rstrip s = s.
Proof.
  induction s as [|c r IH]; simpl; [done|].
  intros [Hc Hr]%andb_true_iff. rewrite (IH Hr).
  destruct r; [|done]. by destruct (Ascii.is_space c).
Qed.

Lemma strip_no_space s : no_space s = true -> strip s = s.
Proof.
  intros H. unfold strip. rewrite (lstrip_no_space _ H).
  by apply rstrip_no_space.
Qed.

Lemma digit_not_space c n : Ascii.is_nat c = Some n -> Ascii.is_space c = false.
Proof.
  destruct c as [[] [] [] [] [] [] [] []]; simpl; congruence.
Qed.

Lemma all_digits_no_space s : all_digits s = true -> no_space s = true.
Proof.
  induction s as [|c r IH]; simpl; [done|].
  destruct (Ascii.is_nat c) eqn:E; [|done].
  intros H. by rewrite (digit_not_space _ _ E), IH.
Qed.

Lemma string_of_uint_all_digits d :
  all_digits (NilEmpty.string_of_uint d) = true.
Proof. induction d; simpl; done. Qed.

Lemma digit_not_sign c n :
  Ascii.is_nat c = Some n -> c <> "+"%char /\ c <> "-"%char.
Proof.
  intros H. split; intros ->; simpl in H; discriminate.
Qed.

Lemma int_of_str_digits d :
  d <> Decimal.Nil ->
  int_of_str (NilEmpty.string_of_uint d) = Some (Z.of_uint d).
Proof.
  intros Hd. unfold int_of_str.
  rewrite strip_no_space
    by apply all_digits_no_space, string_of_uint_all_digits.
  pose proof (string_of_uint_all_digits d) as Hall.
  pose proof (NilEmpty.usu d) as Hu.
  destruct (NilEmpty.string_of_uint d) as [|c r] eqn:E.
  { destruct d; simpl in E; congruence. }
  simpl in Hall. destruct (Ascii.is_nat c) eqn:Hc; [|done].
  destruct (digit_not_sign _ _ Hc) as [Hp Hm].
  rewrite !decide_False by done.
  unfold NilZero.uint_of_string. by rewrite Hu.
Qed.

Lemma int_of_str_str z : int_of_str (str z) = Some z.
Proof.
  destruct z as [|p|p]; [done| |].
  - unfold str. simpl.
    pose proof (DecimalPos.Unsigned.to_uint_nonnil p) as Hn.
    replace (NilZero.string_of_uint (Pos.to_uint p))
      with (NilEmpty.string_of_uint (Pos.to_uint p))
      by (by destruct (Pos.to_uint p)).
    rewrite int_of_str_digits by done.
    unfold Z.of_uint. by rewrite DecimalPos.Unsigned.of_to.
  - unfold str. simpl.
    pose proof (DecimalPos.Unsigned.to_uint_nonnil p) as Hn.
    replace (NilZero.string_of_uint (Pos.to_uint p))
      with (NilEmpty.string_of_uint (Pos.to_uint p))
      by (by destruct (Pos.to_uint p)).
    unfold int_of_str.
    assert (no_space (String "-" (NilEmpty.string_of_uint (Pos.to_uint p))) = true) as Hs.
    { simpl. apply all_digits_no_space, string_of_uint_all_digits. }
    rewrite (strip_no_space _ Hs).
    rewrite decide_False by done. rewrite decide_True by done.
    unfold NilZero.uint_of_string.
    pose proof (NilEmpty.usu (Pos.to_uint p)) as Hu.
    destruct (NilEmpty.string_of_uint (Pos.to_uint p)) eqn:E.
    { destruct (Pos.to_uint p); simpl in E; congruence. }
    rewrite Hu. simpl. unfold Z.of_uint. by rewrite DecimalPos.Unsigned.of_to.
Qed.


Lemma bind_returned {A B} (a : A) (k : A -> outcome B) :
  mbind k (Returned a) = k a.
Proof. reflexivity. Qed.

Lemma int_str z : int (of_str (str z)) = Returned z.
Proof. unfold int. by rewrite int_of_str_str. Qed.

End Py_facts.

(** ** The async cycler *)

Module async_facts.

Import Py Py_facts.

Lemma next_int tag n :
  int_of_str tag = Some n -> async.next tag = Returned (str (n + 1)).
Proof. intros H. unfold async.next, int. by rewrite H. Qed.

Lemma offset_int tag n k :
  int_of_str tag = Some n ->
  async.offset tag (of_int k) = Returned (str (n - k)).
Proof. intros H. unfold async.offset, int. by rewrite H. Qed.

(** C10, as amended.  For a tag that [int] reads as [n]: [next] gives the
    decimal string of [n + 1]; [offset] of that by 1 gives the decimal
    string of [n], which is the tag itself when the tag is written in the
    canonical way ([str n]); [valid] holds and [initial_adjust_up] gives
    the tag back. *)
Theorem async_next_offset (tag : string) (n : Z) :
  int_of_str tag = Some n ->
  async.next tag = Returned (str (n + 1))
  /\ (t ← async.next tag; async.offset t (of_int 1)) = Returned (str n)
  /\ (tag = str n ->
      (t ← async.next tag; async.offset t (of_int 1)) = Returned tag)
  /\ async.valid tag = true
  /\ async.initial_adjust_up tag = tag.
Proof.
  intros H.
  assert ((t ← async.next tag; async.offset t (of_int 1)) = Returned (str n))
    as Hround.
  { rewrite (next_int _ _ H). change (async.offset (str (n + 1)) (of_int 1)
      = Returned (str n)).
    rewrite (offset_int _ (n + 1) 1) by apply int_of_str_str.
    do 2 f_equal. lia. }
  split; [by apply next_int|].
  split; [done|].
  split; [|done].
  intros ->. by rewrite Hround.
Qed.

Lemma async_next_offset_witness :
  int_of_str "41" = Some 41
  /\ async.next "41" = Returned "42"
  /\ (t ← async.next "41"; async.offset t (of_int 1)) = Returned "41".
Proof.
  split; [reflexivity|].
  destruct (async_next_offset "41" 41 eq_refl) as (Hn & _ & Hr & _).
  split; [exact Hn | exact (Hr eq_refl)].
Defined.

(** C10 as stated fails on a tag with a leading zero: the round trip
    through [next] and [offset] gives the canonical string back, not the
    tag. *)
Lemma async_roundtrip_leading_zero :
  int_of_str "007" = Some 7
  /\ async.next "007" = Returned "8"
  /\ (t ← async.next "007"; async.offset t (of_int 1)) = Returned "7"
  /\ (t ← async.next "007"; async.offset t (of_int 1)) <> Returned "007".
Proof. repeat split; try reflexivity. intros H. vm_compute in H. discriminate H. Qed.

(** X16.  Offsets add up, whatever the tag: going back by [a] and then by
    [b] is going back by [a + b], also in how it fails on a tag that is
    not an integer; and [next] is the offset by [-1]. *)
Theorem async_offset_additive (tag : string) (a b : Z) :
  (t ← async.offset tag (of_int a); async.offset t (of_int b))
  = async.offset tag (of_int (a + b))
  /\ async.next tag = async.offset tag (of_int (-1)).
Proof.
  unfold async.offset, async.next, int.
  destruct (int_of_str tag) as [n|] eqn:E; [|done].
  split.
  - change ((t ← Returned (str (n - a));
             match int_of_str t with
             | Some n0 => Returned n0
             | None => Raised ValueError
             end ≫= fun t0 => Returned (str (t0 - b)))
            = Returned (str (n - (a + b)))).
    rewrite bind_returned, int_of_str_str. 
    change (Returned (str (n - a - b)) = Returned (str (n - (a + b)))).
    by replace (n - a - b) with (n - (a + b)) by lia.
  - change (Returned (str (n + 1)) = Returned (str (n - -1))).
    by replace (n - -1) with (n + 1) by lia.
Qed.

End async_facts.

(** ** The job status file *)

Module task_message_facts.

Import Py task_message.

Lemma append_cons c (a b : string) : String c a +:+ b = String c (a +:+ b).
Proof. reflexivity. Qed.

Lemma append_nil_l (s : string) : "" +:+ s = s.
Proof. reflexivity. Qed.

Lemma append_nil_r s : s +:+ "" = s.
Proof. induction s as [|c r IH]; [done|]. by rewrite append_cons, IH. Qed.

Lemma append_assoc (a b c : string) : (a +:+ b) +:+ c = a +:+ (b +:+ c).
Proof. induction a as [|x r IH]; [done|]. by rewrite !append_cons, IH. Qed.

Lemma has_newline_append (a b : string) :
  has_newline (a +:+ b) = has_newline a || has_newline b.
Proof.
  induction a as [|c a IH]; [done|].
  rewrite append_cons. simpl. by rewrite IH, orb_assoc.
Qed.


Lemma startswith_split s p :
  startswith s p = true -> exists r, s = p +:+ r.
Proof.
  unfold startswith. revert s.
  induction p as [|a p IH]; intros s; [by exists s|].
  destruct s as [|b s]; simpl; [done|].
  destruct (ascii_dec a b) as [->|]; [|done].
  intros [r ->]%IH. by exists r.
Qed.

Lemma vacation_not_fail r :
  startswith (VACATION_MESSAGE_PREFIX +:+ r) FAIL_MESSAGE_PREFIX = false.
Proof. reflexivity. Qed.

Lemma startswith_app p r : startswith (p +:+ r) p = true.
Proof.
  unfold startswith. induction p as [|a p IH].
  - by destruct r.
  - rewrite append_cons. simpl. by destruct (ascii_dec a a).
Qed.

Lemma vacation_self r :
  startswith (VACATION_MESSAGE_PREFIX +:+ r) VACATION_MESSAGE_PREFIX = true.
Proof. apply startswith_app. Qed.

Lemma vacation_not_abort r :
  startswith (VACATION_MESSAGE_PREFIX +:+ r) ABORT_MESSAGE_PREFIX = false.
Proof. reflexivity. Qed.


Lemma readlines_complete_app l rest :
  complete l -> readlines (l +:+ rest) = l :: readlines rest.
Proof.
  intros (body & -> & Hb). induction body as [|c body IH].
  - change (readlines (String newline rest) = nl :: readlines rest).
    reflexivity.
  - simpl in Hb. apply orb_false_iff in Hb as [Hc Hb].
    apply bool_decide_eq_false in Hc.
    rewrite !append_cons. simpl. rewrite decide_False by done.
    by rewrite (IH Hb).
Qed.

Lemma readlines_concat_complete ls rest :
  Forall complete ls -> readlines (concat ls +:+ rest) = ls ++ readlines rest.
Proof.
  induction 1 as [|l ls Hl _ IH]; [done|].
  unfold concat in *. simpl. rewrite append_assoc.
  rewrite (readlines_complete_app _ _ Hl). by rewrite IH.
Qed.

Lemma readlines_terminated s :
  terminated s = true -> Forall complete (readlines s).
Proof.
  induction s as [|c r IH]; [constructor|].
  intros H. simpl.
  destruct (decide (c = newline)) as [->|Hc].
  - constructor.
    + exists "". by rewrite append_nil_l.
    + apply IH. destruct r; [done|]. exact H.
  - destruct r as [|c' r'].
    { simpl in H. by apply bool_decide_eq_true in H. }
    specialize (IH H).
    destruct (readlines (String c' r')) as [|l ls] eqn:E.
    { simpl in E. destruct (decide (c' = newline)); [done|].
      by destruct (readlines r'). }
    inversion IH as [|? ? (body & -> & Hb) Hls]; subst.
    constructor; [|done].
    exists (String c body). split; [done|].
    simpl. rewrite Hb. by rewrite bool_decide_eq_false_2.
Qed.

Section update_job_status_file.

Variables TASK_OUTPUT_STARTED TASK_OUTPUT_SUCCEEDED : string.

Local Abbreviation write_message :=
  (write_message TASK_OUTPUT_STARTED TASK_OUTPUT_SUCCEEDED).
Local Abbreviation _update_job_status_file :=
  (_update_job_status_file TASK_OUTPUT_STARTED TASK_OUTPUT_SUCCEEDED).

Lemma write_message_vacation self job_id content message :
  startswith message VACATION_MESSAGE_PREFIX = true ->
  message <> TASK_OUTPUT_STARTED ->
  message <> TASK_OUTPUT_SUCCEEDED ->
  write_message self job_id content message
  = concat (filter (fun line => kept line = true) (readlines content))
      +:+ message_record self message.
Proof.
  intros [r ->]%startswith_split H1 H2. unfold task_message.write_message.
  rewrite !decide_False by done.
  by rewrite vacation_not_fail, vacation_not_abort, vacation_self.
Qed.

Lemma content_after self messages os root :
  environ os !! "CYLC_TASK_LOG_ROOT" = Some root ->
  root <> "" ->
  root +:+ ".status" ∉ denied os ->
  content_of (_update_job_status_file self messages os) (root +:+ ".status")
  = fold_left (write_message self (ppid os)) messages
      (content_of os (root +:+ ".status")).
Proof.
  intros Henv Hroot Hden. unfold task_message._update_job_status_file.
  rewrite Henv. rewrite !decide_False by done.
  unfold content_of at 1. simpl. by rewrite lookup_insert_eq.
Qed.

(** C9.  A message that starts with the vacation prefix rewrites the job
    status file: the new content is the earlier lines that do not start
    with [CYLC_JOB_], in their order, followed by the [CYLC_MESSAGE]
    record of the message; no such line is dropped; and when the earlier
    content ended with a newline (or was empty) the lines of the new file
    are exactly the kept lines followed by the record.  [earlier] are the
    messages handled before it in the same call. *)
Theorem vacation_rewrite (self : TaskMessage) (os : os_state)
    (root : string) (earlier : list string) (message : string) :
  environ os !! "CYLC_TASK_LOG_ROOT" = Some root ->
  root <> "" ->
  root +:+ ".status" ∉ denied os ->
  startswith message VACATION_MESSAGE_PREFIX = true ->
  message <> TASK_OUTPUT_STARTED ->
  message <> TASK_OUTPUT_SUCCEEDED ->
  let path := root +:+ ".status" in
  let before := content_of (_update_job_status_file self earlier os) path in
  let after :=
    content_of (_update_job_status_file self (earlier ++ [message]) os) path in
  let kept_lines := filter (fun line => kept line = true) (readlines before) in
  after = concat kept_lines +:+ message_record self message
  /\ (forall line, line ∈ readlines before ->
        startswith line "CYLC_JOB_" = false -> line ∈ kept_lines)
  /\ (terminated before = true ->
      readlines after = kept_lines ++ readlines (message_record self message)).
Proof.
  intros Henv Hroot Hden Hvac H1 H2 path before after kept_lines.
  assert (after = concat kept_lines +:+ message_record self message) as Hafter.
  { subst after before kept_lines path.
    rewrite !content_after by done.
    rewrite fold_left_app. simpl.
    by apply write_message_vacation. }
  split; [done|]. split.
  - intros line Hin Hk. apply list_elem_of_filter. split; [|done].
    unfold kept. by rewrite Hk.
  - intros Hterm. rewrite Hafter.
    apply readlines_concat_complete.
    apply readlines_terminated in Hterm.
    rewrite Forall_forall in Hterm |- *.
    intros l [_ Hl]%list_elem_of_filter. by apply Hterm.
Qed.

End update_job_status_file.


Lemma vacation_rewrite_witness :
  content_of
    (_update_job_status_file "started" "succeeded" sample_self
       (["started"] ++ ["Task job script vacated by signal 15"]) sample_os)
    "/run/job.status"
  = "CYLC_MESSAGE=t0|NORMAL|hello" +:+ nl
      +:+ "CYLC_MESSAGE=t1|WARNING|Task job script vacated by signal 15"
      +:+ nl.
Proof.
  refine (eq_trans
    (proj1 (vacation_rewrite "started" "succeeded" sample_self sample_os
              "/run/job" ["started"] "Task job script vacated by signal 15"
              _ _ _ _ _ _)) _).
  - reflexivity.
  - discriminate.
  - apply not_elem_of_empty.
  - reflexivity.
  - discriminate.
  - discriminate.
  - vm_compute. reflexivity.
Defined.

(** ** More on the job status file *)

(** *** Appending *)

Lemma terminated_append (a b : string) :
  terminated b = true -> b <> "" -> terminated (a +:+ b) = true.
Proof.
  intros Hb Hne. induction a as [|c a IH]; [done|].
  rewrite append_cons. simpl. rewrite IH.
  destruct (a +:+ b) eqn:E; [|done].
  destruct a; [|done]. by destruct b.
Qed.

Lemma terminated_nl (a : string) : terminated (a +:+ nl) = true.
Proof. by apply terminated_append. Qed.

Lemma append_nonempty_r (a b : string) : b <> "" -> a +:+ b <> "".
Proof. destruct a; [done|]. by rewrite append_cons. Qed.

Lemma key_value_terminated k v :
  terminated (key_value k v) = true /\ key_value k v <> "".
Proof.
  unfold key_value. rewrite <- !append_assoc. split.
  - apply terminated_nl.
  - by apply append_nonempty_r.
Qed.

Lemma message_record_terminated self m :
  terminated (message_record self m) = true /\ message_record self m <> "".
Proof.
  unfold message_record. rewrite <- !append_assoc. split.
  - apply terminated_nl.
  - by apply append_nonempty_r.
Qed.

Lemma terminated_both (a b : string) :
  terminated a = true -> terminated b = true -> b <> "" ->
  terminated (a +:+ b) = true /\ a +:+ b <> "".
Proof.
  intros _ Hb Hne. split; [by apply terminated_append|].
  by apply append_nonempty_r.
Qed.

(** *** Lines *)








Lemma complete_message_record self m :
  has_newline (true_event_time self) = false ->
  has_newline (severity self) = false ->
  has_newline m = false ->
  complete (message_record self m).
Proof.
  intros Ht Hs Hm.
  exists (CYLC_MESSAGE +:+ "=" +:+ true_event_time self +:+ "|"
            +:+ severity self +:+ "|" +:+ m).
  unfold message_record. rewrite !append_assoc. split; [done|].
  by rewrite !has_newline_append, Ht, Hs, Hm.
Qed.

Lemma readlines_complete l : complete l -> readlines l = [l].
Proof.
  intros H. rewrite <- (append_nil_r l) at 1.
  by rewrite readlines_complete_app.
Qed.




Section status_file.

Variables TASK_OUTPUT_STARTED TASK_OUTPUT_SUCCEEDED : string.

Local Abbreviation write_message :=
  (write_message TASK_OUTPUT_STARTED TASK_OUTPUT_SUCCEEDED).
Local Abbreviation _update_job_status_file :=
  (_update_job_status_file TASK_OUTPUT_STARTED TASK_OUTPUT_SUCCEEDED).

Lemma write_message_appending self job_id content message :
  appending TASK_OUTPUT_STARTED TASK_OUTPUT_SUCCEEDED message ->
  exists added,
    write_message self job_id content message = content +:+ added
    /\ terminated added = true /\ added <> "".
Proof.
  intros H. unfold task_message.write_message.
  pose proof (key_value_terminated CYLC_JOB_INIT_TIME (true_event_time self))
    as [T1 N1].
  pose proof (key_value_terminated CYLC_JOB_EXIT_TIME (true_event_time self))
    as [T2 N2].
  pose proof (message_record_terminated self message) as [T3 N3].
  case_decide.
  { eexists. split; [done|].
    split; [by apply terminated_append | by apply append_nonempty_r]. }
  case_decide.
  { eexists. split; [done|].
    apply terminated_both; [apply key_value_terminated|done..]. }
  case_match.
  { eexists. split; [done|].
    apply terminated_both; [apply key_value_terminated|done..]. }
  case_match.
  { eexists. split; [done|].
    apply terminated_both; [apply key_value_terminated|done..]. }
  case_match eqn:Hv.
  { destruct H as [?|[?|?]]; congruence. }
  eexists. split; [done|]. done.
Qed.

Lemma fold_appending self job_id messages content :
  Forall (appending TASK_OUTPUT_STARTED TASK_OUTPUT_SUCCEEDED) messages ->
  exists added,
    fold_left (write_message self job_id) messages content = content +:+ added
    /\ terminated added = true
    /\ (messages <> [] -> added <> "").
Proof.
  intros H. revert content.
  induction H as [|m ms Hm _ IH]; intros content.
  { exists "". by rewrite append_nil_r. }
  simpl.
  destruct (write_message_appending self job_id content m Hm)
    as (a1 & -> & T1 & N1).
  destruct (IH (content +:+ a1)) as (a2 & -> & T2 & N2).
  exists (a1 +:+ a2). rewrite append_assoc. split; [done|]. split.
  - destruct a2; [by rewrite append_nil_r|]. by apply terminated_append.
  - intros _. destruct a1; [done|]. by rewrite append_cons.
Qed.

(** X12.  Messages other than vacation messages only append to the job
    status file: after a call all of whose messages are of that kind the
    file holds what it held before, followed by new text that ends with
    a newline, and that is not empty when there was a message. *)
Theorem status_file_append_only (self : TaskMessage) (os : os_state)
    (root : string) (messages : list string) :
  environ os !! "CYLC_TASK_LOG_ROOT" = Some root ->
  root <> "" ->
  root +:+ ".status" ∉ denied os ->
  Forall (appending TASK_OUTPUT_STARTED TASK_OUTPUT_SUCCEEDED) messages ->
  exists added,
    content_of (_update_job_status_file self messages os) (root +:+ ".status")
    = content_of os (root +:+ ".status") +:+ added
    /\ terminated added = true
    /\ (messages <> [] -> added <> "").
Proof.
  intros Henv Hroot Hden Hall.
  rewrite (content_after TASK_OUTPUT_STARTED TASK_OUTPUT_SUCCEEDED)
    by done.
  by apply fold_appending.
Qed.

(** X13.  The method touches one file at most, the status file of the
    job: the environment, the set of denied paths, the parent process id
    and every other file are as before; and when [CYLC_TASK_LOG_ROOT] is
    unset or empty, or the status file cannot be opened, nothing changes
    at all. *)
Theorem status_file_frame (self : TaskMessage) (os : os_state)
    (messages : list string) :
  let os' := _update_job_status_file self messages os in
  environ os' = environ os
  /\ denied os' = denied os
  /\ ppid os' = ppid os
  /\ (forall path,
        (forall root, environ os !! "CYLC_TASK_LOG_ROOT" = Some root ->
           path <> root +:+ ".status") ->
        files os' !! path = files os !! path)
  /\ (environ os !! "CYLC_TASK_LOG_ROOT" = None -> os' = os)
  /\ (environ os !! "CYLC_TASK_LOG_ROOT" = Some "" -> os' = os)
  /\ (forall root, environ os !! "CYLC_TASK_LOG_ROOT" = Some root ->
        root +:+ ".status" ∈ denied os -> os' = os).
Proof.
  cbv zeta. unfold task_message._update_job_status_file.
  split; [by repeat case_match|]. split; [by repeat case_match|].
  split; [by repeat case_match|]. split.
  - intros path Hpath.
    destruct (environ os !! "CYLC_TASK_LOG_ROOT") as [root|] eqn:E; [|done].
    repeat case_decide; try done. simpl.
    apply lookup_insert_ne. intros <-. by apply (Hpath root).
  - split; [by intros ->|]. split.
    + intros ->. by rewrite decide_True.
    + intros root -> Hd. case_decide; [done|]. by rewrite decide_True.
Qed.






Lemma terminated_complete l : complete l -> terminated l = true /\ l <> "".
Proof.
  intros (body & -> & _). split; [apply terminated_nl|].
  by destruct body.
Qed.

Lemma terminated_concat ls :
  Forall complete ls -> terminated (concat ls) = true.
Proof.
  unfold concat. induction 1 as [|l ls Hl _ IH]; [done|]. simpl.
  destruct (terminated_complete l Hl) as [T N].
  destruct (foldr String.append "" ls) eqn:E.
  - by rewrite append_nil_r.
  - by apply terminated_append.
Qed.

Lemma write_message_terminated self job_id content message :
  terminated content = true ->
  terminated (write_message self job_id content message) = true.
Proof.
  intros Hc.
  destruct (decide (appending TASK_OUTPUT_STARTED TASK_OUTPUT_SUCCEEDED
                      message)) as [Ha|Hn].
  - destruct (write_message_appending self job_id content message Ha)
      as (added & -> & T & N).
    destruct added; [done|]. by apply terminated_append.
  - assert (startswith message VACATION_MESSAGE_PREFIX = true
            /\ message <> TASK_OUTPUT_STARTED
            /\ message <> TASK_OUTPUT_SUCCEEDED) as (Hv & H1 & H2).
    { unfold appending in Hn.
      destruct (startswith message VACATION_MESSAGE_PREFIX); [|tauto].
      split; [done|]. split; intros ->; tauto. }
    rewrite write_message_vacation by done.
    destruct (message_record_terminated self message) as [T N].
    destruct (message_record self message) eqn:E; [done|].
    by apply terminated_append.
Qed.

(** X15.  The status file stays a sequence of whole lines: a file that
    ends with a newline (or is empty, or does not exist) before the call
    ends with a newline after it, whatever the messages are. *)
Theorem status_file_stays_terminated (self : TaskMessage) (os : os_state)
    (messages : list string) (path : string) :
  terminated (content_of os path) = true ->
  terminated (content_of (_update_job_status_file self messages os) path)
  = true.
Proof.
  intros Hterm. unfold task_message._update_job_status_file.
  destruct (environ os !! "CYLC_TASK_LOG_ROOT") as [root|]; [|done].
  repeat case_decide; try done.
  unfold content_of at 1. simpl.
  destruct (decide (path = root +:+ ".status")) as [->|Hne].
  - rewrite lookup_insert_eq. simpl.
    generalize dependent (content_of os (root +:+ ".status")).
    induction messages as [|m ms IH]; intros c Hc; [done|].
    simpl. apply IH. by apply write_message_terminated.
  - by rewrite lookup_insert_ne.
Qed.

End status_file.

Lemma status_file_append_only_witness :
  exists added,
    content_of
      (_update_job_status_file "started" "succeeded" sample_self
         ["started"; "half way"; "succeeded"] sample_os) "/run/job.status"
    = content_of sample_os "/run/job.status" +:+ added
    /\ terminated added = true /\ added <> "".
Proof.
  destruct (status_file_append_only "started" "succeeded" sample_self
              sample_os "/run/job"
              ["started"; "half way"; "succeeded"]) as (added & H1 & H2 & H3).
  - reflexivity.
  - discriminate.
  - apply not_elem_of_empty.
  - constructor; [left; reflexivity|].
    constructor; [right; right; reflexivity|].
    constructor; [right; left; reflexivity|]. constructor.
  - exists added. split; [exact H1|]. split; [exact H2|]. by apply H3.
Defined.


Lemma status_file_stays_terminated_witness :
  terminated
    (content_of
       (_update_job_status_file "started" "succeeded" sample_self
          ["started"; "Task job script vacated by signal 15"; "bye"]
          sample_os) "/run/job.status") = true.
Proof.
  apply (status_file_stays_terminated "started" "succeeded" sample_self
           sample_os). reflexivity.
Defined.

(** *** Sending *)

Section sending.

Context {float_value : Type}.
Variable float : string -> option float_value.
Variables MSG_RETRY_INTVL MSG_TIMEOUT : float_value.
Variable sleeps : float_value -> bool.
Variables KEY_NAME KEY_OWNER KEY_HOST KEY_DIR_ON_SUITE_HOST : string.
Variables KEY_TASK_MSG_RETRY_INTVL KEY_TASK_MSG_MAX_TRIES : string.
Variable KEY_TASK_MSG_TIMEOUT : string.
Variable verbose : bool.
Variables TASK_OUTPUT_STARTED TASK_OUTPUT_SUCCEEDED : string.
Variable net : nat -> reply.

Local Abbreviation world := (world float_value).
Local Abbreviation effect := (effect float_value).
Local Abbreviation _send_by_remote_port :=
  (_send_by_remote_port float_value float MSG_RETRY_INTVL MSG_TIMEOUT sleeps
     KEY_TASK_MSG_RETRY_INTVL KEY_TASK_MSG_MAX_TRIES KEY_TASK_MSG_TIMEOUT
     net).
Local Abbreviation _send_by_ssh :=
  (_send_by_ssh float_value KEY_NAME KEY_OWNER KEY_HOST KEY_DIR_ON_SUITE_HOST
     verbose).
Local Abbreviation send :=
  (send float_value float MSG_RETRY_INTVL MSG_TIMEOUT sleeps KEY_NAME
     KEY_OWNER KEY_HOST KEY_DIR_ON_SUITE_HOST KEY_TASK_MSG_RETRY_INTVL
     KEY_TASK_MSG_MAX_TRIES KEY_TASK_MSG_TIMEOUT verbose TASK_OUTPUT_STARTED
     TASK_OUTPUT_SUCCEEDED net).
Local Abbreviation passed_on := (passed_on KEY_NAME KEY_DIR_ON_SUITE_HOST).

(** The effect of putting one message. *)
Local Abbreviation put self :=
  (put_message (float_value := float_value) (task_id self)
     (severity (message_of self))).

Lemma puts_app (a b : list effect) : puts (a ++ b) = puts a ++ puts b.
Proof. unfold puts. apply omap_app. Qed.

Lemma puts_put self (l : list string) : puts (map (put self) l) = l.
Proof.
  induction l as [|m l IH]; [done|].
  change (m :: puts (map (put self) l) = m :: l). by rewrite IH.
Qed.

Lemma sleep_count_app (a b : list effect) :
  sleep_count (a ++ b) = (sleep_count a + sleep_count b)%nat.
Proof. unfold sleep_count. by rewrite List.filter_app, length_app. Qed.

Lemma sleep_count_put self (l : list string) :
  sleep_count (map (put self) l) = 0%nat.
Proof. induction l as [|m l IH]; [done|]. done. Qed.

(** What one pass over the messages does: it puts a prefix of them. *)
Lemma put_messages_prefix self messages (w : world) :
  exists k,
    (k <= length messages)%nat
    /\ os (put_messages net self messages w).2 = os w
    /\ calls (put_messages net self messages w).2 = (calls w + k)%nat
    /\ out (put_messages net self messages w).2
       = out w ++ map (put self) (take k messages).
Proof.
  revert w. induction messages as [|m rest IH]; intros w.
  { exists 0%nat. simpl. by rewrite Nat.add_0_r, app_nil_r. }
  simpl.
  destruct (IH {| os := os w; calls := S (calls w);
                  out := out w ++ [put self m] |})
    as (k & Hk & Hos & Hcalls & Hout).
  destruct (net (calls w)).
  - exists (S k). simpl in *. split; [lia|]. split; [done|].
    split; [rewrite Hcalls; lia|]. by rewrite Hout, <- app_assoc.
  - exists 1%nat. simpl. split; [lia|]. split; [done|].
    split; [lia|]. done.
  - exists 1%nat. simpl. split; [lia|]. split; [done|].
    split; [lia|]. done.
  - exists 1%nat. simpl. split; [lia|]. split; [done|].
    split; [lia|]. done.
Qed.

(** A pass all of whose calls are answered puts every message. *)
Lemma put_messages_delivered self messages (w : world) :
  (forall k, (k < length messages)%nat -> net (calls w + k) = Delivered) ->
  put_messages net self messages w
  = (Delivered,
     {| os := os w;
        calls := (calls w + length messages)%nat;
        out := out w ++ map (put self) messages |}).
Proof.
  revert w. induction messages as [|m rest IH]; intros w Hnet.
  { simpl. rewrite Nat.add_0_r, app_nil_r. by destruct w. }
  simpl. rewrite <- (Nat.add_0_r (calls w)) at 1.
  rewrite Hnet by (simpl; lia). rewrite IH.
  - simpl. do 2 f_equal; [lia|]. by rewrite <- app_assoc.
  - intros k Hk. simpl. rewrite <- Nat.add_succ_r. apply Hnet. simpl. lia.
Qed.

Lemma puts_nil_cons (e : effect) (es : list effect) :
  (forall t s m, e <> put_message t s m) -> puts (e :: es) = puts es.
Proof. intros H. destruct e; try done. by destruct (H task_id0 severity0 message). Qed.

Lemma in_rounds_refl messages max_tries range (w : world) :
  in_rounds messages max_tries range w w.
Proof.
  split; [done|]. exists [], []. rewrite app_nil_r.
  split; [done|]. split; [simpl; lia|]. split; [done|].
  split; [done|]. split; [simpl; lia|]. unfold sleep_count. simpl. lia.
Qed.

Lemma in_rounds_step self messages (max_tries i : Z) range (w w1 w' : world)
    k extra :
  (k <= length messages)%nat ->
  os w1 = os w ->
  calls w1 = (calls w + k)%nat ->
  out w1 = out w ++ map (put self) (take k messages) ++ extra ->
  puts extra = [] ->
  (sleep_count extra <= if bool_decide (i < max_tries)%Z then 1 else 0)%nat ->
  in_rounds messages max_tries range w1 w' ->
  in_rounds messages max_tries (i :: range) w w'.
Proof.
  intros Hk Hos Hcalls Hout Hputs Hsleep
    (Hos' & added & ks & Hout' & Hcalls' & Hp & Hks & Hlen & Hsl).
  split; [congruence|].
  exists (map (put self) (take k messages) ++ extra ++ added), (k :: ks).
  assert (puts (map (put self) (take k messages) ++ extra ++ added)
          = take k messages ++ puts added) as Hall.
  { by rewrite !puts_app, puts_put, Hputs. }
  split; [by rewrite Hout', Hout, <- !app_assoc|].
  split.
  { rewrite Hcalls', Hcalls, Hall, length_app, length_take. lia. }
  split; [by rewrite Hall, Hp|].
  split; [by constructor|].
  split; [simpl; lia|].
  rewrite !sleep_count_app, sleep_count_put.
  rewrite filter_cons. case_bool_decide; case_decide; try done; simpl in *; lia.
Qed.

Lemma tries_in_rounds self messages retry_intvl timeout max_tries range
    (w : world) :
  in_rounds messages max_tries range w
    (tries sleeps net self messages retry_intvl timeout max_tries range w).2.
Proof.
  revert w. induction range as [|i range IH]; intros w.
  { apply in_rounds_refl. }
  simpl.
  destruct (put_messages_prefix self messages w)
    as (k & Hk & Hos & Hcalls & Hout).
  destruct (put_messages net self messages w) as [r w1]. simpl in *.
  assert (forall extra w2 w',
            os w2 = os w1 -> calls w2 = calls w1 -> out w2 = out w1 ++ extra ->
            puts extra = [] ->
            (sleep_count extra
             <= if bool_decide (i < max_tries)%Z then 1 else 0)%nat ->
            in_rounds messages max_tries range w2 w' ->
            in_rounds messages max_tries (i :: range) w w') as Hstep.
  { intros extra w2 w' H1 H2 H3 H4 H5 H6.
    apply (in_rounds_step self _ _ _ _ _ w2 _ k extra); try done.
    - congruence.
    - congruence.
    - by rewrite H3, Hout, <- app_assoc. }
  destruct r.
  - destruct (1 <? i).
    + apply (Hstep [try_succeeded i max_tries]
               (emit (try_succeeded i max_tries) w1) _
               eq_refl eq_refl eq_refl); [done| |apply in_rounds_refl].
      unfold sleep_count. simpl. lia.
    + apply (Hstep [] w1 _ eq_refl eq_refl); 
        [by rewrite app_nil_r|done| |apply in_rounds_refl].
      unfold sleep_count. simpl. lia.
  - destruct (max_tries <=? i) eqn:Hmax; simpl.
    + apply (Hstep [try_failed i max_tries; send_failed]
               (emit send_failed (emit (try_failed i max_tries) w1)) _
               eq_refl eq_refl); [|done| |apply IH].
      * simpl. by rewrite <- app_assoc.
      * unfold sleep_count. simpl. lia.
    + apply Z.leb_gt in Hmax. destruct (sleeps retry_intvl).
      * apply (Hstep [try_failed i max_tries; retry_in retry_intvl timeout;
                      sleep retry_intvl; reset_client]
                 (emit reset_client
                    (emit (sleep retry_intvl)
                       (emit (retry_in retry_intvl timeout)
                          (emit (try_failed i max_tries) w1)))) _
                 eq_refl eq_refl); [|done| |apply IH].
        -- simpl. by rewrite <- !app_assoc.
        -- unfold sleep_count. simpl. by rewrite bool_decide_true.
      * apply (Hstep [try_failed i max_tries; retry_in retry_intvl timeout]
                 (emit (retry_in retry_intvl timeout)
                    (emit (try_failed i max_tries) w1)) _
                 eq_refl eq_refl); [|done| |apply in_rounds_refl].
        -- simpl. by rewrite <- !app_assoc.
        -- unfold sleep_count. simpl. lia.
  - rewrite orb_true_r.
    apply (Hstep [try_failed i max_tries; send_failed]
             (emit send_failed (emit (try_failed i max_tries) w1)) _
             eq_refl eq_refl); [|done| |apply IH].
    + simpl. by rewrite <- app_assoc.
    + unfold sleep_count. simpl. lia.
  - apply (Hstep [] w1 _ eq_refl eq_refl);
      [by rewrite app_nil_r|done| |apply in_rounds_refl].
    unfold sleep_count. simpl. lia.
Qed.



(** X18.  A suite that answers is told each message once: when the
    settings are well formed, at least one try is allowed and the client
    delivers one call for each message, the method puts the messages in
    their order, once each, writes no warning, does not sleep, and
    returns. *)
Theorem delivered_at_first_try (self : messenger) (messages : list string)
    (w : world) (retry_intvl timeout : float_value) (max_tries : Z) :
  setting float MSG_RETRY_INTVL (env_map self !! KEY_TASK_MSG_RETRY_INTVL)
  = Some retry_intvl ->
  setting int_of_str MSG_MAX_TRIES (env_map self !! KEY_TASK_MSG_MAX_TRIES)
  = Some max_tries ->
  setting float MSG_TIMEOUT (env_map self !! KEY_TASK_MSG_TIMEOUT)
  = Some timeout ->
  1 <= max_tries ->
  (forall k, (k < length messages)%nat -> net (calls w + k) = Delivered) ->
  _send_by_remote_port self messages w
  = (Done,
     {| os := os w;
        calls := (calls w + length messages)%nat;
        out := out w ++ map (put self) messages |}).
Proof.
  intros Hr Hm Ht Hmax Hnet. unfold task_message._send_by_remote_port.
  rewrite Hr, Hm, Ht. rewrite seqZ_cons by lia. simpl.
  by rewrite put_messages_delivered.
Qed.

Lemma tries_failing self m rest retry_intvl timeout max_tries exc range
    (w : world) :
  exc = ClientError \/ exc = ClientInfoError ->
  sleeps retry_intvl = true ->
  (forall k, net (calls w + k) = exc) ->
  tries sleeps net self (m :: rest) retry_intvl timeout max_tries range w
  = (Done,
     {| os := os w;
        calls := (calls w + length range)%nat;
        out := out w ++
          (range ≫= fun i =>
             put self m :: try_failed i max_tries ::
             (if (max_tries <=? i) || is_info exc then [send_failed]
              else [retry_in retry_intvl timeout; sleep retry_intvl;
                    reset_client])) |}).
Proof.
  intros Hexc Hsleep. revert w.
  induction range as [|i range IH]; intros w Hnet.
  { simpl. rewrite Nat.add_0_r, app_nil_r. by destruct w. }
  assert (net (calls w) = exc) as H0.
  { rewrite <- (Hnet 0%nat). f_equal. lia. }
  cbn [tries put_messages]. rewrite H0.
  assert (forall w' extra,
            os w' = os w -> calls w' = S (calls w) ->
            out w' = out w ++ put self m :: try_failed i max_tries :: extra ->
            tries sleeps net self (m :: rest) retry_intvl timeout max_tries
              range w'
            = (Done,
               {| os := os w;
                  calls := (calls w + length (i :: range))%nat;
                  out := out w ++
                    (put self m :: try_failed i max_tries :: extra) ++
                    (range ≫= fun i =>
                       put self m :: try_failed i max_tries ::
                       (if (max_tries <=? i) || is_info exc then [send_failed]
                        else [retry_in retry_intvl timeout; sleep retry_intvl;
                              reset_client])) |})) as Hnext.
  { intros w' extra H1 H2 H3. rewrite IH.
    - rewrite H1, H2, H3. simpl. do 2 f_equal; [lia|].
      by rewrite <- !app_assoc.
    - intros k. rewrite H2. rewrite <- (Hnet (S k)). f_equal. lia. }
  destruct Hexc as [-> | ->]; cbn [is_info].
  - rewrite orb_false_r. destruct (max_tries <=? i) eqn:Hi.
    + rewrite (Hnext _ [send_failed]).
      * simpl. by rewrite Hi.
      * done.
      * done.
      * simpl. by rewrite <- !app_assoc.
    + rewrite Hsleep.
      rewrite (Hnext _ [retry_in retry_intvl timeout; sleep retry_intvl;
                        reset_client]).
      * simpl. by rewrite Hi.
      * done.
      * done.
      * simpl. by rewrite <- !app_assoc.
  - rewrite orb_true_r.
    rewrite (Hnext _ [send_failed]).
    + simpl. by rewrite orb_true_r.
    + done.
    + done.
    + simpl. by rewrite <- !app_assoc.
Qed.

(** X19.  A suite that cannot be reached is tried to the end.  When every
    call of the client raises the same [ClientError], the first message
    is put once for each of the [max_tries] tries and the method returns.
    After a [ClientInfoError], too, the next try follows; it follows at
    once, each try ending with the line MESSAGE SEND FAILED.  After
    another [ClientError] the method sleeps and resets the client before
    each next try, and the line ends the last try alone. *)
Theorem unreachable_suite_tried_to_the_end (self : messenger)
    (m : string) (rest : list string) (w : world)
    (retry_intvl timeout : float_value) (max_tries : Z) (exc : reply) :
  setting float MSG_RETRY_INTVL (env_map self !! KEY_TASK_MSG_RETRY_INTVL)
  = Some retry_intvl ->
  setting int_of_str MSG_MAX_TRIES (env_map self !! KEY_TASK_MSG_MAX_TRIES)
  = Some max_tries ->
  setting float MSG_TIMEOUT (env_map self !! KEY_TASK_MSG_TIMEOUT)
  = Some timeout ->
  sleeps retry_intvl = true ->
  exc = ClientError \/ exc = ClientInfoError ->
  (forall k, net (calls w + k) = exc) ->
  _send_by_remote_port self (m :: rest) w
  = (Done,
     {| os := os w;
        calls := (calls w + Z.to_nat max_tries)%nat;
        out := out w ++
          (seqZ 1 max_tries ≫= fun i =>
             put self m :: try_failed i max_tries ::
             (if (max_tries <=? i) || is_info exc then [send_failed]
              else [retry_in retry_intvl timeout; sleep retry_intvl;
                    reset_client])) |}).
Proof.
  intros Hr Hm Ht Hsleep Hexc Hnet. unfold task_message._send_by_remote_port.
  rewrite Hr, Hm, Ht.
  rewrite (tries_failing self m rest retry_intvl timeout max_tries exc)
    by done.
  by rewrite length_seqZ.
Qed.

(** X20.  Without a try nothing is sent: when the number of tries the
    environment asks for is zero or less the method returns at once,
    having put no message and written no warning; and when one of the
    three settings is malformed the method raises before it puts
    anything. *)
Theorem nothing_sent_without_a_try (self : messenger)
    (messages : list string) (w : world) :
  let retry_intvl :=
    setting float MSG_RETRY_INTVL (env_map self !! KEY_TASK_MSG_RETRY_INTVL) in
  let max_tries :=
    setting int_of_str MSG_MAX_TRIES
      (env_map self !! KEY_TASK_MSG_MAX_TRIES) in
  let timeout :=
    setting float MSG_TIMEOUT (env_map self !! KEY_TASK_MSG_TIMEOUT) in
  (retry_intvl = None \/ max_tries = None \/ timeout = None ->
   _send_by_remote_port self messages w = (Failed value_error, w))
  /\ (forall n, is_Some retry_intvl -> max_tries = Some n ->
        is_Some timeout -> n <= 0 ->
        _send_by_remote_port self messages w = (Done, w)).
Proof.
  cbv zeta. unfold task_message._send_by_remote_port. split.
  - intros [-> | [H | H]]; [done| |].
    + rewrite H. by case_match.
    + rewrite H. by repeat case_match.
  - intros n [r ->] -> [t ->] Hn. by rewrite seqZ_nil by lia.
Qed.

Lemma print_messages_out (self : TaskMessage) messages (w : world) :
  _print_messages self messages w
  = {| os := os w;
       calls := calls w;
       out := out w
         ++ map (fun m => write (handle_of self) (print_line self m)) messages
         ++ [flush (handle_of self)] |}.
Proof.
  unfold task_message._print_messages. cbv zeta.
  assert (forall w : world,
            fold_left
              (fun w message =>
                 emit (write (handle_of self) (print_line self message)) w)
              messages w
            = {| os := os w;
                 calls := calls w;
                 out := out w
                   ++ map (fun m => write (handle_of self) (print_line self m))
                        messages |}) as ->.
  { induction messages as [|m ms IH]; intros w0; simpl.
    - rewrite app_nil_r. by destruct w0.
    - rewrite IH. simpl. by rewrite <- app_assoc. }
  unfold emit. simpl. by rewrite <- app_assoc.
Qed.

(** X21.  Every message is printed once, in order, and the stream is
    flushed after the last: to the standard error when the severity the
    object was made with is WARNING or CRITICAL, to the standard output
    otherwise.  Nothing else is touched. *)
Theorem messages_printed_once (severity now : string) (self : TaskMessage)
    (messages : list string) (w : world) :
  init severity now = Returned self ->
  let handle :=
    if decide (severity = WARNING \/ severity = CRITICAL) then stderr
    else stdout in
  _print_messages self messages w
  = {| os := os w;
       calls := calls w;
       out := out w
         ++ map (fun m =>
                   write handle
                     (now +:+ " " +:+ severity +:+ " - " +:+ m +:+ nl))
              messages
         ++ [flush handle] |}.
Proof.
  unfold init. case_decide as Hsev; [|done]. intros [= <-]. cbv zeta.
  rewrite print_messages_out. unfold handle_of, print_line. simpl.
  assert ((if decide (severity ∈ [NORMAL; CUSTOM]) then stdout else stderr)
          = (if decide (severity = WARNING \/ severity = CRITICAL)
             then stderr else stdout)) as ->; [|done].
  unfold SEVERITIES in Hsev.
  rewrite !elem_of_cons, elem_of_nil in Hsev.
  destruct Hsev as [-> | [-> | [-> | [-> | []]]]]; reflexivity.
Qed.

Lemma remote_port_frame self messages (w : world) :
  os (_send_by_remote_port self messages w).2 = os w
  /\ exists added,
       out (_send_by_remote_port self messages w).2 = out w ++ added
       /\ forall m, m ∈ puts added -> m ∈ messages.
Proof.
  unfold task_message._send_by_remote_port.
  destruct (setting float MSG_RETRY_INTVL _) as [retry_intvl|];
    [destruct (setting int_of_str MSG_MAX_TRIES _) as [max_tries|];
     [destruct (setting float MSG_TIMEOUT _) as [timeout|]|]|];
    try (split; [done|]; exists []; rewrite app_nil_r; split; [done|];
         intros m Hm; by apply elem_of_nil in Hm).
  destruct (tries_in_rounds self messages retry_intvl timeout max_tries
              (seqZ 1 max_tries) w)
    as (Hos & added & ks & H1 & H2 & H3 & H4 & H5 & H6).
  split; [done|]. exists added. split; [done|].
  intros m. rewrite H3. intros (k & Hm & _)%list_elem_of_bind.
  by apply elem_of_take in Hm as (i & Hm%list_elem_of_lookup_2 & _).
Qed.

Lemma fold_passed_on (m : gmap string string) (vars : list string)
    (acc : gmap string string) (var : string) :
  fold_left
    (fun env var =>
       match m !! var with
       | Some value => <[var := value]> env
       | None => env
       end) vars acc !! var
  = match m !! var with
    | Some value => if decide (var ∈ vars) then Some value else acc !! var
    | None => acc !! var
    end.
Proof.
  revert acc. induction vars as [|v vars IH]; intros acc; simpl.
  { destruct (m !! var); [|done].
    destruct (decide (var ∈ [])) as [[]%elem_of_nil|]; done. }
  rewrite IH. destruct (m !! var) as [value|] eqn:E.
  - destruct (decide (var ∈ vars)) as [Hin|Hout].
    { by rewrite decide_True by (by right). }
    destruct (decide (var = v)) as [->|Hne].
    + rewrite decide_True by left. by rewrite E, lookup_insert_eq.
    + rewrite decide_False by (by intros [?|?]%elem_of_cons).
      destruct (m !! v); [by rewrite lookup_insert_ne|done].
  - destruct (m !! v) eqn:Ev; [|done].
    rewrite lookup_insert_ne; [done|]. intros ->. congruence.
Qed.

Lemma puts_argv (args : list string) :
  puts (map (argv_append (float_value := float_value)) args) = [].
Proof. by induction args. Qed.

Lemma ssh_effects self (w : world) :
  os (_send_by_ssh self w).2 = os w
  /\ calls (_send_by_ssh self w).2 = calls w
  /\ exists args,
       (forall e, (_send_by_ssh self w).1 = Failed e ->
          out (_send_by_ssh self w).2 = out w ++ map argv_append args
          /\ exists key, e = key_error key /\ env_map self !! key = None)
       /\ ((_send_by_ssh self w).1 = Done ->
           exists env dir,
             out (_send_by_ssh self w).2
             = out w ++ map argv_append args
                 ++ [remrun env [path_join dir "bin"]]
             /\ env_map self !! "CYLC_DIR_ON_SUITE_HOST" = Some dir
             /\ forall var,
                  env !! var
                  = if decide (var ∈ passed_on) then env_map self !! var
                    else None).
Proof.
  unfold task_message._send_by_ssh.
  destruct (env_map self !! KEY_OWNER) as [owner|] eqn:Ho.
  2:{ split; [done|]. split; [done|]. exists []. simpl. split; [|done].
      intros e [= <-]. rewrite app_nil_r. split; [done|]. by exists KEY_OWNER. }
  destruct (env_map self !! KEY_HOST) as [host|] eqn:Hh.
  2:{ split; [done|]. split; [done|]. exists ["--user=" +:+ owner]. simpl.
      split; [|done]. intros e [= <-]. split; [done|]. by exists KEY_HOST. }
  cbv zeta.
  set (args := ["--user=" +:+ owner; "--host=" +:+ host]
                 ++ (if verbose then ["-v"] else [])
                 ++ [if decide (env_map self !! "CYLC_TASK_SSH_LOGIN_SHELL"
                                = Some "False")
                     then "--no-login" else "--login"]).
  set (w4 := if decide (env_map self !! "CYLC_TASK_SSH_LOGIN_SHELL"
                        = Some "False") then _ else _).
  assert (os w4 = os w /\ calls w4 = calls w
          /\ out w4 = out w ++ map argv_append args) as (H1 & H2 & H3).
  { subst w4 args. destruct verbose; case_decide; simpl;
      by rewrite <- ?app_assoc. }
  destruct (env_map self !! "CYLC_DIR_ON_SUITE_HOST") as [dir|] eqn:Hd.
  - simpl. split; [done|]. split; [done|]. exists args. split; [done|].
    intros _.
    exists (fold_left
              (fun env var =>
                 match env_map self !! var with
                 | Some value => <[var := value]> env
                 | None => env
                 end) passed_on ∅), dir.
    split; [by rewrite H3, <- app_assoc|].
    split; [done|]. intros var. rewrite fold_passed_on, lookup_empty.
    destruct (env_map self !! var); by case_decide.
  - simpl. split; [done|]. split; [done|]. exists args. split; [|done].
    intros e [= <-]. split; [done|]. by exists "CYLC_DIR_ON_SUITE_HOST".
Qed.

(** X22.  The command that is invoked again on the suite host is handed
    the listed variables, as far as they are set, and no other variable
    of the environment; until then the method only extends the argument
    list.  It fails, with a [KeyError], only on a missing variable. *)
Theorem ssh_hands_on_listed_variables (self : messenger) (w : world) :
  let result := _send_by_ssh self w in
  os result.2 = os w
  /\ calls result.2 = calls w
  /\ exists args,
       (forall e, result.1 = Failed e ->
          out result.2 = out w ++ map argv_append args
          /\ exists key, e = key_error key /\ env_map self !! key = None)
       /\ (result.1 = Done ->
           exists env dir,
             out result.2
             = out w ++ map argv_append args
                 ++ [remrun env [path_join dir "bin"]]
             /\ env_map self !! "CYLC_DIR_ON_SUITE_HOST" = Some dir
             /\ forall var,
                  env !! var
                  = if decide (var ∈ passed_on) then env_map self !! var
                    else None).
Proof. apply ssh_effects. Qed.

(** X23.  [send] records before it sends.  However the call ends, the
    status file is as [_update_job_status_file] leaves it and the
    messages have been printed; what is put to the suite afterwards is
    a message of the call followed by the time of the event, never the
    bare message.  Without a contact file the call ends there: nothing
    is put, the client is not called, the object is unchanged.  With
    one, its data overrides the copy of the environment. *)
Theorem send_records_before_it_sends (self : messenger)
    (messages : list string) (contact_file : contact) (w : world) :
  let result := send self messages contact_file w in
  let printed := _print_messages (message_of self) messages w in
  os result.2.2
  = task_message._update_job_status_file TASK_OUTPUT_STARTED
      TASK_OUTPUT_SUCCEEDED (message_of self) messages (os w)
  /\ (exists added,
        out result.2.2 = out printed ++ added
        /\ forall m, m ∈ puts added ->
             exists msg, msg ∈ messages
               /\ m = msg +:+ " at " +:+ true_event_time (message_of self))
  /\ (contact_file = Unavailable ->
      result.1 = self /\ result.2.1 = Done
      /\ out result.2.2 = out printed /\ calls result.2.2 = calls w)
  /\ (forall data, contact_file = Loaded data ->
        env_map result.1 = data ∪ env_map self
        /\ suite result.1 = suite self /\ task_id result.1 = task_id self).
Proof.
  cbv zeta. unfold task_message.send. cbv zeta.
  rewrite print_messages_out. cbn [os calls out].
  set (w2 := {| os := _; calls := calls w; out := _ |}).
  destruct contact_file as [data|].
  - set (self' := with_env_map (data ∪ env_map self) self).
    case_decide as Hssh.
    + destruct (ssh_effects self' w2) as (H1 & H2 & args & Hf & Hd).
      cbn [fst snd]. split; [by rewrite H1|].
      split; [|split; [done|by intros ? [= <-]]].
      destruct (_send_by_ssh self' w2) as [[|e] w'] eqn:E; simpl in *.
      * destruct (Hd eq_refl) as (env & dir & -> & _).
        eexists. split; [done|]. rewrite puts_app, puts_argv. simpl.
        intros m Hm. by apply elem_of_nil in Hm.
      * destruct (Hf e eq_refl) as (-> & _).
        eexists. split; [done|]. rewrite puts_argv.
        intros m Hm. by apply elem_of_nil in Hm.
    + cbn [fst snd].
      destruct (remote_port_frame self'
                  (map (fun msg =>
                          msg +:+ " at " +:+ true_event_time (message_of self))
                     messages) w2) as (H1 & added & H2 & H3).
      split; [by rewrite H1|].
      split; [|split; [done|by intros ? [= <-]]].
      exists added. split; [done|]. intros m Hm.
      apply H3 in Hm. apply list_elem_of_fmap in Hm as (msg & -> & Hmsg).
      by exists msg.
  - cbn [fst snd]. split; [done|]. split; [|split; [done|done]].
    exists []. rewrite app_nil_r. split; [done|].
    intros m Hm. by apply elem_of_nil in Hm.
Qed.

End sending.


Lemma delivered_at_first_try_witness :
  sample_port (fun _ => Delivered) sample_messenger ["a"; "b"] sample_world
  = (Done,
     {| os := sample_os;
        calls := 2;
        out := [put_message (Some "t.1") "WARNING" "a";
                put_message (Some "t.1") "WARNING" "b"] |}).
Proof.
  apply (delivered_at_first_try sample_float 5 30 (fun z => 0 <=? z)
           "CYLC_TASK_MSG_RETRY_INTVL" "CYLC_TASK_MSG_MAX_TRIES"
           "CYLC_TASK_MSG_TIMEOUT" (fun _ => Delivered)
           sample_messenger ["a"; "b"] sample_world 5 30 3).
  - reflexivity.
  - reflexivity.
  - reflexivity.
  - lia.
  - reflexivity.
Defined.

Lemma unreachable_suite_tried_to_the_end_witness :
  sample_port (fun _ => ClientInfoError) sample_messenger ["a"; "b"]
    sample_world
  = (Done,
     {| os := sample_os;
        calls := 3;
        out := [put_message (Some "t.1") "WARNING" "a"; try_failed 1 3;
                send_failed;
                put_message (Some "t.1") "WARNING" "a"; try_failed 2 3;
                send_failed;
                put_message (Some "t.1") "WARNING" "a"; try_failed 3 3;
                send_failed] |}).
Proof.
  apply (unreachable_suite_tried_to_the_end sample_float 5 30
           (fun z => 0 <=? z)
           "CYLC_TASK_MSG_RETRY_INTVL" "CYLC_TASK_MSG_MAX_TRIES"
           "CYLC_TASK_MSG_TIMEOUT" (fun _ => ClientInfoError)
           sample_messenger "a" ["b"] sample_world 5 30 3 ClientInfoError).
  - reflexivity.
  - reflexivity.
  - reflexivity.
  - reflexivity.
  - right. reflexivity.
  - reflexivity.
Defined.

Lemma messages_printed_once_witness :
  _print_messages sample_self ["a"] sample_world
  = {| os := sample_os;
       calls := 0;
       out := [write stderr ("t1 WARNING - a" +:+ nl); flush stderr] |}.
Proof.
  apply (messages_printed_once "WARNING" "t1" sample_self ["a"] sample_world).
  reflexivity.
Defined.

End task_message_facts.

(** ** Reference times *)

Module reference_time_facts.

Import Py reference_time.

(** *** Digits *)


Lemma digit_value_range c : 0 <= digit_value c <= 9.
Proof.
  unfold digit_value.
  destruct c as [[] [] [] [] [] [] [] []]; simpl; lia.
Qed.

Lemma digit_char_value c : is_digit c -> digit_char (digit_value c) = c.
Proof.
  unfold is_digit, digit_value.
  destruct c as [[] [] [] [] [] [] [] []]; simpl; intros [? [=]]; reflexivity.
Qed.

Lemma digit_value_char d : 0 <= d <= 9 -> digit_value (digit_char d) = d.
Proof.
  intros H.
  assert (d = 0 \/ d = 1 \/ d = 2 \/ d = 3 \/ d = 4 \/ d = 5 \/ d = 6
          \/ d = 7 \/ d = 8 \/ d = 9) as Hd by lia.
  repeat (destruct Hd as [->|Hd]; [reflexivity|]). by subst.
Qed.

Lemma is_digit_char d : is_digit (digit_char d).
Proof.
  unfold is_digit. destruct d as [|p|p]; simpl; [eauto| |eauto].
  do 4 (try destruct p as [p|p|]; simpl; eauto).
Qed.

Lemma all_digits_Forall s :
  all_digits s = true <-> Forall is_digit (list_ascii_of_string s).
Proof.
  induction s as [|c r IH]; simpl.
  - split; [constructor|done].
  - rewrite Forall_cons. unfold is_digit at 1.
    destruct (Ascii.is_nat c); rewrite <- ?IH.
    + split; [by eauto|tauto].
    + split; [done|]. by intros [[? [=]] _].
Qed.

Lemma length_list_ascii s :
  length (list_ascii_of_string s) = String.length s.
Proof. induction s; simpl; congruence. Qed.


Lemma digits_low_value s :
  digits s = low_value (rev (list_ascii_of_string s)).
Proof.
  unfold digits, low_value.
  exact (eq_sym (fold_left_rev_right
                   (fun (c : ascii) (acc : Z) => 10 * acc + digit_value c)
                   (list_ascii_of_string s) 0)).
Qed.

Lemma low_digits_value r :
  Forall is_digit r -> low_digits (length r) (low_value r) = r.
Proof.
  induction 1 as [|c r Hc _ IH]; [done|].
  simpl. pose proof (digit_value_range c).
  replace ((10 * low_value r + digit_value c) mod 10) with (digit_value c)
    by (rewrite Z.add_comm, Z.mul_comm, Z_mod_plus_full;
        symmetry; apply Z.mod_small; lia).
  replace ((10 * low_value r + digit_value c) / 10) with (low_value r)
    by (rewrite Z.add_comm, Z.mul_comm, Z_div_plus_full by lia;
        rewrite Z.div_small by lia; lia).
  by rewrite digit_char_value, IH.
Qed.

Lemma zfill_digits s :
  all_digits s = true -> zfill (String.length s) (digits s) = s.
Proof.
  intros H%all_digits_Forall. unfold zfill.
  rewrite digits_low_value, <- length_list_ascii, <- length_rev.
  rewrite low_digits_value by by apply Forall_rev.
  by rewrite rev_involutive, string_of_list_ascii_of_string.
Qed.

Lemma low_value_digits w n :
  low_value (low_digits w n) = n mod 10 ^ Z.of_nat w.
Proof.
  revert n. induction w as [|w IH]; intros n.
  - simpl. by rewrite Z.mod_1_r.
  - simpl low_digits. unfold low_value in *. simpl foldr. rewrite IH.
    rewrite Nat2Z.inj_succ, Z.pow_succ_r by lia.
    rewrite Z.rem_mul_r by lia.
    pose proof (Z.mod_pos_bound n 10 ltac:(lia)).
    rewrite digit_value_char by lia. lia.
Qed.

Lemma digits_zfill w n :
  0 <= n < 10 ^ Z.of_nat w -> digits (zfill w n) = n.
Proof.
  intros H. unfold zfill.
  rewrite digits_low_value, list_ascii_of_string_of_list_ascii.
  rewrite rev_involutive, low_value_digits. by apply Z.mod_small.
Qed.

Lemma length_low_digits w n : length (low_digits w n) = w.
Proof. revert n. induction w; simpl; auto. Qed.

Lemma length_zfill w n : String.length (zfill w n) = w.
Proof.
  unfold zfill.
  by rewrite <- length_list_ascii, list_ascii_of_string_of_list_ascii,
    length_rev, length_low_digits.
Qed.

Lemma all_digits_zfill w n : all_digits (zfill w n) = true.
Proof.
  apply all_digits_Forall. unfold zfill.
  rewrite list_ascii_of_string_of_list_ascii. apply Forall_rev.
  revert n. induction w; simpl; constructor; auto using is_digit_char.
Qed.


(** *** Stamps as strings *)

Lemma length_append (a b : string) :
  String.length (a +:+ b) = (String.length a + String.length b)%nat.
Proof. induction a as [|c a IH]; [done|]. simpl. by rewrite <- IH. Qed.

Lemma all_digits_append (a b : string) :
  all_digits (a +:+ b) = all_digits a && all_digits b.
Proof.
  induction a as [|c a IH]; [done|].
  change (String c a +:+ b) with (String c (a +:+ b)). simpl.
  by destruct (Ascii.is_nat c).
Qed.

Lemma substring_append_skip (a b : string) n m :
  String.substring (String.length a + n) m (a +:+ b) = String.substring n m b.
Proof. induction a as [|c a IH]; [done|]. exact IH. Qed.

Lemma substring_append_take (a b : string) :
  String.substring 0 (String.length a) (a +:+ b) = a.
Proof.
  induction a as [|c a IH].
  - simpl. by destruct b.
  - change (String c a +:+ b) with (String c (a +:+ b)). simpl. by rewrite IH.
Qed.

Lemma substring_all (a : string) :
  String.substring 0 (String.length a) a = a.
Proof. induction a as [|c a IH]; [done|]. simpl. by rewrite IH. Qed.

(** A string of ten characters is its four fields, one after the other. *)
Lemma fields_of_ten s :
  String.length s = 10%nat ->
  s = slice 0 4 s +:+ slice 4 6 s +:+ slice 6 8 s +:+ slice 8 10 s
  /\ String.length (slice 0 4 s) = 4%nat
  /\ String.length (slice 4 6 s) = 2%nat
  /\ String.length (slice 6 8 s) = 2%nat
  /\ String.length (slice 8 10 s) = 2%nat.
Proof.
  intros H.
  do 10 (destruct s as [|? s]; [discriminate H|]).
  destruct s; [|discriminate H]. repeat split.
Qed.

Lemma fields_of_format c :
  let s := format c in
  slice 0 4 s = zfill 4 (year c)
  /\ slice 4 6 s = zfill 2 (month c)
  /\ slice 6 8 s = zfill 2 (day c)
  /\ slice 8 10 s = zfill 2 (hour c).
Proof.
  repeat split.
Qed.

Lemma valid_bounds c :
  valid c = true <->
  0 <= year c <= 9999 /\ 1 <= month c <= 12
  /\ 1 <= day c <= days_in_month (year c) (month c) /\ 0 <= hour c <= 23.
Proof.
  unfold valid. rewrite !andb_true_iff, !Z.leb_le. tauto.
Qed.

Lemma days_in_month_bounds y m : 28 <= days_in_month y m <= 31.
Proof.
  unfold days_in_month. repeat case_match; lia.
Qed.

Lemma parse_inv s c :
  parse s = Some c ->
  String.length s = 10%nat /\ all_digits s = true /\ valid c = true
  /\ year c = digits (slice 0 4 s) /\ month c = digits (slice 4 6 s)
  /\ day c = digits (slice 6 8 s) /\ hour c = digits (slice 8 10 s).
Proof.
  unfold parse.
  destruct (String.length s =? 10)%nat eqn:Hl; [|done].
  destruct (all_digits s) eqn:Ha; [|done]. simpl.
  match goal with |- context [valid ?x] => destruct (valid x) eqn:Hv end;
    [|done].
  intros [= <-]. apply Nat.eqb_eq in Hl. done.
Qed.

(** Formatting what was parsed gives the stamp back. *)
Lemma format_parse s c : parse s = Some c -> format c = s.
Proof.
  intros (Hl & Ha & Hv & Hy & Hm & Hd & Hh)%parse_inv.
  destruct (fields_of_ten s Hl) as (Hs & L1 & L2 & L3 & L4).
  rewrite Hs in Ha. rewrite !all_digits_append, !andb_true_iff in Ha.
  destruct Ha as (A1 & A2 & A3 & A4).
  pose proof (zfill_digits _ A1) as Z1. rewrite L1 in Z1.
  pose proof (zfill_digits _ A2) as Z2. rewrite L2 in Z2.
  pose proof (zfill_digits _ A3) as Z3. rewrite L3 in Z3.
  pose proof (zfill_digits _ A4) as Z4. rewrite L4 in Z4.
  unfold format. rewrite Hy, Hm, Hd, Hh, Z1, Z2, Z3, Z4. by rewrite <- Hs.
Qed.

(** Parsing what was formatted gives the time back. *)
Lemma parse_format c : valid c = true -> parse (format c) = Some c.
Proof.
  intros Hv. pose proof Hv as (By & Bm & Bd & Bh)%valid_bounds.
  pose proof (days_in_month_bounds (year c) (month c)).
  destruct (fields_of_format c) as (F1 & F2 & F3 & F4).
  unfold parse. rewrite F1, F2, F3, F4.
  assert (String.length (format c) = 10%nat) as ->.
  { unfold format. by rewrite !length_append, !length_zfill. }
  assert (all_digits (format c) = true) as ->.
  { unfold format. by rewrite !all_digits_append, !all_digits_zfill. }
  simpl.
  rewrite !digits_zfill by (simpl; lia).
  destruct c; simpl in *. by rewrite Hv.
Qed.


(** *** Hour arithmetic *)

Lemma hour_next_day c : hour (next_day c) = hour c.
Proof. unfold next_day. by repeat case_match. Qed.

Lemma hour_prev_day c : hour (prev_day c) = hour c.
Proof. unfold prev_day. by repeat case_match. Qed.

Lemma hour_iter (f : stamp -> stamp) k c :
  (forall x, hour (f x) = hour x) -> hour (Nat.iter k f c) = hour c.
Proof. intros Hf. induction k; simpl; [done|]. by rewrite Hf. Qed.

Lemma hour_shift c n : hour (shift c n) = (hour c + n) mod 24.
Proof.
  unfold shift. case_match.
  - by rewrite (hour_iter _ _ _ hour_next_day).
  - by rewrite (hour_iter _ _ _ hour_prev_day).
Qed.

Lemma shift_0 c : valid c = true -> shift c 0 = c.
Proof.
  intros (_ & _ & _ & Bh)%valid_bounds. unfold shift.
  rewrite Z.add_0_r, Z.div_small, Z.mod_small by lia. simpl.
  by destruct c.
Qed.

Lemma valid_next_day c :
  valid c = true -> year c < 9999 -> valid (next_day c) = true.
Proof.
  intros (By & Bm & Bd & Bh)%valid_bounds Hy.
  apply valid_bounds. unfold next_day.
  pose proof (days_in_month_bounds (year c) (month c + 1)).
  pose proof (days_in_month_bounds (year c + 1) 1).
  destruct (Z.ltb_spec (day c) (days_in_month (year c) (month c)));
    [|destruct (Z.ltb_spec (month c) 12)]; simpl; lia.
Qed.

Lemma year_next_day c : year c <= year (next_day c) <= year c + 1.
Proof. unfold next_day. repeat case_match; simpl; lia. Qed.

Lemma valid_iter_next_day k c :
  valid c = true -> year c + Z.of_nat k <= 9999 ->
  valid (Nat.iter k next_day c) = true
  /\ year (Nat.iter k next_day c) <= year c + Z.of_nat k.
Proof.
  intros Hv. induction k as [|k IH]; intros Hy; [simpl; split; [done|lia]|].
  destruct IH as [IHv IHy]; [lia|]. simpl.
  pose proof (year_next_day (Nat.iter k next_day c)).
  split; [apply valid_next_day; [done|lia] | lia].
Qed.

(** Adding hours to a time before the last year cannot leave the range of
    stamps when it moves it by at most 365 days. *)
Lemma valid_shift c n :
  valid c = true -> 0 <= n -> year c + (hour c + n) / 24 <= 9999 ->
  valid (shift c n) = true.
Proof.
  intros Hv Hn Hy. pose proof Hv as (By & Bm & Bd & Bh)%valid_bounds.
  unfold shift.
  pose proof (Z.mod_pos_bound (hour c + n) 24 ltac:(lia)).
  pose proof (Z.div_pos (hour c + n) 24 ltac:(lia) ltac:(lia)).
  rewrite (proj2 (Z.leb_le _ _)) by lia.
  apply valid_iter_next_day.
  - apply valid_bounds. simpl. lia.
  - simpl. lia.
Qed.

Lemma increment_0 rt : well_formed rt -> increment rt 0 = Returned rt.
Proof.
  intros [c Hc]. unfold increment, shifted. rewrite Hc.
  pose proof Hc as (_ & _ & Hv & _)%parse_inv.
  rewrite (shift_0 _ Hv), Hv. by rewrite (format_parse _ _ Hc).
Qed.

Lemma increment_returned rt n rt' c :
  parse rt = Some c -> increment rt n = Returned rt' ->
  exists c', parse rt' = Some c' /\ hour c' = (hour c + n) mod 24.
Proof.
  intros Hc. unfold increment, shifted. rewrite Hc.
  destruct (valid (shift c n)) eqn:Hv; [|done]. intros [= <-].
  exists (shift c n). split; [by apply parse_format | apply hour_shift].
Qed.

Lemma increment_returns rt n c :
  parse rt = Some c -> 0 <= n -> year c + (hour c + n) / 24 <= 9999 ->
  exists rt', increment rt n = Returned rt'.
Proof.
  intros Hc Hn Hy. unfold increment, shifted. rewrite Hc.
  pose proof Hc as (_ & _ & Hv & _)%parse_inv.
  rewrite (valid_shift _ _ Hv Hn Hy). eauto.
Qed.

(** *** The hour field, as [int] reads it *)

Lemma is_digit_cases c :
  is_digit c ->
  (c = "0" \/ c = "1" \/ c = "2" \/ c = "3" \/ c = "4" \/ c = "5" \/ c = "6"
   \/ c = "7" \/ c = "8" \/ c = "9")%char.
Proof.
  unfold is_digit.
  destruct c as [[] [] [] [] [] [] [] []]; simpl; intros [? [=]]; tauto.
Qed.

Lemma int_of_two_digits (a b : ascii) :
  is_digit a -> is_digit b ->
  int_of_str (String a (String b "")) = Some (digits (String a (String b ""))).
Proof.
  intros Ha%is_digit_cases Hb%is_digit_cases.
  repeat (destruct Ha as [->|Ha]); try subst a;
    repeat (destruct Hb as [->|Hb]); try subst b; reflexivity.
Qed.

Lemma int_of_hour_field rt c :
  parse rt = Some c -> int_of_str (slice 8 10 rt) = Some (hour c).
Proof.
  intros (Hl & Ha & _ & _ & _ & _ & ->)%parse_inv.
  do 10 (destruct rt as [|? rt]; [discriminate Hl|]).
  destruct rt; [|discriminate Hl].
  apply all_digits_Forall in Ha. simpl in Ha.
  repeat match goal with H : Forall _ (_ :: _) |- _ =>
    apply Forall_cons in H as [? H] end.
  by apply int_of_two_digits.
Qed.

(** A well-formed stamp reads as an integer. *)
Lemma int_of_well_formed rt : well_formed rt -> is_Some (int_of_str rt).
Proof.
  intros [c (Hl & Ha & _)%parse_inv]. unfold int_of_str.
  rewrite Py_facts.strip_no_space by by apply Py_facts.all_digits_no_space.
  destruct rt as [|a rt]; [discriminate Hl|].
  simpl in Ha. destruct (Ascii.is_nat a) eqn:Hd; [|done].
  destruct (Py_facts.digit_not_sign _ _ Hd) as [Hp Hm].
  rewrite !decide_False by done.
  assert (forall s, all_digits s = true ->
            is_Some (DecimalString.NilEmpty.uint_of_string s)) as Hu.
  { clear. induction s as [|x s IH]; simpl; [eauto|].
    destruct (Ascii.is_nat x) eqn:Hx; [|done]. intros [u ->]%IH.
    destruct x as [[] [] [] [] [] [] [] []]; simpl in *; try discriminate;
      eauto. }
  destruct (Hu (String a rt)) as [u Hu']; [simpl; by rewrite Hd|].
  unfold DecimalString.NilZero.uint_of_string. rewrite Hu'. eauto.
Qed.

End reference_time_facts.

(** ** Requisite sets *)

Module requisites_facts.

Import requisites.

Lemma all_satisfied_iff r :
  all_satisfied r = true <-> map_Forall (fun _ b => b = true) (flags r).
Proof. unfold all_satisfied. apply bool_decide_eq_true. Qed.

Lemma all_satisfied_set_all r : all_satisfied (set_all_satisfied r) = true.
Proof.
  apply all_satisfied_iff. simpl. intros tk b.
  rewrite lookup_fmap. destruct (flags r !! tk); simpl; congruence.
Qed.

Lemma fresh_not_all_satisfied r : fresh r -> all_satisfied r = false.
Proof.
  intros [Hne Hall]. apply not_true_iff_false. intros H%all_satisfied_iff.
  destruct (map_choose _ Hne) as (tk & b & Hb).
  specialize (Hall _ _ Hb). specialize (H _ _ Hb). simpl in *. congruence.
Qed.

Lemma fresh_make k name tokens : tokens <> [] -> fresh (make k name tokens).
Proof.
  intros Hne. split; simpl.
  - destruct tokens as [|tk tokens]; [done|]. simpl.
    apply insert_non_empty.
  - intros tk b H%elem_of_list_to_map_2.
    apply list_elem_of_fmap in H as (y & Hy & _). congruence.
Qed.

Lemma all_satisfied_set_satisfied r tk :
  all_satisfied (set_satisfied r tk) = true
  <-> forall tk' b, tk' <> tk -> flags r !! tk' = Some b -> b = true.
Proof.
  rewrite all_satisfied_iff. simpl. split.
  - intros H tk' b Hne Hb. apply (H tk' b). by rewrite lookup_insert_ne.
  - intros H tk' b. destruct (decide (tk = tk')) as [->|Hne].
    + rewrite lookup_insert_eq. congruence.
    + rewrite lookup_insert_ne by done. apply H. congruence.
Qed.

Lemma all_satisfied_mono r tk :
  all_satisfied r = true -> all_satisfied (set_satisfied r tk) = true.
Proof.
  intros H%all_satisfied_iff. apply all_satisfied_set_satisfied.
  intros tk' b _ Hb. exact (H _ _ Hb).
Qed.

Lemma set_satisfied_id r tk :
  is_satisfied r tk = true -> set_satisfied r tk = r.
Proof.
  intros H%bool_decide_eq_true. unfold set_satisfied, with_flags.
  rewrite insert_id by done. by destruct r.
Qed.

End requisites_facts.

(** ** Task objects *)

Module tasks_facts.

Import Py tasks.

Lemma launches_app l1 l2 : launches (l1 ++ l2) = launches l1 ++ launches l2.
Proof. unfold launches. apply omap_app. Qed.

Lemma launches_log lvl self text w :
  launches (trace (log lvl self text w)) = launches (trace w).
Proof. unfold log, emit. simpl. rewrite launches_app. simpl. apply app_nil_r. Qed.

(** The scan for a blocker cannot come back empty-handed when an
    unfinished earlier object of the same name is in the pool. *)
Lemma blocked_by_earlier self A tasks a b :
  A ∈ tasks -> name A = name self -> state A <> finished ->
  int_of_str (ref_time A) = Some a -> int_of_str (ref_time self) = Some b ->
  a < b ->
  (exists t, blocked_by self tasks = Returned (Some t))
  \/ blocked_by self tasks = Raised ValueError.
Proof.
  intros Hin Hname Hstate Ha Hb Hlt.
  induction tasks as [|t rest IH]; [by apply elem_of_nil in Hin|].
  simpl. apply elem_of_cons in Hin as [<-|Hin].
  - rewrite decide_True by done. rewrite decide_True by done.
    unfold int. rewrite Ha, Hb, !Py_facts.bind_returned.
    assert ((a <? b) = true) as -> by lia. left. by exists A.
  - destruct (decide (name t = name self)); [|by apply IH].
    destruct (decide (state t <> finished)); [|by apply IH].
    unfold int. destruct (int_of_str (ref_time t)) as [x|]; [|by right].
    rewrite Hb, !Py_facts.bind_returned.
    destruct (x <? b); [left; by exists t | by apply IH].
Qed.

Lemma blocked_by_total self tasks :
  Forall (fun t => is_Some (int_of_str (ref_time t))) tasks ->
  is_Some (int_of_str (ref_time self)) ->
  exists o, blocked_by self tasks = Returned o.
Proof.
  intros Hall [b Hb]. induction Hall as [|t rest [x Hx] _ IH]; [by exists None|].
  simpl. destruct (decide (name t = name self)); [|done].
  destruct (decide (state t <> finished)); [|done].
  unfold int. rewrite Hx, Hb, !Py_facts.bind_returned.
  destruct (x <? b); [by exists (Some t) | done].
Qed.

Lemma task_base_blocked self A tasks rate w a b :
  A ∈ tasks -> name A = name self -> state A <> finished ->
  int_of_str (ref_time A) = Some a -> int_of_str (ref_time self) = Some b ->
  a < b ->
  let r := task_base_run_if_ready self tasks rate w in
  self_of r = self
  /\ launches (trace (world_of r)) = launches (trace w)
  /\ (Forall (fun t => is_Some (int_of_str (ref_time t))) tasks ->
      result_of r = Returned ()).
Proof.
  intros Hin Hname Hstate Ha Hb Hlt. unfold task_base_run_if_ready.
  destruct (blocked_by_earlier self A tasks a b Hin Hname Hstate Ha Hb Hlt)
    as [[t Ht]| Hr].
  - rewrite Ht. simpl. split; [done|]. split; [apply launches_log | done].
  - rewrite Hr. simpl. split; [done|]. split; [done|]. intros Hall.
    destruct (blocked_by_total self tasks Hall) as [o Ho]; [by rewrite Hb|].
    congruence.
Qed.

(** C1.  When the pool holds an object [A] of the class of [self] that is
    not finished and whose reference time reads as a smaller integer,
    [run_if_ready] leaves [self] as it was (so it does not become running)
    and hands no command to the shell; and it returns, provided the
    reference times in the pool read as integers. *)
Theorem earlier_unfinished_blocks (self A : task) (tasks : list task)
    (dummy_clock_rate : option Z) (w : world) (a b : Z) :
  A ∈ tasks -> name A = name self -> state A <> finished ->
  int_of_str (ref_time A) = Some a -> int_of_str (ref_time self) = Some b ->
  a < b ->
  let r := run_if_ready self tasks dummy_clock_rate w in
  self_of r = self
  /\ launches (trace (world_of r)) = launches (trace w)
  /\ (Forall (fun t => is_Some (int_of_str (ref_time t))) tasks ->
      result_of r = Returned ()).
Proof.
  intros Hin Hname Hstate Ha Hb Hlt. unfold run_if_ready.
  destruct (base_of (cls self)).
  - by eapply task_base_blocked.
  - unfold runahead_task_base_run_if_ready.
    match goal with |- context [if ?d then _ else _] => destruct d end.
    + done.
    + by eapply task_base_blocked.
Qed.


Lemma finished_count_length self tasks :
  finished_count self tasks = Z.of_nat (length (old_and_finished self tasks)).
Proof. unfold finished_count, old_and_finished. by rewrite length_map. Qed.

(** C2.  A waiting object of a runahead-limited class becomes running
    only if fewer than [MAX_FINISHED] finished objects of its class are in
    the pool; with [MAX_FINISHED] or more of them the call changes nothing,
    whatever the prerequisites; and [MAX_FINISHED] is 4. *)
Theorem runahead_hold (self : task) (tasks : list task)
    (dummy_clock_rate : option Z) (w : world) :
  base_of (cls self) = runahead_task_base ->
  state self = waiting ->
  let r := run_if_ready self tasks dummy_clock_rate w in
  (state (self_of r) = running -> finished_count self tasks < MAX_FINISHED)
  /\ (MAX_FINISHED <= finished_count self tasks ->
      self_of r = self /\ world_of r = w /\ result_of r = Returned ())
  /\ MAX_FINISHED = 4.
Proof.
  intros Hbase Hstate. unfold run_if_ready. rewrite Hbase.
  unfold runahead_task_base_run_if_ready.
  rewrite decide_True by done. rewrite <- finished_count_length.
  destruct (bool_decide_reflect (MAX_FINISHED <= finished_count self tasks))
    as [Hge|Hlt]; simpl.
  - split; [congruence|]. by split.
  - split; [lia|]. by split.
Qed.

(** *** What each call does to the object *)

Lemma run_external_dummy_self self rate w :
  self_of (run_external_dummy self rate w) = self
  \/ self_of (run_external_dummy self rate w) = with_state self running.
Proof.
  unfold run_external_dummy, topnet_run_external_dummy,
    task_base_run_external_dummy.
  destruct (cls self); simpl; auto.
  destruct (requisites.get_list _); simpl; auto.
  destruct (fuzzy_file_name _); simpl; auto.
Qed.

Lemma task_base_run_if_ready_self self tasks rate w :
  self_of (task_base_run_if_ready self tasks rate w) = self
  \/ (state self = waiting
      /\ self_of (task_base_run_if_ready self tasks rate w)
         = with_state self running).
Proof.
  unfold task_base_run_if_ready.
  destruct (blocked_by self tasks) as [[t|]| |]; simpl; auto.
  destruct (state self) eqn:E; simpl; auto.
  destruct (requisites.all_satisfied _); simpl; auto.
  destruct (truthy rate); simpl; auto.
  destruct (run_external_dummy_self self rate w) as [->| ->]; auto.
Qed.

Lemma run_if_ready_self self tasks rate w :
  self_of (run_if_ready self tasks rate w) = self
  \/ (state self = waiting
      /\ self_of (run_if_ready self tasks rate w) = with_state self running).
Proof.
  unfold run_if_ready, runahead_task_base_run_if_ready.
  destruct (base_of (cls self)); [apply task_base_run_if_ready_self|].
  match goal with |- context [if ?d then _ else _] => destruct d end;
    simpl; auto using task_base_run_if_ready_self.
Qed.

Lemma task_base_incoming_object self priority message w :
  (task_base_incoming self priority message w).1 = incoming_object self message.
Proof.
  unfold task_base_incoming, incoming_object. simpl.
  by destruct (requisites.all_satisfied _).
Qed.

Lemma incoming_is_object self priority message w :
  (incoming self priority message w).1 = incoming_object self message.
Proof.
  unfold incoming, topnet_incoming.
  destruct (cls self); try apply task_base_incoming_object.
  pose proof (task_base_incoming_object self priority message w) as H.
  destruct (task_base_incoming self priority message w) as [s w'].
  simpl in H. subst s.
  repeat match goal with |- context [if ?d then _ else _] => destruct d end;
    done.
Qed.


(** *** Abdication *)

Lemma abdicate_true self :
  (abdicate self).2 = true <-> state self = finished /\ abdicated self = false.
Proof.
  unfold abdicate.
  destruct (bool_decide_reflect (state self = finished)) as [Hs|Hs];
    destruct (abdicated self); simpl; split; (congruence || tauto || idtac).
  all: by intros [? ?].
Qed.

Lemma abdicate_object self :
  (abdicate self).1
  = if (abdicate self).2 then with_abdicated self true else self.
Proof.
  unfold abdicate.
  by destruct (bool_decide (state self = finished) && negb (abdicated self)).
Qed.

(** *** Messages *)

Lemma trace_log lvl self text w :
  trace (log lvl self text w) = trace w ++ [Log lvl ("main." +:+ name self) text].
Proof. reflexivity. Qed.

Lemma task_base_incoming_world self priority message w :
  let w' := (task_base_incoming self priority message w).2 in
  trace w' = trace w ++ not_running_warning self (state self) message
               ++ incoming_report self priority message
  /\ processing_required w' = true
  /\ catchup_mode w' = catchup_mode w
  /\ valid_hours w' = valid_hours w.
Proof.
  unfold task_base_incoming, not_running_warning, incoming_report. simpl.
  destruct (requisites.all_satisfied _); simpl.
  all: destruct (decide (state self = running)) as [Hs|Hs];
    [rewrite decide_False by (intros ?; done)|rewrite decide_True by done].
  all: destruct (requisites.requisite_exists _ _);
    [destruct (requisites.is_satisfied _ _)|
     repeat match goal with |- context [decide ?P] => destruct (decide P) end].
  all: rewrite ?trace_log; simpl; rewrite <- ?app_assoc; simpl; done.
Qed.

Lemma incoming_world self priority message w :
  let w' := (incoming self priority message w).2 in
  trace w' = trace w ++ not_running_warning self (state self) message
               ++ incoming_report self priority message
               ++ (mode_report self message (catchup_mode w)).1
  /\ processing_required w' = true
  /\ catchup_mode w' = (mode_report self message (catchup_mode w)).2
  /\ valid_hours w' = valid_hours w.
Proof.
  pose proof (task_base_incoming_world self priority message w)
    as (Ht & Hp & Hc & Hv).
  unfold incoming, mode_report, topnet_incoming.
  destruct (cls self) eqn:Hcls; simpl;
    try (rewrite Ht, Hp, Hc, Hv, app_nil_r; done).
  pose proof (task_base_incoming_object self priority message w) as Ho.
  destruct (task_base_incoming self priority message w) as [s w1].
  simpl in *. rewrite Hc.
  assert (name s = name self /\ mode_stamp s = mode_stamp self) as [Hn Hm].
  { subst s. unfold incoming_object.
    by destruct (requisites.all_satisfied _). }
  rewrite Hm.
  repeat match goal with |- context [if ?d then _ else _] => destruct d end;
    simpl; rewrite ?trace_log; simpl;
    rewrite ?Ht, ?Hp, ?Hc, ?Hv, ?Hn, ?app_nil_r;
    rewrite <- ?app_assoc; done.
Qed.

Lemma incoming_report_state self s priority message :
  incoming_report (with_state self s) priority message
  = incoming_report self priority message.
Proof. reflexivity. Qed.

(** C8.  Whatever the state [s] of the receiver, [incoming] marks the
    same postrequisite, records the same message and finishes the object
    under the same condition as for a running receiver; the shared state
    is left the same but for one warning in the log.  And a message whose
    postrequisite is already satisfied leaves the postrequisites as they
    were. *)
Theorem incoming_any_state (self : task) (priority message : string)
    (w : world) :
  (forall s,
     let r := incoming (with_state self s) priority message w in
     let r_run := incoming (with_state self running) priority message w in
     postrequisites r.1 = received (postrequisites self) message
     /\ postrequisites r.1 = postrequisites r_run.1
     /\ latest_message r.1 = message
     /\ state r.1
        = (if requisites.all_satisfied (postrequisites r_run.1)
           then finished else s)
     /\ trace r.2
        = trace w ++ not_running_warning self s message
            ++ drop (length (trace w)) (trace r_run.2)
     /\ processing_required r.2 = processing_required r_run.2
     /\ catchup_mode r.2 = catchup_mode r_run.2
     /\ valid_hours r.2 = valid_hours r_run.2)
  /\ (requisites.is_satisfied (postrequisites self) message = true ->
      postrequisites (incoming self priority message w).1
      = postrequisites self).
Proof.
  split.
  - intros s r r_run. subst r r_run.
    rewrite !incoming_is_object.
    destruct (incoming_world (with_state self s) priority message w)
      as (Ht & Hp & Hc & Hv).
    destruct (incoming_world (with_state self running) priority message w)
      as (Ht' & Hp' & Hc' & Hv').
    rewrite Ht, Hp, Hc, Hv, Ht', Hp', Hc', Hv'.
    rewrite !incoming_report_state.
    unfold incoming_object. simpl.
    destruct (requisites.all_satisfied _) eqn:E; simpl; rewrite ?E.
    all: repeat split; try done.
    all: by rewrite drop_app_length.
  - intros H. rewrite incoming_is_object. unfold incoming_object, received.
    assert (requisites.requisite_exists (postrequisites self) message = true)
      as ->.
    { apply bool_decide_eq_true. apply bool_decide_eq_true in H.
      by rewrite H. }
    rewrite (requisites_facts.set_satisfied_id _ _ H).
    by destruct (requisites.all_satisfied _).
Qed.

Section calls.

Variable fuzzy_matches : string -> string -> bool.

Local Abbreviation invoke := (invoke fuzzy_matches).
Local Abbreviation abdications := (abdications fuzzy_matches).
Local Abbreviation reachable := (reachable fuzzy_matches).

(** No call changes the class, the reference time or the flag
    [abdicated], apart from [abdicate] setting it; and the state moves
    only from waiting to running or to finished. *)
Lemma invoke_abdicated c self w :
  abdicated self = true -> abdicated (self_of (invoke c self w)) = true.
Proof.
  intros H. destruct c; simpl; try done.
  - destruct (run_if_ready_self self tasks dummy_clock_rate w)
      as [->|[_ ->]]; done.
  - rewrite (surjective_pairing (abdicate self)). simpl.
    rewrite abdicate_object. by destruct (abdicate self).2.
  - rewrite (surjective_pairing (incoming self priority message w)). simpl.
    rewrite incoming_is_object. unfold incoming_object.
    by destruct (requisites.all_satisfied _).
  - by destruct (nearest_ref_time (cls self) rt w).
Qed.

Lemma invoke_abdicated_finished c self w :
  abdicated_finished self -> abdicated_finished (self_of (invoke c self w)).
Proof.
  unfold abdicated_finished.
  intros H. destruct c; simpl; try done.
  - destruct (run_if_ready_self self tasks dummy_clock_rate w)
      as [->|[Hw ->]]; [done|].
    simpl. intros Ha. specialize (H Ha). congruence.
  - rewrite (surjective_pairing (abdicate self)). simpl.
    rewrite abdicate_object.
    destruct (abdicate self).2 eqn:E; [|done].
    apply abdicate_true in E as [? _]. done.
  - rewrite (surjective_pairing (incoming self priority message w)). simpl.
    rewrite incoming_is_object. unfold incoming_object.
    by destruct (requisites.all_satisfied _).
  - by destruct (nearest_ref_time (cls self) rt w).
Qed.

Lemma abdications_none cs self w :
  abdicated self = true -> abdications cs self w = 0%nat.
Proof.
  revert self w. induction cs as [|c cs IH]; intros self w H; [done|].
  simpl. rewrite IH by by apply invoke_abdicated.
  destruct c; try done. simpl.
  rewrite (surjective_pairing (abdicate self)). simpl.
  destruct (abdicate self).2 eqn:E; [|done].
  apply abdicate_true in E as [_ ?]. congruence.
Qed.

Lemma abdications_at_most_once cs self w : (abdications cs self w <= 1)%nat.
Proof.
  revert self w. induction cs as [|c cs IH]; intros self w; [simpl; lia|].
  simpl. specialize (IH (self_of (invoke c self w)) (world_of (invoke c self w))).
  destruct c; try (simpl in *; lia).
  simpl in *. rewrite (surjective_pairing (abdicate self)) in *. simpl in *.
  rewrite abdicate_object in *.
  destruct (abdicate self).2 eqn:E; [|lia].
  pose proof (abdications_none cs (with_abdicated self true) w eq_refl). 
  unfold abdications in *. lia.
Qed.

(** C7.  [abdicate] returns [True] exactly when the state is finished and
    [abdicated] is false, and then sets [abdicated]; otherwise it changes
    nothing.  In any sequence of calls on one object at most one call of
    [abdicate] returns [True], and every call keeps the invariant that an
    abdicated object is finished. *)
Theorem abdicate_once (self : task) (w : world) :
  ((abdicate self).2 = true
   <-> state self = finished /\ abdicated self = false)
  /\ ((abdicate self).2 = true -> (abdicate self).1 = with_abdicated self true)
  /\ ((abdicate self).2 = false -> (abdicate self).1 = self)
  /\ (forall cs, (abdications cs self w <= 1)%nat)
  /\ (forall c, abdicated_finished self ->
        abdicated_finished (self_of (invoke c self w))).
Proof.
  split; [apply abdicate_true|].
  split; [intros H; by rewrite abdicate_object, H|].
  split; [intros H; by rewrite abdicate_object, H|].
  split; [intros cs; apply abdications_at_most_once|].
  intros c. apply invoke_abdicated_finished.
Qed.

(** *** State and postrequisites *)

Lemma consistent_init self initial_state w :
  requisites.fresh (postrequisites self) ->
  result_of (init self initial_state w) = Returned () ->
  consistent (self_of (init self initial_state w)).
Proof.
  intros Hfresh%requisites_facts.fresh_not_all_satisfied.
  assert (result_of (task_base_init self initial_state w) = Returned () ->
          consistent (self_of (task_base_init self initial_state w))) as Hbase.
  { unfold task_base_init, consistent.
    destruct initial_state as [s|]; simpl; [|by rewrite Hfresh].
    repeat case_decide; simpl; rewrite ?Hfresh; try done.
    by rewrite requisites_facts.all_satisfied_set_all. }
  unfold init, runahead_task_base_init.
  destruct (base_of (cls self)); [done|].
  destruct (result_of (task_base_init self initial_state w)) eqn:E; simpl;
    rewrite ?E; try done.
  intros _. apply Hbase. by destruct a.
Qed.

Lemma consistent_incoming self message :
  consistent self -> consistent (incoming_object self message).
Proof.
  unfold consistent, incoming_object, received. intros H.
  destruct (requisites.all_satisfied
    (if requisites.requisite_exists (postrequisites self) message
     then requisites.set_satisfied (postrequisites self) message
     else postrequisites self)) eqn:E; simpl; rewrite E; [done|].
  split; [|done]. intros Hs%H. 
  destruct (requisites.requisite_exists _ _); [|congruence].
  apply (requisites_facts.all_satisfied_mono _ message) in Hs. congruence.
Qed.

Lemma consistent_invoke c self w :
  c <> call_set_finished ->
  consistent self -> consistent (self_of (invoke c self w)).
Proof.
  intros Hc H. destruct c; simpl; try done.
  - destruct (run_if_ready_self self tasks dummy_clock_rate w)
      as [->|[Hw ->]]; [done|].
    unfold consistent in *. simpl. rewrite Hw in H.
    split; [done|]. intros Hs%H. done.
  - rewrite (surjective_pairing (abdicate self)). simpl.
    rewrite abdicate_object. by destruct (abdicate self).2.
  - rewrite (surjective_pairing (incoming self priority message w)). simpl.
    rewrite incoming_is_object. by apply consistent_incoming.
  - by destruct (nearest_ref_time (cls self) rt w).
Qed.

Lemma reachable_consistent self : reachable self -> consistent self.
Proof.
  induction 1 as [self initial_state w Hf Hr|self c w _ IH Hc].
  - by apply consistent_init.
  - by apply consistent_invoke.
Qed.

(** C3.  For every task object the scheduler can hold: the state is
    finished exactly when all postrequisites are satisfied, and so it is
    again after any call of [incoming]; and [incoming] finishes a running
    object exactly when the message names a postrequisite and every other
    postrequisite is satisfied already, which before the call was not the
    case for all of them. *)
Theorem finished_iff_all_satisfied (self : task) :
  reachable self ->
  consistent self
  /\ forall priority message w,
       let self' := (incoming self priority message w).1 in
       consistent self'
       /\ (state self = running ->
           requisites.all_satisfied (postrequisites self) = false
           /\ (state self' = finished
               <-> requisites.requisite_exists (postrequisites self) message
                   = true
                   /\ forall tk b,
                        tk <> message ->
                        requisites.flags (postrequisites self) !! tk = Some b ->
                        b = true)).
Proof.
  intros Hreach. pose proof (reachable_consistent _ Hreach) as Hcons.
  split; [done|]. intros priority message w self'. subst self'.
  rewrite incoming_is_object.
  split; [by apply consistent_incoming|].
  intros Hrun.
  assert (requisites.all_satisfied (postrequisites self) = false) as Hnot.
  { apply not_true_iff_false. intros Hs%Hcons. congruence. }
  split; [done|].
  unfold incoming_object, received.
  destruct (requisites.requisite_exists (postrequisites self) message) eqn:Hex.
  - rewrite <- requisites_facts.all_satisfied_set_satisfied.
    destruct (requisites.all_satisfied
                (requisites.set_satisfied (postrequisites self) message));
      simpl; [done|]. rewrite Hrun. split; [done|]. by intros [_ ?].
  - rewrite Hnot. simpl. rewrite Hrun. split; [done|]. by intros [? _].
Qed.

(** *** Initial states *)

(** C6, as amended.  An accepted initial state lets the initialiser
    return; any other state string makes it log one critical line and call
    [sys.exit(1)]: the object is not handed back, and whatever the caller
    would do next ([k]) is not done, the exit request is what is left. *)
Theorem unknown_initial_state_exits (self : task)
    (initial_state : option string) (w : world) :
  let r := init self initial_state w in
  (accepted initial_state -> result_of r = Returned ())
  /\ (forall s, initial_state = Some s -> ~ accepted initial_state ->
        result_of r = Exited 1
        /\ trace (world_of r)
           = trace w ++ [Log CRITICAL ("main." +:+ name self)
                           ("unknown initial task state: " +:+ s)]
        /\ forall (B : Type) (k : unit -> outcome B),
             (result_of r ≫= k) = Exited 1).
Proof.
  assert (forall s, initial_state = Some s -> ~ accepted initial_state ->
            task_base_init self initial_state w
            = After (with_abdicated (with_latest_message self "") false)
                (log CRITICAL self ("unknown initial task state: " +:+ s)
                   (set_processing_required true w))
                (Exited 1)) as Hbad.
  { intros s -> Hn. unfold task_base_init. simpl in Hn.
    repeat case_decide; try done; exfalso; apply Hn; auto. }
  assert (accepted initial_state ->
          result_of (task_base_init self initial_state w) = Returned ())
    as Hgood.
  { unfold task_base_init. destruct initial_state as [s|]; [|done].
    simpl. intros [-> | [-> | [-> | ->]]]; done. }
  unfold init, runahead_task_base_init. split.
  - intros Ha. specialize (Hgood Ha).
    destruct (base_of (cls self)); [done|]. by rewrite Hgood.
  - intros s Hs Hn. specialize (Hbad s Hs Hn).
    destruct (base_of (cls self)); rewrite Hbad; simpl; done.
Qed.

End calls.



(** *** Valid hours *)

Lemma find_app {A} (f : A -> bool) l1 l2 :
  List.find f (l1 ++ l2)
  = match List.find f l1 with
    | Some x => Some x
    | None => List.find f l2
    end.
Proof. induction l1 as [|x l1 IH]; simpl; [done|]. by destruct (f x). Qed.

(** The first hour not before [rh] is its own first hour. *)
Lemma first_hour_idem l rh vh :
  List.find (fun x => rh <=? x) l = Some vh ->
  List.find (fun x => vh <=? x) l = Some vh.
Proof.
  induction l as [|x l IH]; simpl; [done|].
  destruct (Z.leb_spec rh x) as [Hle|Hgt].
  - intros [= ->]. by rewrite Z.leb_refl.
  - intros H. pose proof (find_some _ _ H) as [_ Hvh%Z.leb_le].
    rewrite (proj2 (Z.leb_gt vh x)) by lia. by apply IH.
Qed.

(** In an ascending list an hour that is listed is its own first hour. *)
Lemma first_hour_member D rest rh :
  StronglySorted Z.le D -> rh ∈ D ->
  List.find (fun x => rh <=? x) (D ++ rest) = Some rh.
Proof.
  induction 1 as [|x D _ IH Hx]; intros Hin; [by apply elem_of_nil in Hin|].
  simpl. apply elem_of_cons in Hin as [->|Hin].
  - by rewrite Z.leb_refl.
  - destruct (Z.leb_spec rh x) as [Hle|Hgt]; [|by apply IH].
    rewrite Forall_forall in Hx. apply Hx in Hin.
    f_equal. lia.
Qed.

Lemma declared_valid_hours_shape c :
  exists d0 D',
    declared_valid_hours c = d0 :: D'
    /\ Forall (fun v => 0 <= v <= 23) (declared_valid_hours c)
    /\ StronglySorted Z.le (declared_valid_hours c).
Proof.
  destruct c; vm_compute declared_valid_hours; do 2 eexists;
    (split; [reflexivity|]);
    (split; [repeat constructor; lia | repeat constructor; lia]).
Qed.


Lemma valid_hours_set c l w : valid_hours (set_valid_hours c l w) c = l.
Proof. simpl. by rewrite decide_True. Qed.

Lemma valid_hours_set_ne c c' l w :
  c' <> c -> valid_hours (set_valid_hours c l w) c' = valid_hours w c'.
Proof. intros H. simpl. by rewrite decide_False. Qed.

Lemma grown_valid_hours_S c k :
  grown_valid_hours c (S k)
  = grown_valid_hours c k
      ++ [24 + default 0 (head (declared_valid_hours c))].
Proof.
  unfold grown_valid_hours. by rewrite replicate_S_end, app_assoc.
Qed.

Lemma head_grown_valid_hours c k :
  head (grown_valid_hours c k) = head (declared_valid_hours c).
Proof.
  unfold grown_valid_hours.
  destruct (declared_valid_hours_shape c) as (d0 & D' & -> & _). done.
Qed.

(** What [nearest_ref_time] does on a well-formed stamp when the class
    list has been grown [k] times: the list grows once more, and the stamp
    is moved to the first hour of the grown list that is not earlier. *)
Lemma nearest_ref_time_grown c rt w k s :
  valid_hours w c = grown_valid_hours c k ->
  reference_time.parse rt = Some s ->
  nearest_ref_time c rt w
  = (set_valid_hours c (grown_valid_hours c (S k)) w,
     match List.find (fun vh => reference_time.hour s <=? vh)
             (grown_valid_hours c (S k)) with
     | Some vh =>
         reference_time.increment rt (vh - reference_time.hour s)
     | None => Raised TypeError
     end).
Proof.
  intros Hw Hs. unfold nearest_ref_time, int.
  rewrite (reference_time_facts.int_of_hour_field _ _ Hs).
  rewrite grown_valid_hours_S, <- Hw.
  pose proof (head_grown_valid_hours c k) as Hh. rewrite <- Hw in Hh.
  rewrite <- Hh.
  assert (valid_hours w c <> []) as Hne.
  { rewrite Hw. unfold grown_valid_hours.
    destruct (declared_valid_hours_shape c) as (d0 & D' & -> & _). done. }
  destruct (valid_hours w c) as [|first_vh rest]; done.
Qed.

Lemma hours_grown_initial : hours_grown initial_world.
Proof.
  intros c. exists O. unfold grown_valid_hours. simpl.
  by rewrite app_nil_r.
Qed.

Lemma hours_grown_nearest c rt w :
  hours_grown w -> hours_grown (nearest_ref_time c rt w).1.
Proof.
  intros H. unfold nearest_ref_time.
  destruct (int _); [|done|done].
  destruct (valid_hours w c) as [|first_vh rest] eqn:E; [done|].
  unfold fst. intros c'. destruct (decide (c' = c)) as [->|Hne].
  - destruct (H c) as [k Hk]. exists (S k).
    rewrite grown_valid_hours_S, <- Hk, E.
    pose proof (head_grown_valid_hours c k) as Hh. rewrite <- Hk, E in Hh.
    rewrite <- Hh. simpl. by rewrite decide_True.
  - simpl. rewrite decide_False by done. apply H.
Qed.


(** Only [nearest_ref_time] writes the class lists. *)
Lemma run_if_ready_valid_hours self tasks rate w :
  valid_hours (world_of (run_if_ready self tasks rate w)) = valid_hours w.
Proof.
  assert (valid_hours (world_of (task_base_run_if_ready self tasks rate w))
          = valid_hours w) as Hbase.
  { unfold task_base_run_if_ready, run_external_dummy, run_external_task,
      topnet_run_external_dummy, task_base_run_external_dummy.
    repeat case_match; done. }
  unfold run_if_ready, runahead_task_base_run_if_ready.
  repeat case_match; done.
Qed.

Section shared_state.

Variable fuzzy_matches : string -> string -> bool.

Lemma hours_grown_invoke c self w :
  hours_grown w -> hours_grown (world_of (invoke fuzzy_matches c self w)).
Proof.
  intros H. destruct c; simpl; try done.
  - intros c. rewrite run_if_ready_valid_hours. apply H.
  - by destruct (abdicate self).
  - pose proof (incoming_world self priority message w) as (_ & _ & _ & Hv).
    destruct (incoming self priority message w) as [s w']. simpl in *.
    intros c. rewrite Hv. apply H.
  - pose proof (hours_grown_nearest (cls self) rt w H) as Hn.
    by destruct (nearest_ref_time (cls self) rt w).
Qed.

End shared_state.

(** The hour the search settles on in a grown list. *)
Lemma first_hour_grown c k rh :
  0 <= rh <= 23 ->
  exists vh,
    List.find (fun x => rh <=? x) (grown_valid_hours c (S k)) = Some vh
    /\ rh <= vh <= 47
    /\ List.find (fun x => vh mod 24 <=? x) (grown_valid_hours c (S (S k)))
       = Some (vh mod 24).
Proof.
  intros Hrh.
  destruct (declared_valid_hours_shape c) as (d0 & D' & HD & Hrange & _).
  assert (0 <= d0 <= 23) as Hd0.
  { pose proof Hrange as Hr'. rewrite HD in Hr'. by apply Forall_inv in Hr'. }
  assert (exists vh,
            List.find (fun x => rh <=? x) (grown_valid_hours c (S k)) = Some vh)
    as [vh Hvh].
  { unfold grown_valid_hours. rewrite find_app.
    destruct (List.find _ (declared_valid_hours c)); [eauto|].
    rewrite HD. simpl. rewrite (proj2 (Z.leb_le rh (24 + d0))) by lia. eauto. }
  exists vh. split; [done|].
  pose proof (find_some _ _ Hvh) as [Hin Hle%Z.leb_le].
  apply list_elem_of_In in Hin. unfold grown_valid_hours in Hin.
  apply elem_of_app in Hin as [Hin|Hin].
  - rewrite Forall_forall in Hrange. specialize (Hrange _ Hin). simpl in Hrange.
    split; [lia|]. rewrite Z.mod_small by lia.
    rewrite (grown_valid_hours_S c (S k)), find_app.
    by rewrite (first_hour_idem _ _ _ Hvh).
  - apply elem_of_replicate_inv in Hin. rewrite HD in Hin. simpl in Hin.
    subst vh. split; [lia|].
    replace ((24 + d0) mod 24) with d0
      by (rewrite Z.add_comm, <- (Z.mul_1_l 24) at 1;
          rewrite Z_mod_plus_full; symmetry; apply Z.mod_small; lia).
    unfold grown_valid_hours. rewrite HD. simpl. by rewrite Z.leb_refl.
Qed.

(** C4.  On a well-formed stamp, for an object of any class, whatever
    number of earlier calls has grown the class list: when the hour of the
    stamp is one of the valid hours the stamp comes back unchanged;
    whenever a stamp comes back, a second call on it gives it back again;
    and a stamp does come back unless the stamp lies in the year 9999. *)
Theorem nearest_ref_time_idempotent (c : task_class) (w : world)
    (rt : string) :
  hours_grown w ->
  reference_time.well_formed rt ->
  (forall h, int_of_str (slice 8 10 rt) = Some h -> h ∈ valid_hours w c ->
     (nearest_ref_time c rt w).2 = Returned rt)
  /\ (forall w1 rt1, nearest_ref_time c rt w = (w1, Returned rt1) ->
        (nearest_ref_time c rt1 w1).2 = Returned rt1)
  /\ (forall s, reference_time.parse rt = Some s ->
        reference_time.year s < 9999 ->
        exists rt1, (nearest_ref_time c rt w).2 = Returned rt1).
Proof.
  intros Hw [s Hs]. destruct (Hw c) as [k Hk].
  pose proof Hs as (_ & _ & Hv & _)%reference_time_facts.parse_inv.
  pose proof Hv as (By & _ & _ & Bh)%reference_time_facts.valid_bounds.
  rewrite (nearest_ref_time_grown c rt w k s Hk Hs). simpl.
  destruct (first_hour_grown c k (reference_time.hour s) Bh)
    as (vh & Hvh & Hrange & Hagain).
  split; [|split].
  - intros h Hh Hin.
    rewrite (reference_time_facts.int_of_hour_field _ _ Hs) in Hh.
    injection Hh as <-. rewrite Hk in Hin. unfold grown_valid_hours in *.
    destruct (declared_valid_hours_shape c) as (d0 & D' & HD & HR & Hsorted).
    assert (0 <= d0 <= 23) as Hd0.
    { pose proof HR as Hr'. rewrite HD in Hr'. by apply Forall_inv in Hr'. }
    apply elem_of_app in Hin as [Hin|Hin].
    + rewrite (first_hour_member _ _ _ Hsorted Hin), Z.sub_diag.
      apply reference_time_facts.increment_0. by exists s.
    + apply elem_of_replicate_inv in Hin. rewrite HD in Hin. simpl in Hin. lia.
  - intros w1 rt1 [= <- Hret]. rewrite Hvh in Hret.
    destruct (reference_time_facts.increment_returned _ _ _ _ Hs Hret)
      as (s1 & Hs1 & Hh1).
    replace (reference_time.hour s + (vh - reference_time.hour s))
      with vh in Hh1 by lia.
    rewrite (nearest_ref_time_grown c rt1 _ (S k) s1);
      [|apply valid_hours_set|done].
    simpl. rewrite Hh1, Hagain, Z.sub_diag.
    apply reference_time_facts.increment_0. by exists s1.
  - intros s' Hs' Hy. rewrite Hs in Hs'. injection Hs' as <-.
    rewrite Hvh. apply (reference_time_facts.increment_returns _ _ s);
      [done|lia|].
    replace (reference_time.hour s + (vh - reference_time.hour s))
      with vh by lia.
    assert (vh / 24 <= 1) by (apply Z.lt_succ_r, Z.div_lt_upper_bound; lia).
    lia.
Qed.


Lemma nearest_ref_time_idempotent_witness :
  (nearest_ref_time nzlam "2011010103" initial_world).2
  = Returned "2011010106"
  /\ (nearest_ref_time nzlam "2011010106"
        (nearest_ref_time nzlam "2011010103" initial_world).1).2
     = Returned "2011010106".
Proof.
  split; [vm_compute; reflexivity|].
  refine (proj1 (proj2 (nearest_ref_time_idempotent nzlam initial_world
                          "2011010103" hours_grown_initial _)) _ _ _).
  - eexists. vm_compute. reflexivity.
  - apply injective_projections; [reflexivity | vm_compute; reflexivity].
Defined.

(** Every call on a well-formed stamp grows the class list by one hour
    beyond 23. *)
Lemma nearest_ref_time_appends c rt w first_vh rest :
  reference_time.well_formed rt ->
  valid_hours w c = first_vh :: rest ->
  valid_hours (nearest_ref_time c rt w).1 c
  = valid_hours w c ++ [24 + first_vh].
Proof.
  intros [s Hs] Hw. unfold nearest_ref_time, int.
  rewrite (reference_time_facts.int_of_hour_field _ _ Hs), Hw.
  apply valid_hours_set.
Qed.

(** C5: the code at the failing input.  The class list of [downloader]
    is [0; 6; 12; 18] before a call of [nearest_ref_time] and
    [0; 6; 12; 18; 24] after it; for [globalprep], whose list has one
    hour, [next_ref_time] no longer finds a list of length one. *)
Theorem nearest_ref_time_changes_valid_hours :
  valid_hours initial_world downloader = [0; 6; 12; 18]
  /\ (nearest_ref_time downloader "2011010100" initial_world).2
     = Returned "2011010100"
  /\ valid_hours (nearest_ref_time downloader "2011010100" initial_world).1
       downloader
     = [0; 6; 12; 18; 24]
  /\ valid_hours (nearest_ref_time globalprep "2011010100" initial_world).1
       globalprep
     = [0; 24].
Proof. repeat split. Qed.


(** *** Instances *)

Lemma earlier_unfinished_blocks_witness :
  let A := sample_nzlam "2011010100" running in
  let B := with_prerequisites (sample_nzlam "2011010106" waiting)
             (requisites.set_all_satisfied
                (prerequisites (sample_nzlam "2011010106" waiting))) in
  self_of (run_if_ready B [A; B] (Some 10) initial_world) = B
  /\ launches (trace (world_of (run_if_ready B [A; B] (Some 10) initial_world)))
     = []
  /\ result_of (run_if_ready B [A; B] (Some 10) initial_world) = Returned ().
Proof.
  intros A B.
  destruct (earlier_unfinished_blocks B A [A; B] (Some 10) initial_world
              2011010100 2011010106) as (H1 & H2 & H3).
  - constructor.
  - reflexivity.
  - discriminate.
  - reflexivity.
  - reflexivity.
  - reflexivity.
  - split; [exact H1|]. split; [exact H2|]. apply H3.
    repeat constructor; eexists; reflexivity.
Defined.

Lemma runahead_hold_witness :
  let self := sample_downloader "2011010200" in
  let old rt := with_state (sample_downloader rt) finished in
  let pool := [old "2011010100"; old "2011010106"; old "2011010112";
               old "2011010118"; self] in
  requisites.all_satisfied (prerequisites self) = true
  /\ finished_count self pool = 4
  /\ self_of (run_if_ready self pool (Some 10) initial_world) = self
  /\ trace (world_of (run_if_ready self pool (Some 10) initial_world)) = [].
Proof.
  intros self old pool.
  destruct (runahead_hold self pool (Some 10) initial_world eq_refl eq_refl)
    as (_ & H & _).
  assert (finished_count self pool = 4) as Hcount by reflexivity.
  destruct H as (H1 & H2 & _); [rewrite Hcount; unfold MAX_FINISHED; lia|].
  split; [reflexivity|]. split; [exact Hcount|]. split; [exact H1|].
  by rewrite H2.
Defined.

Lemma finished_iff_all_satisfied_witness :
  consistent
    (self_of (init (sample_downloader "2011010100") (Some "waiting")
                initial_world)).
Proof.
  refine (proj1 (finished_iff_all_satisfied (fun _ _ => false) _
                   (reachable_init _ _ _ _ _ _))).
  - apply requisites_facts.fresh_make. discriminate.
  - reflexivity.
Defined.

(** C6 as stated fails: an unknown initial state does not end in an error
    of the one operation, it ends in [sys.exit(1)], and what the caller
    would do next is not done. *)
Lemma unknown_initial_state_exits_process :
  result_of (init (sample_nzlam "2011010100" waiting) (Some "running")
               initial_world)
  = Exited 1
  /\ (result_of (init (sample_nzlam "2011010100" waiting) (Some "running")
                  initial_world)
      ≫= (fun _ => Returned "the scheduler loop goes on"))
     = Exited 1.
Proof. split; reflexivity. Qed.

(** The cold start of a downloader at 00Z: it runs at once, finishes when
    its last postrequisite is reported, and abdicates once. *)
Example downloader_cold_start :
  let d0 := self_of (init (sample_downloader "2011010100") (Some "waiting")
                       initial_world) in
  let d1 := self_of (run_if_ready d0 [d0] (Some 10) initial_world) in
  let d2 := (incoming d1 "NORMAL" "downloader started for 2011010100"
               initial_world).1 in
  let d3 := (incoming d2 "NORMAL" "downloader finished for 2011010100"
               initial_world).1 in
  state d0 = waiting /\ state d1 = running /\ state d2 = running
  /\ state d3 = finished
  /\ (abdicate d3).2 = true
  /\ (abdicate (abdicate d3).1).2 = false
  /\ next_ref_time d3 initial_world = Returned "2011010106".
Proof. repeat split. Qed.

(** ** More on task objects *)

(** *** The nearest and the next valid time *)

Lemma find_split {A} (f : A -> bool) l x :
  List.find f l = Some x ->
  exists l1 l2, l = l1 ++ x :: l2 /\ Forall (fun y => f y = false) l1
                /\ f x = true.
Proof.
  induction l as [|y l IH]; simpl; [done|].
  destruct (f y) eqn:E.
  - intros [= ->]. by exists [], l.
  - intros (l1 & l2 & -> & H1 & H2)%IH. exists (y :: l1), l2.
    repeat split; [by constructor | done].
Qed.

Lemma find_none_Forall {A} (f : A -> bool) l :
  List.find f l = None -> Forall (fun y => f y = false) l.
Proof.
  induction l as [|y l IH]; simpl; [constructor|].
  destruct (f y) eqn:E; [done|]. intros H. constructor; auto.
Qed.

Lemma declared_valid_hours_strict c :
  exists d0 D',
    declared_valid_hours c = d0 :: D'
    /\ Forall (fun v => 0 <= v <= 23) (declared_valid_hours c)
    /\ StronglySorted Z.lt (declared_valid_hours c).
Proof.
  destruct c; vm_compute declared_valid_hours; do 2 eexists;
    (split; [reflexivity|]);
    (split; [repeat constructor; lia | repeat constructor; lia]).
Qed.

Lemma sorted_head_least d0 D' v :
  StronglySorted Z.lt (d0 :: D') -> v ∈ d0 :: D' -> d0 <= v.
Proof.
  intros H Hv. apply StronglySorted_inv in H as [_ H].
  apply elem_of_cons in Hv as [->|Hv]; [lia|].
  rewrite Forall_forall in H. specialize (H _ Hv). lia.
Qed.

Lemma sorted_middle l1 x l2 v :
  StronglySorted Z.lt (l1 ++ x :: l2) -> v ∈ l1 ++ x :: l2 ->
  (v ∈ l1 /\ v < x) \/ v = x \/ (v ∈ l2 /\ x < v).
Proof.
  induction l1 as [|y l1 IH]; simpl; intros H Hv.
  - apply StronglySorted_inv in H as [_ H].
    apply elem_of_cons in Hv as [->|Hv]; [auto|].
    rewrite Forall_forall in H. right. right. split; [done|]. by apply H.
  - apply StronglySorted_inv in H as [Hs H].
    apply elem_of_cons in Hv as [->|Hv].
    + left. split; [left|]. rewrite Forall_forall in H. apply H.
      apply elem_of_app. right. left.
    + destruct (IH Hs Hv) as [[? ?]|[?|[? ?]]]; auto.
      left. split; [by right|done].
Qed.


Lemma mod_24_wrap x : 24 <= x < 48 -> x mod 24 = x - 24.
Proof.
  intros H. replace x with ((x - 24) + 1 * 24) at 1 by lia.
  rewrite Z_mod_plus_full. apply Z.mod_small. lia.
Qed.

(** The hour the search of [nearest_ref_time] settles on is the earliest
    valid hour from [rh] on, today or tomorrow. *)
Lemma first_hour_earliest c k rh :
  0 <= rh <= 23 ->
  exists vh,
    List.find (fun x => rh <=? x) (grown_valid_hours c (S k)) = Some vh
    /\ 0 <= vh - rh <= 23
    /\ vh mod 24 ∈ declared_valid_hours c
    /\ forall m, 0 <= m < vh - rh ->
         (rh + m) mod 24 ∉ declared_valid_hours c.
Proof.
  intros Hrh. unfold grown_valid_hours.
  destruct (declared_valid_hours_strict c) as (d0 & D' & HD & Hrange & Hs).
  rewrite Forall_forall in Hrange.
  assert (d0 ∈ declared_valid_hours c) as Hd0 by (rewrite HD; left).
  pose proof (Hrange _ Hd0) as Bd0. simpl in Bd0.
  rewrite find_app.
  destruct (List.find _ (declared_valid_hours c)) as [vh|] eqn:E.
  - exists vh. split; [done|].
    destruct (find_split _ _ _ E) as (l1 & l2 & Hl & Hl1 & Hvh%Z.leb_le).
    assert (vh ∈ declared_valid_hours c) as Hin
      by (rewrite Hl; apply elem_of_app; right; left).
    pose proof (Hrange _ Hin) as Bvh. simpl in Bvh.
    split; [lia|]. rewrite Z.mod_small by lia. split; [done|].
    intros m Hm. rewrite Z.mod_small by lia. intros Hc.
    rewrite Hl in Hs, Hc.
    destruct (sorted_middle _ _ _ _ Hs Hc) as [[Hc1 _]|[?|[_ ?]]]; [|lia|lia].
    rewrite Forall_forall in Hl1. apply Hl1, Z.leb_gt in Hc1. lia.
  - apply find_none_Forall in E. rewrite Forall_forall in E.
    assert (head (declared_valid_hours c) = Some d0) as Hh by (by rewrite HD).
    rewrite Hh. simpl.
    pose proof (E _ Hd0) as Hlt%Z.leb_gt.
    rewrite (proj2 (Z.leb_le rh (24 + d0))) by lia.
    exists (24 + d0). split; [done|]. split; [lia|].
    rewrite mod_24_wrap by lia. replace (24 + d0 - 24) with d0 by lia.
    split; [done|].
    intros m Hm Hc. pose proof (Hrange _ Hc) as Bc. simpl in Bc.
    destruct (Z_lt_le_dec (rh + m) 24) as [Hsmall|Hbig].
    + rewrite Z.mod_small in Hc, Bc by lia.
      apply E, Z.leb_gt in Hc. lia.
    + rewrite mod_24_wrap in Hc by lia.
      rewrite HD in Hc, Hs. pose proof (sorted_head_least _ _ _ Hs Hc). lia.
Qed.

(** X1.  [nearest_ref_time] moves a well-formed stamp forward by the least
    number of hours, between 0 and 23, that brings its hour onto a valid
    hour of the class. *)
Theorem nearest_ref_time_earliest (c : task_class) (w : world)
    (rt : string) (s : reference_time.stamp) :
  hours_grown w ->
  reference_time.parse rt = Some s ->
  exists n,
    (nearest_ref_time c rt w).2 = reference_time.increment rt n
    /\ 0 <= n <= 23
    /\ (reference_time.hour s + n) mod 24 ∈ declared_valid_hours c
    /\ forall m, 0 <= m < n ->
         (reference_time.hour s + m) mod 24 ∉ declared_valid_hours c.
Proof.
  intros Hw Hs. destruct (Hw c) as [k Hk].
  pose proof Hs as (_ & _ & Hv & _)%reference_time_facts.parse_inv.
  pose proof Hv as (_ & _ & _ & Bh)%reference_time_facts.valid_bounds.
  rewrite (nearest_ref_time_grown c rt w k s Hk Hs). simpl.
  destruct (first_hour_earliest c k _ Bh) as (vh & -> & Hn & Hin & Hmin).
  exists (vh - reference_time.hour s). split; [done|]. split; [done|].
  replace (reference_time.hour s + (vh - reference_time.hour s)) with vh
    by lia.
  done.
Qed.

Lemma nearest_ref_time_earliest_witness :
  exists n,
    (nearest_ref_time ricom "2011123120" initial_world).2
    = reference_time.increment "2011123120" n
    /\ 0 <= n <= 23
    /\ (20 + n) mod 24 ∈ declared_valid_hours ricom
    /\ forall m, 0 <= m < n -> (20 + m) mod 24 ∉ declared_valid_hours ricom.
Proof.
  exact (nearest_ref_time_earliest ricom initial_world "2011123120"
           {| reference_time.year := 2011; reference_time.month := 12;
              reference_time.day := 31; reference_time.hour := 20 |}
           hours_grown_initial eq_refl).
Defined.


Lemma sorted_split l1 x l2 :
  StronglySorted Z.lt (l1 ++ x :: l2) ->
  Forall (fun v => v < x) l1 /\ Forall (fun v => x < v) l2
  /\ StronglySorted Z.lt l2.
Proof.
  induction l1 as [|y l1 IH]; simpl; intros H.
  - apply StronglySorted_inv in H as [? ?]. by repeat split.
  - apply StronglySorted_inv in H as [Hs Hy].
    destruct (IH Hs) as (H1 & H2 & H3). repeat split; [|done|done].
    constructor; [|done]. rewrite Forall_forall in Hy. apply Hy.
    apply elem_of_app. right. left.
Qed.

Lemma index_app_here x l1 l2 :
  x ∉ l1 -> index x (l1 ++ x :: l2) = Some (length l1).
Proof.
  induction l1 as [|y l1 IH]; simpl; intros Hx.
  - by rewrite decide_True.
  - apply not_elem_of_cons in Hx as [Hne Hx].
    rewrite decide_False by done. by rewrite IH.
Qed.

Lemma item_lookup l i x : l !! i = Some x -> item l i = Returned x.
Proof. unfold item. by intros ->. Qed.

(** The number of hours [next_ref_time] adds, for an object whose hour [rh]
    is a declared hour of its class and whose class list has been grown
    [k] times. *)
Lemma next_increment c k rh rt :
  rh ∈ declared_valid_hours c ->
  int_of_str (slice 8 10 rt) = Some rh ->
  let vhs := grown_valid_hours c k in
  exists n,
    (if decide (length vhs = 1%nat) then Returned 24
     else
       rh' ← int (of_str (slice 8 10 rt));
       match index rh' vhs with
       | None => Raised ValueError
       | Some i_now =>
           if decide (i_now < length vhs - 1)%nat then
             a ← item vhs (i_now + 1);
             b ← item vhs i_now;
             mret (a - b)
           else
             a ← item vhs 0;
             b ← item vhs i_now;
             mret (a + 24 - b)
       end) = Returned n
    /\ 1 <= n <= 24
    /\ (rh + n) mod 24 ∈ declared_valid_hours c
    /\ forall m, 1 <= m < n -> (rh + m) mod 24 ∉ declared_valid_hours c.
Proof.
  intros Hin Hint vhs.
  destruct (declared_valid_hours_strict c) as (d0 & D' & HD & Hrange & Hs).
  rewrite Forall_forall in Hrange.
  assert (d0 ∈ declared_valid_hours c) as Hd0 by (rewrite HD; left).
  pose proof (Hrange _ Hd0) as Bd0. pose proof (Hrange _ Hin) as Brh.
  simpl in Bd0, Brh.
  assert (head (declared_valid_hours c) = Some d0) as Hh by (by rewrite HD).
  assert (d0 <= rh) as Hleast.
  { rewrite HD in Hs, Hin. by eapply sorted_head_least. }
  destruct (list_elem_of_split _ _ Hin) as (l1 & l2 & Hl).
  assert (forall v, v ∈ declared_valid_hours c ->
            (v ∈ l1 /\ v < rh) \/ v = rh \/ (v ∈ l2 /\ rh < v)) as Hmid.
  { intros v Hv. rewrite Hl in Hs, Hv. by apply sorted_middle. }
  pose proof Hs as Hsplit. rewrite Hl in Hsplit.
  apply sorted_split in Hsplit as (Hbefore & Hafter & Hs2).
  rewrite Forall_forall in Hbefore, Hafter.
  assert (rh ∉ l1) as Hnot.
  { intros Hc. specialize (Hbefore _ Hc). simpl in Hbefore. lia. }
  (* the wrap to the first hour of the next day *)
  assert (l2 = [] ->
          1 <= d0 + 24 - rh <= 24
          /\ (rh + (d0 + 24 - rh)) mod 24 ∈ declared_valid_hours c
          /\ forall m, 1 <= m < d0 + 24 - rh ->
               (rh + m) mod 24 ∉ declared_valid_hours c) as Hwrap.
  { intros ->. split; [lia|]. split.
    - replace (rh + (d0 + 24 - rh)) with (24 + d0) by lia.
      rewrite mod_24_wrap by lia. by replace (24 + d0 - 24) with d0 by lia.
    - intros m Hm Hc. pose proof (Hrange _ Hc) as Bc. simpl in Bc.
      destruct (Z_lt_le_dec (rh + m) 24) as [Hsmall|Hbig].
      + rewrite Z.mod_small in Hc by lia.
        destruct (Hmid _ Hc) as [[_ ?]|[?|[Hc2 _]]]; [lia|lia|].
        by apply elem_of_nil in Hc2.
      + rewrite mod_24_wrap in Hc by lia.
        rewrite HD in Hc, Hs. pose proof (sorted_head_least _ _ _ Hs Hc).
        lia. }
  assert (vhs = l1 ++ rh :: l2 ++ replicate k (24 + d0)) as Hv.
  { subst vhs. unfold grown_valid_hours. rewrite Hh. simpl default.
    rewrite Hl at 1. by rewrite <- app_assoc. }
  clearbody vhs. subst vhs.
  rewrite !length_app. simpl. rewrite !length_app, length_replicate.
  case_decide as Hone.
  { (* a list of one hour *)
    assert (l1 = [] /\ l2 = []) as [-> ->].
    { destruct l1, l2; simpl in Hone; try lia; done. }
    assert (d0 = rh) as ->.
    { rewrite HD in Hl. simpl in Hl. congruence. }
    exists 24. split; [done|]. destruct (Hwrap eq_refl) as (H1 & H2 & H3).
    replace (rh + 24 - rh) with 24 in * by lia. done. }
  unfold int. rewrite Hint, Py_facts.bind_returned.
  rewrite index_app_here by done.
  assert ((l1 ++ rh :: l2 ++ replicate k (24 + d0)) !! length l1 = Some rh)
    as Hi by (by rewrite list_lookup_middle).
  case_decide as Hlast.
  - destruct l2 as [|y l2].
    + (* the last declared hour, with a grown list *)
      destruct k as [|k]; [simpl in Hlast; lia|].
      assert ((l1 ++ rh :: [] ++ replicate (S k) (24 + d0))
                !! (length l1 + 1)%nat = Some (24 + d0)) as Hn.
      { rewrite lookup_app_r by lia.
        by replace (length l1 + 1 - length l1)%nat with 1%nat by lia. }
      rewrite (item_lookup _ _ _ Hn), (item_lookup _ _ _ Hi).
      exists (24 + d0 - rh). split; [done|].
      destruct (Hwrap eq_refl) as (H1 & H2 & H3).
      replace (d0 + 24 - rh) with (24 + d0 - rh) in * by lia. done.
    + (* a later declared hour follows *)
      assert ((l1 ++ rh :: (y :: l2) ++ replicate k (24 + d0))
                !! (length l1 + 1)%nat = Some y) as Hn.
      { rewrite lookup_app_r by lia.
        by replace (length l1 + 1 - length l1)%nat with 1%nat by lia. }
      rewrite (item_lookup _ _ _ Hn), (item_lookup _ _ _ Hi).
      assert (y ∈ declared_valid_hours c) as Hy.
      { rewrite Hl. apply elem_of_app. right. right. left. }
      pose proof (Hrange _ Hy) as By. simpl in By.
      assert (rh < y) as Hlt by (apply Hafter; left).
      exists (y - rh). split; [done|]. split; [lia|].
      replace (rh + (y - rh)) with y by lia.
      rewrite Z.mod_small by lia. split; [done|].
      intros m Hm. rewrite Z.mod_small by lia. intros Hc.
      destruct (Hmid _ Hc) as [[_ ?]|[?|[Hc2 _]]]; [lia|lia|].
      apply elem_of_cons in Hc2 as [?|Hc2]; [lia|].
      apply StronglySorted_inv in Hs2 as [_ Hs2].
      rewrite Forall_forall in Hs2. specialize (Hs2 _ Hc2). lia.
  - (* the last hour of a list that has not grown *)
    assert (l2 = [] /\ k = O) as [-> ->].
    { destruct l2, k; simpl in Hlast; try lia; done. }
    assert ((l1 ++ rh :: [] ++ replicate 0 (24 + d0)) !! 0%nat = Some d0)
      as H0.
    { simpl. rewrite HD in Hl. destruct l1; simpl in *; congruence. }
    rewrite (item_lookup _ _ _ H0), (item_lookup _ _ _ Hi).
    exists (d0 + 24 - rh). split; [done|]. by apply Hwrap.
Qed.


(** X2.  For an object whose reference time is well formed and lies on a
    valid hour of its class, [next_ref_time] adds the least number of
    hours, between 1 and 24, that leads to a valid hour again; and the
    hours that [nearest_ref_time] has appended to the class list do not
    change its result. *)
Theorem next_ref_time_next_valid (self : task) (w : world)
    (s : reference_time.stamp) :
  hours_grown w ->
  reference_time.parse (ref_time self) = Some s ->
  reference_time.hour s ∈ declared_valid_hours (cls self) ->
  (exists n,
     next_ref_time self w = reference_time.increment (ref_time self) n
     /\ 1 <= n <= 24
     /\ (reference_time.hour s + n) mod 24 ∈ declared_valid_hours (cls self)
     /\ forall m, 1 <= m < n ->
          (reference_time.hour s + m) mod 24
            ∉ declared_valid_hours (cls self))
  /\ next_ref_time self w = next_ref_time self initial_world.
Proof.
  intros Hw Hs Hin.
  pose proof (reference_time_facts.int_of_hour_field _ _ Hs) as Hint.
  assert (forall w', hours_grown w' ->
            exists n,
              next_ref_time self w'
              = reference_time.increment (ref_time self) n
              /\ 1 <= n <= 24
              /\ (reference_time.hour s + n) mod 24
                   ∈ declared_valid_hours (cls self)
              /\ forall m, 1 <= m < n ->
                   (reference_time.hour s + m) mod 24
                     ∉ declared_valid_hours (cls self)) as Hany.
  { intros w' Hw'. destruct (Hw' (cls self)) as [k Hk].
    destruct (next_increment (cls self) k _ (ref_time self) Hin Hint)
      as (n & Hn & Hrest).
    exists n. split; [|done]. unfold next_ref_time. rewrite Hk.
    cbv zeta in Hn. by rewrite Hn. }
  split; [by apply Hany|].
  destruct (Hany w Hw) as (n & -> & Bn & Hn & Hmin).
  destruct (Hany initial_world hours_grown_initial)
    as (n' & -> & Bn' & Hn' & Hmin').
  f_equal. destruct (Z.lt_trichotomy n n') as [Hlt|[?|Hgt]]; [|done|].
  - exfalso. apply (Hmin' n); [lia|done].
  - exfalso. apply (Hmin n'); [lia|done].
Qed.

Lemma next_ref_time_next_valid_witness :
  next_ref_time (sample_nzlam "2011123118" finished)
    (nearest_ref_time nzlam "2011123118" initial_world).1
  = next_ref_time (sample_nzlam "2011123118" finished) initial_world.
Proof.
  refine (proj2 (next_ref_time_next_valid
                   (sample_nzlam "2011123118" finished) _
                   {| reference_time.year := 2011; reference_time.month := 12;
                      reference_time.day := 31; reference_time.hour := 18 |}
                   _ _ _)).
  - apply hours_grown_nearest, hours_grown_initial.
  - reflexivity.
  - vm_compute declared_valid_hours. simpl. set_solver.
Defined.


(** *** Dispatch *)

Lemma blocked_by_none self tasks :
  (forall t, t ∈ tasks -> name t = name self -> state t <> finished ->
     exists a b, int_of_str (ref_time t) = Some a
                 /\ int_of_str (ref_time self) = Some b /\ b <= a) ->
  blocked_by self tasks = Returned None.
Proof.
  induction tasks as [|t rest IH]; intros H; [done|]. simpl.
  assert (blocked_by self rest = Returned None) as Hrest.
  { apply IH. intros t' Ht'. apply H. by right. }
  destruct (decide (name t = name self)) as [Hn|]; [|done].
  destruct (decide (state t <> finished)) as [Hs|]; [|done].
  destruct (H t ltac:(left) Hn Hs) as (a & b & Ha & Hb & Hle).
  unfold int. rewrite Ha, Hb, !Py_facts.bind_returned.
  by rewrite (proj2 (Z.ltb_ge a b)) by lia.
Qed.

Lemma launches_system cmd w :
  launches (trace (emit (System cmd) w)) = launches (trace w) ++ [cmd].
Proof. unfold emit. simpl. by rewrite launches_app. Qed.

(** What [run_if_ready] can do: nothing to the object and nothing to the
    shell, or the one step from waiting to running with one command. *)
Lemma run_if_ready_effect self tasks rate w :
  let r := run_if_ready self tasks rate w in
  (self_of r = self /\ launches (trace (world_of r)) = launches (trace w))
  \/ (state self = waiting
      /\ requisites.all_satisfied (prerequisites self) = true
      /\ truthy rate = true
      /\ self_of r = with_state self running
      /\ launches (trace (world_of r))
         = launches (trace w) ++ [dummy_command self rate]).
Proof.
  assert (let r := run_external_dummy self rate w in
          (self_of r = self /\ world_of r = w)
          \/ (self_of r = with_state self running
              /\ launches (trace (world_of r))
                 = launches (trace w) ++ [dummy_command self rate]))
    as Hdummy.
  { unfold run_external_dummy, topnet_run_external_dummy,
      task_base_run_external_dummy.
    repeat case_match; auto; right; (split; [done|]);
      cbv [world_of]; by rewrite launches_system, launches_log. }
  assert (let r := task_base_run_if_ready self tasks rate w in
          (self_of r = self
           /\ launches (trace (world_of r)) = launches (trace w))
          \/ (state self = waiting
              /\ requisites.all_satisfied (prerequisites self) = true
              /\ truthy rate = true
              /\ self_of r = with_state self running
              /\ launches (trace (world_of r))
                 = launches (trace w) ++ [dummy_command self rate]))
    as Hbase.
  { unfold task_base_run_if_ready, run_external_task. cbv zeta.
    destruct (blocked_by self tasks) as [[t|]| |]; cbn [self_of world_of].
    - left. split; [done|]. apply launches_log.
    - destruct (state self) eqn:Hst; cbn [self_of world_of]; auto.
      destruct (requisites.all_satisfied _) eqn:Hall;
        cbn [self_of world_of]; auto.
      destruct (truthy rate) eqn:Hrate; cbn [self_of world_of].
      + cbv zeta in Hdummy. destruct Hdummy as [[-> ->]|[-> ->]]; auto 10.
      + left. split; [done|]. apply launches_log.
    - auto.
    - auto. }
  unfold run_if_ready, runahead_task_base_run_if_ready.
  destruct (base_of (cls self)); [done|].
  case_match; [|done]. cbv zeta. cbn [self_of world_of]. auto.
Qed.

(** X3.  Outside dummy mode ([dummy_clock_rate] false) [run_if_ready]
    starts nothing: the object is left as it was, in particular not
    running, and no command reaches the shell, whatever the pool and the
    prerequisites. *)
Theorem run_if_ready_real_mode (self : task) (tasks : list task)
    (dummy_clock_rate : option Z) (w : world) :
  truthy dummy_clock_rate = false ->
  self_of (run_if_ready self tasks dummy_clock_rate w) = self
  /\ launches (trace (world_of (run_if_ready self tasks dummy_clock_rate w)))
     = launches (trace w).
Proof.
  intros Hrate.
  destruct (run_if_ready_effect self tasks dummy_clock_rate w)
    as [?|(_ & _ & Ht & _)]; [done|congruence].
Qed.

Lemma run_if_ready_real_mode_witness :
  let d := sample_downloader "2011010100" in
  requisites.all_satisfied (prerequisites d) = true
  /\ self_of (run_if_ready d [d] None initial_world) = d
  /\ launches (trace (world_of (run_if_ready d [d] None initial_world))) = [].
Proof.
  intros d. split; [reflexivity|].
  exact (run_if_ready_real_mode d [d] None initial_world eq_refl).
Defined.

(** X4.  A waiting object whose prerequisites are all satisfied, with no
    unfinished earlier object of its class in the pool, and for a
    runahead-limited class fewer than [MAX_FINISHED] finished ones, is
    started in dummy mode: it becomes running, one line is logged and the
    dummy command for its name, reference time and clock rate is handed to
    the shell.  ([topnet] has its own launcher.) *)
Theorem run_if_ready_dispatch (self : task) (tasks : list task)
    (dummy_clock_rate : option Z) (w : world) :
  state self = waiting ->
  requisites.all_satisfied (prerequisites self) = true ->
  truthy dummy_clock_rate = true ->
  cls self <> topnet ->
  (forall t, t ∈ tasks -> name t = name self -> state t <> finished ->
     exists a b, int_of_str (ref_time t) = Some a
                 /\ int_of_str (ref_time self) = Some b /\ b <= a) ->
  (base_of (cls self) = runahead_task_base ->
   finished_count self tasks < MAX_FINISHED) ->
  run_if_ready self tasks dummy_clock_rate w
  = After (with_state self running)
      (emit (System ("./task_dummy.py " +:+ name self +:+ " "
                       +:+ ref_time self +:+ " "
                       +:+ str_rate dummy_clock_rate +:+ " &"))
         (log INFO self ("launching external dummy for " +:+ ref_time self)
            w))
      (Returned ()).
Proof.
  intros Hst Hpre Hrate Hcls Hblock Hcount.
  assert (task_base_run_if_ready self tasks dummy_clock_rate w
          = After (with_state self running)
              (emit (System (dummy_command self dummy_clock_rate))
                 (log INFO self
                    ("launching external dummy for " +:+ ref_time self) w))
              (Returned ())) as Hbase.
  { unfold task_base_run_if_ready.
    rewrite (blocked_by_none _ _ Hblock), Hst, Hpre, Hrate.
    unfold run_external_dummy. by destruct (cls self). }
  unfold run_if_ready, runahead_task_base_run_if_ready.
  destruct (base_of (cls self)); [done|].
  rewrite decide_True by done.
  rewrite <- finished_count_length.
  rewrite bool_decide_eq_false_2 by (specialize (Hcount eq_refl); lia).
  done.
Qed.

Lemma run_if_ready_dispatch_witness :
  let d := sample_downloader "2011010106" in
  let old := with_state (sample_downloader "2011010100") finished in
  state (self_of (run_if_ready d [old; d] (Some 10) initial_world)) = running
  /\ launches
       (trace (world_of (run_if_ready d [old; d] (Some 10) initial_world)))
     = ["./task_dummy.py downloader 2011010106 10 &"].
Proof.
  intros d old.
  rewrite (run_if_ready_dispatch d [old; d] (Some 10) initial_world).
  - split; reflexivity.
  - reflexivity.
  - reflexivity.
  - reflexivity.
  - discriminate.
  - intros t Ht _ Hs. exists 2011010106, 2011010106.
    apply elem_of_cons in Ht as [->|Ht]; [done|].
    apply list_elem_of_singleton in Ht as ->. repeat split. lia.
  - intros _. vm_compute. reflexivity.
Defined.


(** *** The launcher and the mode messages of [topnet] *)

Lemma endswith_append (a p : string) : endswith (a +:+ p) p = true.
Proof.
  unfold endswith. rewrite reference_time_facts.length_append.
  rewrite (proj2 (Nat.leb_le _ _)) by lia.
  replace (String.length a + String.length p - String.length p)%nat
    with (String.length a + 0)%nat by lia.
  rewrite reference_time_facts.substring_append_skip,
    reference_time_facts.substring_all.
  by rewrite String.eqb_refl.
Qed.

Lemma slice_from_append (a b : string) :
  slice_from (String.length a) (a +:+ b) = b.
Proof.
  unfold slice_from. rewrite reference_time_facts.length_append.
  replace (String.length a + String.length b - String.length a)%nat
    with (String.length b) by lia.
  rewrite <- (Nat.add_0_r (String.length a)) at 1.
  by rewrite reference_time_facts.substring_append_skip,
    reference_time_facts.substring_all.
Qed.

Lemma fuzzy_file_name_append (x : string) :
  has_newline x = false ->
  fuzzy_file_name ("file " +:+ x +:+ " ready") = Some x
  /\ fuzzy_file_name ("file " +:+ x +:+ " ready" +:+ nl) = Some x.
Proof.
  intros Hx.
  assert (forall s, s = "file " +:+ x +:+ " ready" ->
            (if startswith s "file " && endswith s " ready"
                && (11 <=? String.length s)%nat && negb (has_newline s)
             then Some (String.substring 5 (String.length s - 11) s)
             else None) = Some x) as Hbody.
  { intros s ->.
    rewrite task_message_facts.startswith_app.
    rewrite <- task_message_facts.append_assoc, endswith_append.
    rewrite task_message_facts.append_assoc.
    rewrite !task_message_facts.has_newline_append, Hx.
    rewrite !reference_time_facts.length_append.
    change (String.length "file ") with 5%nat.
    change (String.length " ready") with 6%nat.
    rewrite (proj2 (Nat.leb_le _ _)) by lia.
    change (has_newline "file ") with false.
    change (has_newline " ready") with false.
    cbn [andb orb negb].
    replace (5 + (String.length x + 6) - 11)%nat with (String.length x)
      by lia.
    rewrite (reference_time_facts.substring_append_skip "file " _ 0).
    by rewrite reference_time_facts.substring_append_take. }
  split.
  - unfold fuzzy_file_name.
    assert (endswith ("file " +:+ x +:+ " ready") nl = false) as ->.
    { replace ("file " +:+ x +:+ " ready")
        with (("file " +:+ x +:+ " read") +:+ "y")
        by (by rewrite !task_message_facts.append_assoc).
      unfold endswith. rewrite reference_time_facts.length_append.
      rewrite (proj2 (Nat.leb_le _ _)) by (simpl; lia).
      replace (String.length ("file " +:+ x +:+ " read") + String.length "y"
               - String.length nl)%nat
        with (String.length ("file " +:+ x +:+ " read") + 0)%nat
        by (simpl; lia).
      by rewrite reference_time_facts.substring_append_skip. }
    by apply Hbody.
  - unfold fuzzy_file_name.
    replace ("file " +:+ x +:+ " ready" +:+ nl)
      with (("file " +:+ x +:+ " ready") +:+ nl)
      by (by rewrite !task_message_facts.append_assoc).
    rewrite endswith_append.
    rewrite reference_time_facts.length_append.
    replace (String.length ("file " +:+ x +:+ " ready") + String.length nl
             - 1)%nat
      with (String.length ("file " +:+ x +:+ " ready")) by (simpl; lia).
    rewrite reference_time_facts.substring_append_take.
    by apply Hbody.
Qed.

(** X8.  The pattern of [topnet] for its input file gives back the text
    between the word file and the word ready, whether or not one newline
    ends the prerequisite. *)
Theorem fuzzy_file_name_between (x : string) :
  has_newline x = false ->
  fuzzy_file_name ("file " +:+ x +:+ " ready") = Some x
  /\ fuzzy_file_name ("file " +:+ x +:+ " ready" +:+ nl) = Some x.
Proof. apply fuzzy_file_name_append. Qed.

Lemma fuzzy_file_name_between_witness :
  fuzzy_file_name "file tn_2010123118.nc ready" = Some "tn_2010123118.nc".
Proof.
  exact (proj1 (fuzzy_file_name_between "tn_2010123118.nc" eq_refl)).
Defined.

(** X11.  The launcher of [topnet], for a waiting object that is due to
    run in dummy mode: without any prerequisite it raises [IndexError];
    when the first prerequisite is not of the form file, name, ready it
    raises [AttributeError]; in both cases the object stays waiting and
    nothing is logged or launched.  With a first prerequisite of that form
    the object becomes running, the log names the file and the dummy
    command is handed to the shell. *)
Theorem topnet_dispatch (self : task) (tasks : list task)
    (dummy_clock_rate : option Z) (w : world) :
  cls self = topnet ->
  state self = waiting ->
  requisites.all_satisfied (prerequisites self) = true ->
  truthy dummy_clock_rate = true ->
  (forall t, t ∈ tasks -> name t = name self -> state t <> finished ->
     exists a b, int_of_str (ref_time t) = Some a
                 /\ int_of_str (ref_time self) = Some b /\ b <= a) ->
  let r := run_if_ready self tasks dummy_clock_rate w in
  (requisites.get_list (prerequisites self) = [] ->
   r = After self w (Raised IndexError))
  /\ (forall prereq rest,
        requisites.get_list (prerequisites self) = prereq :: rest ->
        fuzzy_file_name prereq = None ->
        r = After self w (Raised AttributeError))
  /\ (forall x rest,
        has_newline x = false ->
        requisites.get_list (prerequisites self)
        = ("file " +:+ x +:+ " ready") :: rest ->
        r = After (with_state self running)
              (emit (System ("./task_dummy.py " +:+ name self +:+ " "
                               +:+ ref_time self +:+ " "
                               +:+ str_rate dummy_clock_rate +:+ " &"))
                 (log INFO self
                    ("launching external dummy for " +:+ ref_time self
                       +:+ " (off " +:+ x +:+ ")") w))
              (Returned ())).
Proof.
  intros Hcls Hst Hpre Hrate Hblock r.
  assert (r = topnet_run_external_dummy self dummy_clock_rate w) as ->.
  { subst r. unfold run_if_ready. rewrite Hcls. simpl.
    unfold task_base_run_if_ready.
    rewrite (blocked_by_none _ _ Hblock), Hst, Hpre, Hrate.
    unfold run_external_dummy. by rewrite Hcls. }
  unfold topnet_run_external_dummy. split; [|split].
  - by intros ->.
  - by intros prereq rest -> ->.
  - intros x rest Hx ->.
    by rewrite (proj1 (fuzzy_file_name_append x Hx)).
Qed.

Lemma topnet_dispatch_witness :
  let t := sample_topnet "2011010100" in
  state (self_of (run_if_ready t [t] (Some 10) initial_world)) = running
  /\ trace (world_of (run_if_ready t [t] (Some 10) initial_world))
     = [Log INFO "main.topnet"
          "launching external dummy for 2011010100 (off tn_2010123118.nc)";
        System "./task_dummy.py topnet 2011010100 10 &"].
Proof.
  intros t.
  destruct (topnet_dispatch t [t] (Some 10) initial_world) as (_ & _ & H).
  - reflexivity.
  - reflexivity.
  - reflexivity.
  - reflexivity.
  - intros t' Ht' _ Hs. apply list_elem_of_singleton in Ht' as ->.
    exists 2011010100, 2011010100. repeat split. lia.
  - rewrite (H "tn_2010123118.nc" [] eq_refl eq_refl). split; reflexivity.
Defined.

Lemma occurs_unfold p s :
  occurs_on_first_line p s
  = startswith s p
    || match s with
       | String c r =>
           if decide (c = newline) then false else occurs_on_first_line p r
       | EmptyString => false
       end.
Proof. by destruct s. Qed.

Lemma occurs_append p x y :
  has_newline x = false -> occurs_on_first_line p (x +:+ p +:+ y) = true.
Proof.
  induction x as [|c x IH]; intros Hx.
  - change ("" +:+ p +:+ y) with (p +:+ y).
    by rewrite occurs_unfold, task_message_facts.startswith_app.
  - simpl in Hx. apply orb_false_iff in Hx as [Hc Hx].
    apply bool_decide_eq_false in Hc.
    rewrite task_message_facts.append_cons, occurs_unfold.
    rewrite decide_False by done. rewrite (IH Hx). apply orb_true_r.
Qed.

Lemma mode_match_append tag stamp x y :
  has_newline x = false ->
  mode_match tag stamp (tag +:+ x +:+ "for " +:+ stamp +:+ y) = true.
Proof.
  intros Hx. unfold mode_match.
  rewrite task_message_facts.startswith_app, slice_from_append.
  replace (x +:+ "for " +:+ stamp +:+ y)
    with (x +:+ ("for " +:+ stamp) +:+ y)
    by (by rewrite !task_message_facts.append_assoc).
  by rewrite occurs_append.
Qed.

Lemma mode_match_tag tag stamp message :
  startswith message tag = false -> mode_match tag stamp message = false.
Proof. unfold mode_match. by intros ->. Qed.

(** X9.  The catchup mode shared by the [topnet] objects: an object of
    another class never changes it; a message that starts with neither
    [CATCHUP:] nor [UPTODATE:] leaves it; and for a [topnet] object a
    message made of [UPTODATE:], some text of the same line, the word for
    and the stamp of the object ends catchup mode, while the same with
    [CATCHUP:] starts it again. *)
Theorem catchup_mode_switch (self : task) (priority message : string)
    (w : world) :
  (cls self <> topnet ->
   catchup_mode (incoming self priority message w).2 = catchup_mode w)
  /\ (startswith message "CATCHUP:" = false ->
      startswith message "UPTODATE:" = false ->
      catchup_mode (incoming self priority message w).2 = catchup_mode w)
  /\ (cls self = topnet ->
      forall x y, has_newline x = false ->
        (message = "UPTODATE:" +:+ x +:+ "for " +:+ mode_stamp self +:+ y ->
         catchup_mode w = true ->
         catchup_mode (incoming self priority message w).2 = false)
        /\ (message = "CATCHUP:" +:+ x +:+ "for " +:+ mode_stamp self +:+ y ->
            catchup_mode w = false ->
            catchup_mode (incoming self priority message w).2 = true)).
Proof.
  destruct (incoming_world self priority message w) as (_ & _ & -> & _).
  unfold mode_report. split; [|split].
  - intros Hc. by destruct (cls self).
  - intros H1 H2. rewrite !mode_match_tag by done.
    rewrite !andb_false_r. by destruct (cls self).
  - intros -> x y Hx. split.
    + intros -> ->. simpl negb. cbn [andb].
      by rewrite mode_match_append.
    + intros -> ->. simpl negb. cbn [andb].
      by rewrite mode_match_append.
Qed.

(** X10.  [identity] tells task objects apart by class and reference
    time: two objects with the same identity are of the same class and
    have the same reference time. *)
Theorem identity_injective (a b : task) :
  identity a = identity b -> cls a = cls b /\ ref_time a = ref_time b.
Proof.
  unfold identity, name.
  destruct (cls a), (cls b); cbv [class_name String.append]; intros H;
    first [ by simplify_eq | congruence ].
Qed.

Lemma identity_injective_witness :
  cls (sample_nzlam "2011010100" waiting)
  = cls (sample_nzlam "2011010100" finished)
  /\ ref_time (sample_nzlam "2011010100" waiting)
     = ref_time (sample_nzlam "2011010100" finished).
Proof.
  exact (identity_injective (sample_nzlam "2011010100" waiting)
           (sample_nzlam "2011010100" finished) eq_refl).
Defined.

(** *** The life of one object *)

Lemma launches_incoming self priority message w :
  launches (trace (incoming self priority message w).2) = launches (trace w).
Proof.
  destruct (incoming_world self priority message w) as (-> & _).
  rewrite !launches_app.
  assert (launches (not_running_warning self (state self) message) = [])
    as -> by (unfold not_running_warning; by case_decide).
  assert (launches (incoming_report self priority message) = []) as ->
    by (unfold incoming_report; by repeat case_match).
  assert (launches (mode_report self message (catchup_mode w)).1 = []) as ->
    by (unfold mode_report; by repeat case_match).
  by rewrite !app_nil_r.
Qed.

Section life.

Variable fuzzy_matches : string -> string -> bool.

(** One call: the state never moves back, a postrequisite is neither added
    nor dropped nor unmarked, and the shell gets a command only with the
    step from waiting to running. *)
Lemma invoke_step c self w :
  let r := invoke fuzzy_matches c self w in
  (state self = finished -> state (self_of r) = finished)
  /\ (state self = running -> state (self_of r) <> waiting)
  /\ (postrequisites (self_of r) = postrequisites self
      \/ exists message,
           postrequisites (self_of r)
           = received (postrequisites self) message)
  /\ ((launches (trace (world_of r)) = launches (trace w)
       /\ (state (self_of r) = waiting -> state self = waiting))
      \/ (state self = waiting /\ state (self_of r) = running
          /\ exists cmd,
               launches (trace (world_of r)) = launches (trace w) ++ [cmd])).
Proof.
  destruct c as [ts|ts|ts rate| |priority message| |rt| | | | | | | |];
    cbv zeta; simpl;
    try (split; [done|]; split; [congruence|]; split; [by left|];
         left; split; done).
  - (* run_if_ready *)
    destruct (run_if_ready_effect self ts rate w)
      as [[-> ->]|(Hw & _ & _ & -> & ->)]; simpl.
    + split; [done|]. split; [congruence|]. split; [by left|].
      left. by split.
    + rewrite Hw. split; [done|]. split; [done|]. split; [by left|].
      right. eauto.
  - (* abdicate *)
    rewrite (surjective_pairing (abdicate self)). simpl.
    rewrite abdicate_object.
    destruct (abdicate self).2; simpl;
      (split; [done|]; split; [congruence|]; split; [by left|];
       left; split; done).
  - (* incoming *)
    pose proof (launches_incoming self priority message w) as Hl.
    pose proof (incoming_is_object self priority message w) as Ho.
    destruct (incoming self priority message w) as [s w']. simpl in *.
    subst s. rewrite Hl. unfold incoming_object.
    destruct (requisites.all_satisfied _); simpl;
      (split; [done|]; split; [congruence|]; split; [right; eauto|];
       left; split; congruence).
  - (* nearest_ref_time *)
    assert (trace (nearest_ref_time (cls self) rt w).1 = trace w) as Ht.
    { unfold nearest_ref_time. by repeat case_match. }
    destruct (nearest_ref_time (cls self) rt w) as [w' o]. simpl in *.
    rewrite Ht. split; [done|]. split; [congruence|]. split; [by left|].
    left. by split.
Qed.

Lemma invoke_all_cons c cs self w :
  invoke_all fuzzy_matches (c :: cs) self w
  = let r := invoke fuzzy_matches c self w in
    let rest := invoke_all fuzzy_matches cs (self_of r) (world_of r) in
    (rest.1.1, rest.1.2, result_of r :: rest.2).
Proof.
  simpl. by destruct (invoke_all fuzzy_matches cs _ _) as [[? ?] ?].
Qed.

(** X5.  Over any sequence of calls on one object the shell receives at
    most one command from it, and none at all once the object has left
    the waiting state: an external job is never launched twice. *)
Theorem launched_at_most_once (cs : list (call)) (self : task) (w : world) :
  exists cmds,
    launches (trace (invoke_all fuzzy_matches cs self w).1.2)
    = launches (trace w) ++ cmds
    /\ (length cmds <= 1)%nat
    /\ (state self <> waiting -> cmds = []).
Proof.
  revert self w. induction cs as [|c cs IH]; intros self w.
  { exists []. simpl. rewrite app_nil_r. split; [done|]. split; [lia|done]. }
  rewrite invoke_all_cons. cbv zeta. simpl.
  destruct (invoke_step c self w) as (_ & _ & _ & Hl). cbv zeta in Hl.
  destruct (IH (self_of (invoke fuzzy_matches c self w))
              (world_of (invoke fuzzy_matches c self w)))
    as (cmds & -> & Hlen & Hnone).
  destruct Hl as [[-> Hback]|(Hw & Hrun & cmd & ->)].
  - exists cmds. split; [done|]. split; [done|]. intros Hs.
    apply Hnone. intros Hc. by apply Hs, Hback.
  - exists (cmd :: cmds). rewrite Hnone by congruence.
    split; [by rewrite app_nil_r|]. split; [simpl; lia|]. done.
Qed.

(** X6.  Over any sequence of calls the state of an object never moves
    back: a finished object stays finished and a running object does not
    return to waiting. *)
Theorem state_never_moves_back (cs : list call) (self : task) (w : world) :
  (state self = finished ->
   state (invoke_all fuzzy_matches cs self w).1.1 = finished)
  /\ (state self = running ->
      state (invoke_all fuzzy_matches cs self w).1.1 <> waiting).
Proof.
  revert self w. induction cs as [|c cs IH]; intros self w.
  { simpl. split; [done|congruence]. }
  rewrite invoke_all_cons. cbv zeta. simpl.
  destruct (invoke_step c self w) as (Hf & Hr & _). cbv zeta in Hf, Hr.
  destruct (IH (self_of (invoke fuzzy_matches c self w))
              (world_of (invoke fuzzy_matches c self w))) as [IHf IHr].
  split; [auto|]. intros Hs. specialize (Hr Hs).
  destruct (state (self_of (invoke fuzzy_matches c self w))) eqn:E;
    [done| |].
  - by apply IHr.
  - rewrite IHf by done. done.
Qed.

Lemma received_flags post message tk :
  (is_Some (requisites.flags (received post message) !! tk)
   <-> is_Some (requisites.flags post !! tk))
  /\ (requisites.flags post !! tk = Some true ->
      requisites.flags (received post message) !! tk = Some true).
Proof.
  unfold received, requisites.requisite_exists.
  case_bool_decide as Hex; [|done]. simpl.
  destruct (decide (message = tk)) as [->|Hne].
  - rewrite lookup_insert_eq. split; [|done]. split; eauto.
  - by rewrite lookup_insert_ne.
Qed.

(** X7.  Over any sequence of calls the postrequisites of an object keep
    their tokens, none is added and none is dropped, and a satisfied
    postrequisite stays satisfied. *)
Theorem postrequisites_kept (cs : list call) (self : task) (w : world)
    (tk : string) :
  let post := postrequisites self in
  let post' := postrequisites (invoke_all fuzzy_matches cs self w).1.1 in
  (is_Some (requisites.flags post' !! tk)
   <-> is_Some (requisites.flags post !! tk))
  /\ (requisites.flags post !! tk = Some true ->
      requisites.flags post' !! tk = Some true).
Proof.
  cbv zeta. revert self w. induction cs as [|c cs IH]; intros self w.
  { simpl. done. }
  rewrite invoke_all_cons. cbv zeta. simpl.
  destruct (invoke_step c self w) as (_ & _ & Hp & _). cbv zeta in Hp.
  destruct (IH (self_of (invoke fuzzy_matches c self w))
              (world_of (invoke fuzzy_matches c self w))) as [IH1 IH2].
  destruct Hp as [Hp|[message Hp]]; rewrite Hp in IH1, IH2; [done|].
  destruct (received_flags (postrequisites self) message tk) as [R1 R2].
  split; [by rewrite IH1|auto].
Qed.

End life.


(** *** The class templates *)

Lemma hour_text rt s :
  reference_time.parse rt = Some s ->
  slice 8 10 rt = reference_time.zfill 2 (reference_time.hour s).
Proof.
  intros H%reference_time_facts.format_parse. rewrite <- H.
  apply (reference_time_facts.fields_of_format s).
Qed.

Ltac hours H :=
  repeat (apply elem_of_cons in H as [->|H]); [..|by apply elem_of_nil in H].

(** At an hour the class runs at, a branch of its template applies. *)
Lemma templates_cover c rt h lbc_06 lbc_12 nzlam_cutoff :
  runs_at c h ->
  slice 8 10 rt = reference_time.zfill 2 h ->
  (exists pre,
     class_prerequisites c rt lbc_06 lbc_12 nzlam_cutoff = Some pre)
  /\ (exists post,
        class_postrequisites c rt lbc_06 lbc_12 = Some post /\ post <> []).
Proof.
  unfold runs_at, class_prerequisites, class_postrequisites.
  intros Hh Hs. rewrite Hs. clear Hs.
  destruct c; try (split; eexists; try split; [reflexivity..|done]);
    cbn [declared_valid_hours] in Hh; hours Hh;
    (split; eexists; try split; [reflexivity..|done]).
Qed.

Lemma valid_prev_day c :
  reference_time.valid c = true -> 1 <= reference_time.year c ->
  reference_time.valid (reference_time.prev_day c) = true.
Proof.
  intros (By & Bm & Bd & Bh)%reference_time_facts.valid_bounds Hy.
  apply reference_time_facts.valid_bounds. unfold reference_time.prev_day.
  pose proof (reference_time_facts.days_in_month_bounds
                (reference_time.year c) (reference_time.month c - 1)).
  destruct (Z.ltb_spec 1 (reference_time.day c));
    [|destruct (Z.ltb_spec 1 (reference_time.month c))]; simpl; try lia.
  change (reference_time.days_in_month (reference_time.year c - 1) 12)
    with 31. lia.
Qed.

(** Going back by up to a day from a time after the year 0 gives a time. *)
Lemma decrement_returns rt s n :
  reference_time.parse rt = Some s -> 0 <= n <= 24 ->
  1 <= reference_time.year s ->
  exists rt', reference_time.decrement rt n = Returned rt'.
Proof.
  intros Hs Hn Hy.
  pose proof Hs as (_ & _ & Hv & _)%reference_time_facts.parse_inv.
  pose proof Hv as (By & Bm & Bd & Bh)%reference_time_facts.valid_bounds.
  unfold reference_time.decrement, reference_time.shifted. rewrite Hs.
  assert (reference_time.valid (reference_time.shift s (- n)) = true) as ->;
    [|eauto].
  unfold reference_time.shift.
  pose proof (Z.mod_pos_bound (reference_time.hour s + - n) 24 ltac:(lia)).
  set (c' := {| reference_time.year := _ |}).
  assert (reference_time.valid c' = true) as Hc'.
  { apply reference_time_facts.valid_bounds. simpl. lia. }
  destruct (Z.leb_spec 0 ((reference_time.hour s + - n) / 24)) as [Hd|Hd].
  - assert ((reference_time.hour s + - n) / 24 = 0) as ->.
    { apply Z.div_small_iff; [lia|].
      left. split; [|lia].
      destruct (Z.le_gt_cases 0 (reference_time.hour s + - n)); [done|].
      pose proof (Z.div_lt_upper_bound (reference_time.hour s + - n) 24 0).
      lia. }
    done.
  - assert ((reference_time.hour s + - n) / 24 = -1) as ->.
    { pose proof (Z.div_le_lower_bound (reference_time.hour s + - n) 24 (-1)).
      lia. }
    simpl. by apply valid_prev_day.
Qed.

Lemma year_iter_next_day k c :
  reference_time.year c
  <= reference_time.year (Nat.iter k reference_time.next_day c).
Proof.
  induction k as [|k IH]; simpl; [lia|].
  pose proof (reference_time_facts.year_next_day
                (Nat.iter k reference_time.next_day c)). lia.
Qed.

(** What [nearest_ref_time] gives in a well-kept world: a time of an hour
    the class runs at, no earlier year than the time given. *)
Lemma nearest_ref_time_runs_at c rt w s :
  hours_grown w ->
  reference_time.parse rt = Some s ->
  (forall adjusted,
     (nearest_ref_time c rt w).2 = Returned adjusted ->
     exists s',
       reference_time.parse adjusted = Some s'
       /\ runs_at c (reference_time.hour s')
       /\ reference_time.year s <= reference_time.year s')
  /\ (reference_time.year s <= 9998 ->
      exists adjusted, (nearest_ref_time c rt w).2 = Returned adjusted).
Proof.
  intros Hw Hs. destruct (Hw c) as [k Hk].
  pose proof Hs as (_ & _ & Hv & _)%reference_time_facts.parse_inv.
  pose proof Hv as (By & _ & _ & Bh)%reference_time_facts.valid_bounds.
  rewrite (nearest_ref_time_grown c rt w k s Hk Hs). simpl.
  destruct (first_hour_earliest c k (reference_time.hour s) Bh)
    as (vh & -> & Hn & Hin & _).
  split.
  - intros adjusted. unfold reference_time.increment, reference_time.shifted.
    rewrite Hs.
    destruct (reference_time.valid
                (reference_time.shift s (vh - reference_time.hour s)))
      eqn:Hv'; [|done].
    intros [= <-]. eexists. split; [by apply reference_time_facts.parse_format|].
    split.
    + unfold runs_at. rewrite reference_time_facts.hour_shift.
      by replace (reference_time.hour s + (vh - reference_time.hour s))
        with vh by lia.
    + unfold reference_time.shift.
      rewrite (proj2 (Z.leb_le _ _)) by (apply Z.div_pos; lia).
      etrans; [|apply year_iter_next_day]. done.
  - intros Hy. apply (reference_time_facts.increment_returns _ _ s); [done|lia|].
    replace (reference_time.hour s + (vh - reference_time.hour s))
      with vh by lia.
    pose proof (Z.div_lt_upper_bound vh 24 2). lia.
Qed.

Lemma postrequisites_nonempty c rt lbc_06 lbc_12 post :
  class_postrequisites c rt lbc_06 lbc_12 = Some post -> post <> [].
Proof.
  unfold class_postrequisites.
  destruct c; repeat case_decide; intros [= <-]; done.
Qed.

Lemma requisites_of_draft c adjusted w d :
  requisites_of c adjusted w = Returned d ->
  exists lbc_06 lbc_12 nzlam_cutoff,
    d = make_draft c adjusted lbc_06 lbc_12 nzlam_cutoff.
Proof.
  unfold requisites_of.
  destruct c; try (intros [= <-]; by eexists _, _, _).
  - destruct (reference_time.decrement adjusted 6) as [l6| |]; [|done..].
    destruct (reference_time.decrement adjusted 12) as [l12| |]; [|done..].
    intros [= <-]. by eexists _, _, _.
  - destruct (reference_time.decrement adjusted 6) as [l6| |]; [|done..].
    destruct (reference_time.decrement adjusted 12) as [l12| |]; [|done..].
    intros [= <-]. by eexists _, _, _.
  - destruct (reference_time.decrement adjusted _) as [cut| |]; [|done..].
    intros [= <-]. by eexists _, _, _.
Qed.

Lemma requisites_of_returns c adjusted s w :
  reference_time.parse adjusted = Some s -> 1 <= reference_time.year s ->
  exists d, requisites_of c adjusted w = Returned d.
Proof.
  intros Hs Hy. unfold requisites_of.
  destruct (decrement_returns adjusted s 6 Hs ltac:(lia) Hy) as [l6 H6].
  destruct (decrement_returns adjusted s 12 Hs ltac:(lia) Hy) as [l12 H12].
  destruct (decrement_returns adjusted s 11 Hs ltac:(lia) Hy) as [l11 H11].
  destruct (decrement_returns adjusted s 23 Hs ltac:(lia) Hy) as [l23 H23].
  destruct c; try (by eexists); rewrite ?H6, ?H12; try (by eexists).
  destruct (catchup_mode w); rewrite ?H11, ?H23; by eexists.
Qed.

Lemma init_accepted self initial_state w :
  accepted initial_state ->
  result_of (init self initial_state w) = Returned ().
Proof.
  unfold accepted, init, runahead_task_base_init, task_base_init.
  destruct initial_state as [st|].
  - intros [-> | [-> | [-> | ->]]]; by destruct (base_of (cls self)).
  - intros _. by destruct (base_of (cls self)).
Qed.

Lemma init_keeps self initial_state w :
  cls (self_of (init self initial_state w)) = cls self
  /\ ref_time (self_of (init self initial_state w)) = ref_time self
  /\ mode_stamp (self_of (init self initial_state w)) = mode_stamp self.
Proof.
  unfold init, runahead_task_base_init, task_base_init.
  destruct (base_of (cls self)), initial_state as [st|];
    repeat case_decide; done.
Qed.

(** X24.  The branches of every class cover the hours the class runs at.
    In a world whose lists of valid hours are the declared ones, grown by
    earlier calls, the constructor of a class never leaves the
    prerequisites or the postrequisites of the new object unassigned; and
    for a reference time of the years 1 to 9998 it builds an object of
    the class whose reference time is of an hour the class runs at, and
    returns when the initial state is one of those accepted. *)
Theorem class_constructor_builds (c : task_class) (rt : string)
    (s : reference_time.stamp) (initial_state : option string) (w : world) :
  hours_grown w ->
  reference_time.parse rt = Some s ->
  (forall d w', new c rt initial_state w <> Lacking d w')
  /\ (1 <= reference_time.year s <= 9998 ->
      exists r s',
        new c rt initial_state w = Built r
        /\ cls (self_of r) = c
        /\ reference_time.parse (ref_time (self_of r)) = Some s'
        /\ runs_at c (reference_time.hour s')
        /\ (accepted initial_state -> result_of r = Returned ())).
Proof.
  intros Hw Hs. unfold new.
  destruct (nearest_ref_time_runs_at c rt w s Hw Hs) as [Hat Hret].
  destruct (nearest_ref_time c rt w) as [w1 r1]. simpl in *.
  assert (forall adjusted d,
            r1 = Returned adjusted ->
            requisites_of c adjusted w1 = Returned d ->
            exists s' pre post,
              reference_time.parse adjusted = Some s'
              /\ runs_at c (reference_time.hour s')
              /\ draft_prerequisites d = Some pre
              /\ draft_postrequisites d = Some post) as Hd.
  { intros adjusted d -> Hreq.
    destruct (Hat adjusted eq_refl) as (s' & Hs' & Hrun & _).
    destruct (requisites_of_draft _ _ _ _ Hreq) as (l6 & l12 & cut & ->).
    destruct (templates_cover c adjusted _ l6 l12 cut Hrun (hour_text _ _ Hs'))
      as [[pre Hpre] (post & Hpost & _)].
    exists s'. unfold make_draft. simpl. rewrite Hpre, Hpost. simpl.
    by eexists _, _. }
  split.
  - intros d w'. destruct r1 as [adjusted| |]; [|done..].
    destruct (requisites_of c adjusted w1) as [d'| |] eqn:Hreq; [|done..].
    destruct (Hd adjusted d' eq_refl Hreq) as (s' & pre & post & _ & _ & -> & ->).
    done.
  - intros Hy. destruct Hret as [adjusted ->]; [lia|].
    destruct (Hat adjusted eq_refl) as (s' & Hs' & Hrun & Hy').
    destruct (requisites_of_returns c adjusted s' w1 Hs') as [d Hreq]; [lia|].
    rewrite Hreq.
    destruct (Hd adjusted d eq_refl Hreq) as (s'' & pre & post & _ & _ & -> & ->).
    eexists _, s'. split; [done|].
    match goal with |- context [init ?x ?y ?z] =>
      destruct (init_keeps x y z) as (-> & -> & _) end.
    simpl. split; [done|]. split; [done|]. split; [done|].
    apply init_accepted.
Qed.

Section pool.

Variable fuzzy_matches : string -> string -> bool.

(** X25.  What a class constructor hands out is a task object the
    scheduler can hold: it was initialised on top of postrequisites that
    are not empty and of which none is satisfied.  It is of the class
    asked for, at the reference time [nearest_ref_time] gave, and has not
    abdicated. *)
Theorem constructed_objects_reachable (c : task_class) (rt : string)
    (initial_state : option string) (w : world) (r : after unit) :
  new c rt initial_state w = Built r ->
  result_of r = Returned () ->
  reachable fuzzy_matches (self_of r)
  /\ cls (self_of r) = c
  /\ (nearest_ref_time c rt w).2 = Returned (ref_time (self_of r))
  /\ abdicated (self_of r) = false.
Proof.
  unfold new. destruct (nearest_ref_time c rt w) as [w1 r1]. simpl.
  destruct r1 as [adjusted| |]; [|done..].
  destruct (requisites_of c adjusted w1) as [d| |] eqn:Hreq; [|done..].
  destruct (requisites_of_draft _ _ _ _ Hreq) as (l6 & l12 & cut & ->).
  unfold make_draft. simpl.
  destruct (class_prerequisites c adjusted l6 l12 cut) as [pre|]; [|done].
  destruct (class_postrequisites c adjusted l6 l12) as [post|] eqn:Hpost;
    [|done].
  simpl. intros [= <-] Hret.
  match goal with |- context [init ?x ?y ?z] =>
    destruct (init_keeps x y z) as (Hc & Hr & _); set (self := x) in * end.
  split; [|split; [done|split; [by rewrite Hr|]]].
  - apply reachable_init; [|done]. apply requisites_facts.fresh_make.
    by apply (postrequisites_nonempty c adjusted l6 l12).
  - revert Hret. unfold init, runahead_task_base_init, task_base_init.
    destruct (base_of (cls self)), initial_state as [st|];
      repeat case_decide; done.
Qed.

End pool.

Ltac member :=
  solve [repeat first [apply list_elem_of_here | apply list_elem_of_further]].

Ltac offered_by c' Hs :=
  exists c'; eexists;
  split; [discriminate|];
  split; [unfold runs_at; cbn [declared_valid_hours]; member|];
  unfold class_postrequisites; rewrite ?Hs;
  split; [reflexivity|]; member.

(** X26.  No prerequisite is left dangling.  Each prerequisite of a class
    other than [topnet], at an hour the class runs at, is a postrequisite
    of another class that runs at that hour, for the same reference
    time. *)
Theorem prerequisites_are_offered (c : task_class) (rt : string) (h : Z)
    (lbc_06 lbc_12 nzlam_cutoff : string) (pre : list string) (p : string) :
  c <> topnet ->
  runs_at c h ->
  slice 8 10 rt = reference_time.zfill 2 h ->
  class_prerequisites c rt lbc_06 lbc_12 nzlam_cutoff = Some pre ->
  p ∈ pre ->
  exists c' post,
    c' <> c
    /\ runs_at c' h
    /\ class_postrequisites c' rt lbc_06 lbc_12 = Some post
    /\ p ∈ post.
Proof.
  unfold runs_at at 1, class_prerequisites. intros Hc Hh Hs. rewrite Hs.
  destruct c; try done; cbn [declared_valid_hours] in Hh; hours Hh;
    vm_compute (reference_time.zfill 2 _) in *;
    intros [= <-] Hp;
    repeat (apply elem_of_cons in Hp as [->|Hp]);
    try (by apply elem_of_nil in Hp);
    first [ offered_by downloader Hs | offered_by nzlam Hs
          | offered_by nzlam_post Hs | offered_by globalprep Hs ].
Qed.

Lemma class_constructor_builds_witness :
  exists r s',
    new nzlam "2011010103" (Some "ready") initial_world = Built r
    /\ cls (self_of r) = nzlam
    /\ reference_time.parse (ref_time (self_of r)) = Some s'
    /\ runs_at nzlam (reference_time.hour s')
    /\ (accepted (Some "ready") -> result_of r = Returned ()).
Proof.
  apply (proj2 (class_constructor_builds nzlam "2011010103"
                  {| reference_time.year := 2011; reference_time.month := 1;
                     reference_time.day := 1; reference_time.hour := 3 |}
                  (Some "ready") initial_world
                  hours_grown_initial eq_refl)).
  simpl. lia.
Defined.

Lemma constructed_objects_reachable_witness :
  reachable (fun _ _ => false) (self_of sample_built)
  /\ ref_time (self_of sample_built) = "2011010106".
Proof.
  destruct (constructed_objects_reachable (fun _ _ => false) downloader
              "2011010103" None initial_world sample_built eq_refl eq_refl)
    as (H1 & _ & _ & _).
  split; [exact H1 | reflexivity].
Defined.

Lemma prerequisites_are_offered_witness :
  exists c' post,
    c' <> nzlam
    /\ runs_at c' 0
    /\ class_postrequisites c' "2011010100" "2010123118" "2010123112"
       = Some post
    /\ "file lbc_2010123112.um ready" ∈ post.
Proof.
  apply (prerequisites_are_offered nzlam "2011010100" 0 "2010123118"
           "2010123112" ""
           ["file obstore_2011010100.um ready";
            "file bgerr2011010100.um ready";
            "file lbc_2010123112.um ready"]).
  - discriminate.
  - unfold runs_at. simpl. apply list_elem_of_here.
  - reflexivity.
  - reflexivity.
  - apply list_elem_of_further, list_elem_of_further, list_elem_of_here.
Defined.

(** *** From the first message to the successor *)

Lemma incoming_all_object (messages : list (string * string)) self w :
  (incoming_all messages self w).1
  = fold_left (fun s pm => incoming_object s pm.2) messages self.
Proof.
  unfold incoming_all. revert self w.
  induction messages as [|pm ms IH]; intros self w; [done|]. simpl.
  pose proof (incoming_is_object self pm.1 pm.2 w) as H.
  destruct (incoming self pm.1 pm.2 w) as [s w']. simpl in H. subst s.
  apply IH.
Qed.

Lemma incoming_object_postrequisites self message :
  postrequisites (incoming_object self message)
  = received (postrequisites self) message.
Proof.
  unfold incoming_object. cbv zeta. by case_match.
Qed.

Lemma incoming_object_state self message :
  state (incoming_object self message) = finished
  <-> state self = finished
      \/ requisites.all_satisfied (received (postrequisites self) message)
         = true.
Proof.
  unfold incoming_object. cbv zeta.
  destruct (requisites.all_satisfied _) eqn:E; simpl; [tauto|].
  split; [tauto|]. by intros [?|?].
Qed.

Lemma received_lookup post message tk :
  requisites.flags (received post message) !! tk
  = (fun b => b || bool_decide (tk = message))
      <$> requisites.flags post !! tk.
Proof.
  unfold received, requisites.requisite_exists.
  case_bool_decide as Hex; simpl.
  - destruct (decide (tk = message)) as [->|Hne].
    + rewrite lookup_insert_eq. destruct Hex as [b ->]. simpl.
      by rewrite bool_decide_true, orb_true_r.
    + rewrite lookup_insert_ne by done.
      destruct (requisites.flags post !! tk); simpl; [|done].
      by rewrite bool_decide_false, orb_false_r.
  - destruct (requisites.flags post !! tk) eqn:E; simpl; [|done].
    rewrite bool_decide_false, orb_false_r; [done|].
    intros ->. apply Hex. by eexists.
Qed.

(** After a run of messages a postrequisite is satisfied when it was
    before or one of the messages named it. *)
Lemma reported_lookup (messages : list (string * string)) self tk :
  requisites.flags
    (postrequisites
       (fold_left (fun s pm => incoming_object s pm.2) messages self)) !! tk
  = (fun b => b || bool_decide (tk ∈ messages.*2))
      <$> requisites.flags (postrequisites self) !! tk.
Proof.
  revert self. induction messages as [|pm ms IH]; intros self; simpl.
  { destruct (requisites.flags _ !! tk) as [b|]; [|done].
    change (Some b = Some (b || bool_decide (tk ∈ (@nil string)))).
    rewrite bool_decide_false, orb_false_r; [done|]. apply not_elem_of_nil. }
  rewrite IH, incoming_object_postrequisites, received_lookup.
  destruct (requisites.flags (postrequisites self) !! tk) as [b|]; simpl;
    [|done].
  f_equal. rewrite <- orb_assoc. f_equal.
  rewrite <- bool_decide_or. apply bool_decide_ext.
  by rewrite elem_of_cons.
Qed.

Lemma reported_state (messages : list (string * string)) self :
  state (fold_left (fun s pm => incoming_object s pm.2) messages self)
  = finished
  <-> state self = finished
      \/ (messages <> []
          /\ requisites.all_satisfied
               (postrequisites
                  (fold_left (fun s pm => incoming_object s pm.2) messages
                     self)) = true).
Proof.
  revert self. induction messages as [|pm ms IH]; intros self; simpl.
  { split; [by left|]. by intros [?|[? _]]. }
  rewrite IH, incoming_object_state, <- incoming_object_postrequisites.
  set (self1 := incoming_object self pm.2).
  split.
  - intros [[?|H1]|[_ ?]]; [by left| |by right].
    right. split; [done|].
    apply requisites_facts.all_satisfied_iff. intros tk b.
    rewrite reported_lookup.
    apply requisites_facts.all_satisfied_iff in H1.
    destruct (requisites.flags (postrequisites self1) !! tk) as [b1|] eqn:E;
      simpl; [|done].
    intros [= <-]. by rewrite (H1 _ _ E).
  - intros [?|[_ H]]; [by left; left|].
    destruct ms as [|pm' ms']; [left; right; exact H|].
    right. by split.
Qed.

(** X29.  An object that starts with none of its postrequisites satisfied
    and is not finished is finished, after a run of messages, exactly
    when every postrequisite has been named by one of them, in any order
    and whatever else was said in between. *)
Theorem finished_when_all_reported (self : task)
    (messages : list (string * string)) (w : world) :
  requisites.fresh (postrequisites self) ->
  state self <> finished ->
  state (incoming_all messages self w).1 = finished
  <-> forall tk, tk ∈ get_postrequisite_list self -> tk ∈ messages.*2.
Proof.
  intros [Hne Hfresh] Hstate. rewrite incoming_all_object, reported_state.
  assert (forall tk, tk ∈ get_postrequisite_list self
                     <-> requisites.flags (postrequisites self) !! tk
                         = Some false) as Hlist.
  { intros tk. unfold get_postrequisite_list, requisites.get_list,
      requisites.get_requisites.
    rewrite list_elem_of_fmap. split.
    - intros ([tk' b] & -> & Hin%elem_of_map_to_list). simpl.
      by rewrite (Hfresh _ _ Hin) in Hin.
    - intros H. exists (tk, false). split; [done|].
      by apply elem_of_map_to_list. }
  split.
  - intros [?|[_ Hall%requisites_facts.all_satisfied_iff]]; [done|].
    intros tk Htk%Hlist.
    specialize (Hall tk (false || bool_decide (tk ∈ messages.*2))).
    rewrite reported_lookup, Htk in Hall. simpl in Hall.
    by apply (proj1 (bool_decide_eq_true _)), Hall.
  - intros Hall. right. split.
    + intros ->. destruct (map_choose _ Hne) as (tk & b & Hb).
      pose proof (Hfresh _ _ Hb) as Hf. simpl in Hf. subst b.
      apply Hlist, Hall in Hb. by apply elem_of_nil in Hb.
    + apply requisites_facts.all_satisfied_iff. intros tk b.
      rewrite reported_lookup.
      destruct (requisites.flags (postrequisites self) !! tk) as [b0|] eqn:E;
        simpl; [|done].
      intros [= <-]. pose proof (Hfresh _ _ E) as Hf. simpl in Hf. subst b0.
      simpl. apply (proj2 (bool_decide_eq_true _)). by apply Hall, Hlist.
Qed.

Lemma new_at_valid_hour c rt s initial_state w :
  hours_grown w ->
  reference_time.parse rt = Some s ->
  runs_at c (reference_time.hour s) ->
  1 <= reference_time.year s ->
  exists r,
    new c rt initial_state w = Built r
    /\ cls (self_of r) = c
    /\ ref_time (self_of r) = rt.
Proof.
  intros Hw Hs Hrun Hy. destruct (Hw c) as [k Hk]. unfold new.
  rewrite (nearest_ref_time_grown c rt w k s Hk Hs).
  destruct (declared_valid_hours_shape c) as (d0 & D' & _ & _ & Hsorted).
  unfold grown_valid_hours.
  rewrite (first_hour_member _ _ _ Hsorted Hrun), Z.sub_diag.
  rewrite reference_time_facts.increment_0 by by eexists.
  set (w1 := set_valid_hours _ _ _).
  destruct (requisites_of_returns c rt s w1 Hs Hy) as [d Hd]. rewrite Hd.
  destruct (requisites_of_draft _ _ _ _ Hd) as (l6 & l12 & cut & ->).
  destruct (templates_cover c rt _ l6 l12 cut Hrun (hour_text _ _ Hs))
    as [[pre Hpre] (post & Hpost & _)].
  unfold make_draft. simpl. rewrite Hpre, Hpost. simpl.
  eexists. split; [done|].
  match goal with |- context [init ?x ?y ?z] =>
    destruct (init_keeps x y z) as (-> & -> & _) end.
  done.
Qed.

Lemma next_day_other c :
  reference_time.next_day c <> c.
Proof.
  unfold reference_time.next_day. destruct c as [y m d h]. simpl.
  repeat case_match; intros [=]; lia.
Qed.

(** X30.  The successor stands at the next valid time.  For an object at
    a reference time of an hour its class runs at, in the years 1 to
    9998, [next_ref_time] gives another time, and the constructor of the
    class, called with it as on abdication, builds an object at exactly
    that time: no further adjustment is made. *)
Theorem successor_at_next_valid_time (self : task) (w w' : world)
    (s : reference_time.stamp) (initial_state : option string) :
  hours_grown w ->
  hours_grown w' ->
  reference_time.parse (ref_time self) = Some s ->
  runs_at (cls self) (reference_time.hour s) ->
  1 <= reference_time.year s <= 9998 ->
  exists next r,
    next_ref_time self w = Returned next
    /\ next <> ref_time self
    /\ new (cls self) next initial_state w' = Built r
    /\ cls (self_of r) = cls self
    /\ ref_time (self_of r) = next.
Proof.
  intros Hw Hw' Hs Hrun Hy. destruct (Hw (cls self)) as [k Hk].
  pose proof Hs as (_ & _ & Hv & _)%reference_time_facts.parse_inv.
  pose proof Hv as (_ & _ & _ & Bh)%reference_time_facts.valid_bounds.
  destruct (next_increment (cls self) k (reference_time.hour s)
              (ref_time self) Hrun
              (reference_time_facts.int_of_hour_field _ _ Hs))
    as (n & Hn & Bn & Hin & _).
  cbv zeta in Hn.
  unfold next_ref_time. cbv zeta. rewrite Hk, Hn.
  change (exists next r,
            reference_time.increment (ref_time self) n = Returned next
            /\ next <> ref_time self
            /\ new (cls self) next initial_state w' = Built r
            /\ cls (self_of r) = cls self /\ ref_time (self_of r) = next).
  unfold reference_time.increment, reference_time.shifted. rewrite Hs.
  assert ((reference_time.hour s + n) / 24 <= 1) as Hd.
  { pose proof (Z.div_lt_upper_bound (reference_time.hour s + n) 24 2). lia. }
  rewrite (reference_time_facts.valid_shift s n Hv) by lia.
  set (s' := reference_time.shift s n).
  assert (reference_time.valid s' = true) as Hv'.
  { apply reference_time_facts.valid_shift; [done|lia|lia]. }
  pose proof (reference_time_facts.parse_format s' Hv') as Hs'.
  assert (reference_time.year s <= reference_time.year s') as Hy'.
  { subst s'. unfold reference_time.shift.
    rewrite (proj2 (Z.leb_le _ _)) by (apply Z.div_pos; lia).
    etrans; [|apply year_iter_next_day]. done. }
  destruct (new_at_valid_hour (cls self) (reference_time.format s') s'
              initial_state w' Hw' Hs') as (r & Hr & Hc & Ht).
  { unfold runs_at. subst s'. by rewrite reference_time_facts.hour_shift. }
  { lia. }
  exists (reference_time.format s'), r.
  split; [done|]. split; [|done].
  intros Heq. rewrite Heq, Hs in Hs'. injection Hs' as Hs'.
  assert (reference_time.hour s' = reference_time.hour s) as Hh
    by by rewrite <- Hs'.
  subst s'. rewrite reference_time_facts.hour_shift in Hh.
  assert (n = 24) as ->.
  { destruct (decide (n = 24)); [done|].
    destruct (decide (reference_time.hour s + n < 24)).
    - rewrite Z.mod_small in Hh by lia. lia.
    - replace (reference_time.hour s + n)
        with (reference_time.hour s + n - 24 + 1 * 24) in Hh by lia.
      rewrite Z.mod_add, Z.mod_small in Hh by lia. lia. }
  revert Hs'. unfold reference_time.shift. cbv zeta.
  assert (reference_time.hour s + 24 = reference_time.hour s + 1 * 24) as ->
    by lia.
  rewrite Z.div_add, Z.mod_add, Z.div_small, Z.mod_small by lia.
  simpl. destruct s as [y m d h]. simpl. intros H.
  by apply (next_day_other {| reference_time.year := y;
                              reference_time.month := m;
                              reference_time.day := d;
                              reference_time.hour := h |}).
Qed.

Lemma finished_when_all_reported_witness :
  state
    (incoming_all
       [("NORMAL", "nzlam finished for 2011010100");
        ("NORMAL", "progress");
        ("NORMAL", "nzlam started for 2011010100")]
       (sample_nzlam "2011010100" running) initial_world).1
  = finished.
Proof.
  apply (finished_when_all_reported (sample_nzlam "2011010100" running)).
  - apply requisites_facts.fresh_make. discriminate.
  - discriminate.
  - assert (get_postrequisite_list (sample_nzlam "2011010100" running)
            = ["nzlam started for 2011010100";
               "nzlam finished for 2011010100"]) as ->
      by (vm_compute; reflexivity).
    intros tk [->|[->|[]%elem_of_nil]%elem_of_cons]%elem_of_cons.
    + apply list_elem_of_further, list_elem_of_further, list_elem_of_here.
    + apply list_elem_of_here.
Defined.

Lemma successor_at_next_valid_time_witness :
  exists next r,
    next_ref_time (sample_downloader "2011010118") initial_world
    = Returned next
    /\ next <> "2011010118"
    /\ new downloader next None initial_world = Built r
    /\ cls (self_of r) = downloader
    /\ ref_time (self_of r) = next.
Proof.
  apply (successor_at_next_valid_time (sample_downloader "2011010118")
           initial_world initial_world
           {| reference_time.year := 2011; reference_time.month := 1;
              reference_time.day := 1; reference_time.hour := 18 |} None).
  - apply hours_grown_initial.
  - apply hours_grown_initial.
  - reflexivity.
  - unfold runs_at. simpl.
    apply list_elem_of_further, list_elem_of_further, list_elem_of_further,
      list_elem_of_here.
  - simpl. lia.
Defined.

End tasks_facts.

(** ** The suite generator *)

Module scaling_gen_facts.

Import Py scaling_gen.

Lemma range_unit a n : range a (a + n) 1 = seqZ a n.
Proof.
  unfold range. replace ((a + n - a + 1 - 1) / 1) with n
    by (rewrite Z.div_1_r; lia).
  trans (Z.add a <$> seqZ 0 n).
  - apply list_fmap_ext. intros _ k _. lia.
  - rewrite fmap_add_seqZ. f_equal. lia.
Qed.

Lemma edges_seq (m : nat) (a : Z) :
  ((fun k => 2 + 2 * k) <$> seqZ a (Z.of_nat m)) ≫=
    (fun i => [(i / 2, i); (i / 2, i + 1)])
  = (fun c => (c / 2, c)) <$> seqZ (2 + 2 * a) (2 * Z.of_nat m).
Proof.
  revert a. induction m as [|m IH]; intros a; [done|].
  rewrite seqZ_cons by lia. rewrite fmap_cons, bind_cons.
  replace (Z.pred (Z.of_nat (S m))) with (Z.of_nat m) by lia.
  rewrite IH.
  rewrite (seqZ_cons (2 + 2 * a)) by lia.
  rewrite (seqZ_cons (Z.succ (2 + 2 * a))) by lia.
  rewrite !fmap_cons. simpl.
  replace (Z.succ (2 + 2 * a)) with (2 + 2 * a + 1) by lia.
  replace ((2 + 2 * a + 1) / 2) with ((2 + 2 * a) / 2).
  2:{ replace (2 + 2 * a) with ((1 + a) * 2) by lia.
      rewrite Z.div_mul by lia.
      replace ((1 + a) * 2 + 1) with (1 + (1 + a) * 2) by lia.
      rewrite Z.div_add by lia. done. }
  replace (2 + 2 * Z.succ a) with (Z.succ (2 + 2 * a + 1)) by lia.
  by replace (Z.pred (Z.pred (2 * Z.of_nat (S m)))) with (2 * Z.of_nat m)
    by lia.
Qed.

(** X27.  The graph is the binary tree of the first tasks: the tasks that
    follow another one are numbered 2, 3, ... up to the odd number
    [2 * (n / 2) + 1], each named once, after the task of half its
    number.  So for an even number [n] of tasks, two or more, the graph
    names the task [n + 1], which the list of sequential tasks, made of
    the tasks 1 to [n], does not hold. *)
Theorem graph_is_binary_tree (n : Z) :
  edges n = (fun c => (c / 2, c)) <$> seqZ 2 (2 * (n / 2))
  /\ followers n = seqZ 2 (2 * (n / 2))
  /\ NoDup (followers n)
  /\ sequential n = (fun i => "T" +:+ str i +:+ ", ") <$> seqZ 1 n
  /\ (2 <= n -> n mod 2 = 0 -> (n / 2, n + 1) ∈ edges n).
Proof.
  assert (edges n = (fun c => (c / 2, c)) <$> seqZ 2 (2 * (n / 2))) as He.
  { unfold edges, range.
    replace ((n + 1 - 2 + 2 - 1) / 2) with (n / 2) by (f_equal; lia).
    destruct (decide (0 <= n / 2)) as [Hn|Hn].
    - rewrite <- (Z2Nat.id (n / 2)) by done.
      rewrite (edges_seq (Z.to_nat (n / 2)) 0). done.
    - by rewrite !seqZ_nil by lia. }
  assert (followers n = seqZ 2 (2 * (n / 2))) as Hf.
  { unfold followers. rewrite He, <- list_fmap_compose.
    rewrite <- (list_fmap_id (seqZ _ _)) at 2. by apply list_fmap_ext. }
  split; [done|]. split; [done|]. split; [rewrite Hf; apply NoDup_seqZ|].
  split.
  { unfold sequential. replace (n + 1) with (1 + n) by lia.
    by rewrite range_unit. }
  intros Hn Hmod. rewrite He. apply list_elem_of_fmap.
  exists (n + 1). split.
  - f_equal. rewrite (Z.div_mod n 2) at 2 by lia. rewrite Hmod.
    replace (2 * (n / 2) + 0 + 1) with (1 + (n / 2) * 2) by lia.
    rewrite Z.div_add by lia. done.
  - apply elem_of_seqZ. pose proof (Z.div_mod n 2 ltac:(lia)). lia.
Qed.


End scaling_gen_facts.
